(** * awsmfa: a shallow embedding of [awsmfa/__main__.py]

    The program reads an INI credentials file with Python's
    [configparser], resolves an MFA device through IAM, asks STS for
    temporary credentials and rewrites one profile of the file.

    Layout of this development:
    - [Text]          Python [str] operations used by the program and by
                      [configparser] ([strip], [lower], [endswith], ...);
    - [configparser]  the part of the standard module the program calls:
                      [read], [remove_section], [add_section], [items],
                      [set], [write], with [BasicInterpolation];
    - [datetime]      [isoformat] of timezone-aware values;
    - [Effects]       the outside world (file system, IAM, STS, terminal)
                      as an explicit state with an event log;
    - [awsmfa]        [find_mfa_for_user], [update_credentials_file] and
                      [main], line by line;
    - [Props]         the vocabulary of the statements, [Examples] the
                      sample inputs;
    - the facts about text, dictionaries, runs, the store and its
      file, and the theorems on the program. *)

From Stdlib Require Import Ascii String List ZArith Lia Bool Arith PeanoNat.
Import ListNotations.

Set Implicit Arguments.

(* ================================================================== *)
(** * Python text *)
(* ================================================================== *)

Module Text.

(** A Python [str] restricted to code points below 256, one [ascii] per
    code point. *)
Definition str := list ascii.

(** String literals. *)
Definition py (s : string) : str := list_ascii_of_string s.
Arguments py : simpl never.

Definition chr (n : nat) : ascii := ascii_of_nat n.
Definition ord (c : ascii) : nat := nat_of_ascii c.

Definition NL : ascii := chr 10.
Definition CR : ascii := chr 13.
Definition TAB : ascii := chr 9.

(** [str.isspace] on one character: the code points below 256 for which
    CPython answers true are 9..13, 28..32, 133 and 160.  The same set is
    what [str.strip] removes and what the regular expression class [\s]
    matches on [str] patterns. *)
Definition isspace (c : ascii) : bool :=
  let n := ord c in
  ((9 <=? n) && (n <=? 13)) || ((28 <=? n) && (n <=? 32))
  || (n =? 133) || (n =? 160).

(** [str.lower] on one character (Latin-1 range): A..Z and the accented
    capitals 192..222 except the multiplication sign 215 move up by 32. *)
Definition lower_char (c : ascii) : ascii :=
  let n := ord c in
  if ((65 <=? n) && (n <=? 90))
     || ((192 <=? n) && (n <=? 222) && negb (n =? 215))
  then chr (n + 32) else c.

Definition lower (s : str) : str := map lower_char s.

Fixpoint str_eqb (a b : str) : bool :=
  match a, b with
  | [], [] => true
  | x :: a', y :: b' => Ascii.eqb x y && str_eqb a' b'
  | _, _ => false
  end.

(** [s.lstrip()] *)
Fixpoint lstrip (s : str) : str :=
  match s with
  | [] => []
  | c :: s' => if isspace c then lstrip s' else s
  end.

(** [s.rstrip()] *)
Fixpoint rstrip (s : str) : str :=
  match s with
  | [] => []
  | c :: s' =>
      match rstrip s' with
      | [] => if isspace c then [] else [c]
      | r => c :: r
      end
  end.

(** [s.strip()] *)
Definition strip (s : str) : str := rstrip (lstrip s).

(** [s.startswith(p)] *)
Fixpoint startswith (p s : str) : bool :=
  match p, s with
  | [], _ => true
  | x :: p', y :: s' => Ascii.eqb y x && startswith p' s'
  | _ :: _, [] => false
  end.

(** [s.endswith(p)] *)
Definition endswith (p s : str) : bool := startswith (rev p) (rev s).

(** [c in s] for a one-character [c]. *)
Definition contains (c : ascii) (s : str) : bool :=
  existsb (fun x => Ascii.eqb x c) s.

(** Python truthiness of a [str]: the empty string is false. *)
Definition nonempty (s : str) : bool :=
  match s with [] => false | _ => true end.

(** Python truthiness of a value that is [None] or a [str]. *)
Definition truthy (o : option str) : bool :=
  match o with Some s => nonempty s | None => false end.

(** [s.split("\n")]: the lines of [s], without their terminators. *)
Fixpoint split_lines (s : str) : list str :=
  match s with
  | [] => [[]]
  | c :: s' =>
      if Ascii.eqb c NL then [] :: split_lines s'
      else match split_lines s' with
           | [] => [[c]]
           | l :: ls => (c :: l) :: ls
           end
  end.

(** The lines a text-mode file object yields, terminators removed: the
    pieces between newlines, and no empty last piece after a final
    newline. *)
Definition file_lines (s : str) : list str :=
  match rev (split_lines s) with
  | [] :: r => rev r
  | _ => split_lines s
  end.

(** Universal-newline translation done by text-mode [open] on reading:
    ["\r\n"] and a lone ["\r"] both become ["\n"]. *)
Fixpoint universal_newlines (s : str) : str :=
  match s with
  | [] => []
  | c :: s' =>
      if Ascii.eqb c CR then
        match s' with
        | d :: _ => if Ascii.eqb d NL then universal_newlines s'
                    else NL :: universal_newlines s'
        | [] => [NL]
        end
      else c :: universal_newlines s'
  end.

(** [s.replace("\n", "\n\t")] *)
Fixpoint indent_continuations (s : str) : str :=
  match s with
  | [] => []
  | c :: s' =>
      if Ascii.eqb c NL then NL :: TAB :: indent_continuations s'
      else c :: indent_continuations s'
  end.

End Text.
Export Text.

(* ================================================================== *)
(** * Exceptions and results *)
(* ================================================================== *)

(** The exceptions that can leave the program.  [ClientError] carries
    [err.response\["Error"\]\["Code"\]]; [OtherError] stands for any
    other exception class a collaborator raises (connection failures,
    parameter validation, ...). *)
Inductive Exn : Type :=
| NoSectionError (section : str)
| DuplicateSectionError (section : str)
| DuplicateOptionError (section option : str)
| MissingSectionHeaderError (line : str)
| ParsingError
| InterpolationSyntaxError
| InterpolationDepthError
| InterpolationMissingOptionError (var : str)
| ValueError
| TypeError
| KeyError
| EOFError
| OSError
| ProfileNotFound (profile : str)
| ClientError (code : str)
| OtherError (name : str).

Inductive Result (A : Type) : Type :=
| Ok (a : A)
| Raised (e : Exn).
Arguments Ok {A} a.
Arguments Raised {A} e.

Definition rbind {A B} (r : Result A) (k : A -> Result B) : Result B :=
  match r with
  | Ok a => k a
  | Raised e => Raised e
  end.

Declare Scope result_scope.
Delimit Scope result_scope with result.
Notation "'try!' x <- r ; k" := (rbind r (fun x => k))
  (at level 10, x name, r at level 100, k at level 200) : result_scope.

(* ================================================================== *)
(** * configparser *)
(* ================================================================== *)

Module configparser.
Local Open Scope result_scope.

(** An insertion-ordered Python [dict] with [str] keys. *)
Definition odict (V : Type) := list (str * V).

(** [d.get(k)] *)
Fixpoint dict_get {V} (k : str) (d : odict V) : option V :=
  match d with
  | [] => None
  | (k', v) :: d' => if str_eqb k k' then Some v else dict_get k d'
  end.

(** [k in d] *)
Definition dict_mem {V} (k : str) (d : odict V) : bool :=
  match dict_get k d with Some _ => true | None => false end.

(** [d\[k\] = v]: an existing key keeps its position, a new key goes
    last. *)
Fixpoint dict_set {V} (k : str) (v : V) (d : odict V) : odict V :=
  match d with
  | [] => [(k, v)]
  | (k', v') :: d' =>
      if str_eqb k k' then (k', v) :: d' else (k', v') :: dict_set k v d'
  end.

(** [del d\[k\]] *)
Fixpoint dict_del {V} (k : str) (d : odict V) : odict V :=
  match d with
  | [] => []
  | (k', v') :: d' =>
      if str_eqb k k' then dict_del k d' else (k', v') :: dict_del k d'
  end.

(** [d.update(e)] *)
Definition dict_update {V} (d e : odict V) : odict V :=
  fold_left (fun acc kv => dict_set (fst kv) (snd kv) acc) e d.

(** The options of one section. *)
Definition dict := odict str.

(** The state of a [ConfigParser(default_section=None)] object:
    [_defaults] and the ordered [_sections].  ([_proxies] mirrors the
    key set of [_sections] and is not read by the program.) *)
Record ConfigParser : Type := {
  _defaults : dict;
  _sections : odict dict
}.

(** [ConfigParser(default_section=None)] *)
Definition empty : ConfigParser := {| _defaults := []; _sections := [] |}.

(** [has_section(section)] *)
Definition has_section (section : str) (cfg : ConfigParser) : bool :=
  dict_mem section (_sections cfg).

(** [optionxform]: option names are lower-cased. *)
Definition optionxform (option : str) : str := lower option.

(** [remove_section(section)] *)
Definition remove_section (section : str) (cfg : ConfigParser) : ConfigParser :=
  {| _defaults := _defaults cfg;
     _sections := dict_del section (_sections cfg) |}.

(** [add_section(section)].  The comparison with [default_section] is
    always false here: the default section is [None], not a [str]. *)
Definition add_section (section : str) (cfg : ConfigParser) : Result ConfigParser :=
  if has_section section cfg then Raised (DuplicateSectionError section)
  else Ok {| _defaults := _defaults cfg;
             _sections := _sections cfg ++ [(section, [])] |}.

(** ** BasicInterpolation *)

(** [_KEYCRE.match(s)] for [_KEYCRE = %\(([^)]+)\)s]: the name and the
    length of the whole match. *)
Fixpoint key_name (s : str) : option (str * str) :=
  match s with
  | [] => None
  | c :: s' =>
      if Ascii.eqb c ")"%char then Some ([], s')
      else match key_name s' with
           | Some (n, r) => Some (c :: n, r)
           | None => None
           end
  end.

Definition keycre_match (s : str) : option (str * nat) :=
  match s with
  | p :: o :: s' =>
      if Ascii.eqb p "%"%char && Ascii.eqb o "("%char then
        match key_name s' with
        | Some (n, c :: _) =>
            if nonempty n && Ascii.eqb c "s"%char
            then Some (n, length n + 4) else None
        | _ => None
        end
      else None
  | _ => None
  end.

(** [value.replace('%%', '')] *)
Fixpoint drop_escaped_percent (s : str) : str :=
  match s with
  | [] => []
  | c :: s' =>
      match s' with
      | d :: s'' =>
          if Ascii.eqb c "%"%char && Ascii.eqb d "%"%char
          then drop_escaped_percent s''
          else c :: drop_escaped_percent s'
      | [] => [c]
      end
  end.

(** [_KEYCRE.sub('', s)]: every match, found from left to right, is
    removed.  [skip] counts the characters of the current match still to
    be dropped. *)
Fixpoint keycre_sub (skip : nat) (s : str) : str :=
  match s with
  | [] => []
  | c :: s' =>
      match skip with
      | S k => keycre_sub k s'
      | O =>
          match keycre_match s with
          | Some (_, len) => keycre_sub (len - 1) s'
          | None => c :: keycre_sub 0 s'
          end
      end
  end.

(** [BasicInterpolation.before_set] *)
Definition before_set (value : str) : Result str :=
  let tmp_value := keycre_sub 0 (drop_escaped_percent value) in
  if contains "%"%char tmp_value then Raised ValueError else Ok value.

Definition MAX_INTERPOLATION_DEPTH : nat := 10.

(** The [while rest:] loop of [_interpolate_some]; [again] is the
    recursive call at [depth + 1] and [skip] the number of characters
    of a reference already consumed. *)
Fixpoint interpolate_loop (again : str -> Result str) (map : dict)
    (skip : nat) (rest : str) : Result str :=
  match rest with
  | [] => Ok []
  | c :: rest' =>
      match skip with
      | S k => interpolate_loop again map k rest'
      | O =>
          if negb (Ascii.eqb c "%"%char) then
            try! tl <- interpolate_loop again map 0 rest' ; Ok (c :: tl)
          else
            match rest' with
            | d :: _ =>
                if Ascii.eqb d "%"%char then
                  try! tl <- interpolate_loop again map 1 rest' ; Ok (c :: tl)
                else if Ascii.eqb d "("%char then
                  match keycre_match rest with
                  | None => Raised InterpolationSyntaxError
                  | Some (name, len) =>
                      let var := optionxform name in
                      match dict_get var map with
                      | None => Raised (InterpolationMissingOptionError var)
                      | Some v =>
                          try! hd <- (if contains "%"%char v then again v else Ok v) ;
                          try! tl <- interpolate_loop again map (len - 1) rest' ;
                          Ok (hd ++ tl)
                      end
                  end
                else Raised InterpolationSyntaxError
            | [] => Raised InterpolationSyntaxError
            end
      end
  end.

(** [_interpolate_some] with [levels] recursion levels left before
    [InterpolationDepthError]. *)
Fixpoint _interpolate_some (levels : nat) (map : dict) (rest : str) : Result str :=
  match levels with
  | O => Raised InterpolationDepthError
  | S l => interpolate_loop (_interpolate_some l map) map 0 rest
  end.

(** [BasicInterpolation.before_get] *)
Definition before_get (value : str) (defaults : dict) : Result str :=
  _interpolate_some MAX_INTERPOLATION_DEPTH defaults value.

(** ** Access *)

Fixpoint get_all (d : dict) (keys : list (str * str)) : Result (list (str * str)) :=
  match keys with
  | [] => Ok []
  | (option, raw) :: keys' =>
      try! v <- before_get raw d ;
      try! rest <- get_all d keys' ;
      Ok ((option, v) :: rest)
  end.

(** [items(section)]: the options of the section over the defaults,
    each value interpolated. *)
Definition items (section : str) (cfg : ConfigParser) : Result (list (str * str)) :=
  match dict_get section (_sections cfg) with
  | None => Raised (NoSectionError section)
  | Some sect =>
      let d := dict_update (_defaults cfg) sect in
      get_all d d
  end.

(** [set(section, option, value)] of [ConfigParser]: a non-empty value
    is checked by [before_set]; an empty section name addresses
    [_defaults]. *)
Definition set (section option value : str) (cfg : ConfigParser)
  : Result ConfigParser :=
  try! value <- (if nonempty value then before_set value else Ok value) ;
  if negb (nonempty section) then
    Ok {| _defaults := dict_set (optionxform option) value (_defaults cfg);
          _sections := _sections cfg |}
  else
    match dict_get section (_sections cfg) with
    | None => Raised (NoSectionError section)
    | Some sectdict =>
        Ok {| _defaults := _defaults cfg;
              _sections := dict_set section
                             (dict_set (optionxform option) value sectdict)
                             (_sections cfg) |}
    end.

(** ** Writing *)

(** [_write_section]: the strings passed to [fp.write], in order. *)
Definition _write_section (section_name : str) (section_items : dict) : list str :=
  (py "[" ++ section_name ++ py "]" ++ [NL])
  :: map (fun kv => fst kv ++ py " = " ++ indent_continuations (snd kv) ++ [NL])
         section_items
  ++ [[NL]].

(** [write(fp)]: the strings passed to [fp.write], in order.  A
    non-empty [_defaults] is written under the name of the default
    section, which prints as [None]. *)
Definition write (cfg : ConfigParser) : list str :=
  (match _defaults cfg with [] => [] | _ => _write_section (py "None") (_defaults cfg) end)
  ++ flat_map (fun s => _write_section (fst s) (snd s)) (_sections cfg).

(** ** Reading *)

(** [line.strip().startswith(prefix)] for one of the comment prefixes
    [#] and [;]. *)
Definition is_comment_line (line : str) : bool :=
  startswith (py "#") (strip line) || startswith (py ";") (strip line).

(** [NONSPACECRE.search(line).start()]: the index of the first
    character that is not white space. *)
Fixpoint indent_of (line : str) : nat :=
  match line with
  | [] => 0
  | c :: l => if isspace c then S (indent_of l) else 0
  end.

(** The text before the last closing bracket of [s], if there is one. *)
Fixpoint before_last_bracket (s : str) : option str :=
  match s with
  | [] => None
  | c :: s' =>
      match before_last_bracket s' with
      | Some h => Some (c :: h)
      | None => if Ascii.eqb c "]"%char then Some [] else None
      end
  end.

(** [SECTCRE.match(value).group('header')] for [SECTCRE = \[(.+)\]]:
    the pattern is anchored at the start only and [.+] is greedy, so
    the header runs from the opening bracket to the last closing one
    and must not be empty. *)
Definition sect_header (value : str) : option str :=
  match value with
  | c :: rest =>
      if Ascii.eqb c "["%char then
        match before_last_bracket rest with
        | Some h => if nonempty h then Some h else None
        | None => None
        end
      else None
  | [] => None
  end.

Definition is_delimiter (c : ascii) : bool :=
  Ascii.eqb c "="%char || Ascii.eqb c ":"%char.

(** The text before and after the first delimiter of [s]. *)
Fixpoint cut_at_delimiter (s : str) : option (str * str) :=
  match s with
  | [] => None
  | c :: s' =>
      if is_delimiter c then Some ([], s')
      else match cut_at_delimiter s' with
           | Some (a, b) => Some (c :: a, b)
           | None => None
           end
  end.

(** [_optcre.match(value).group('option', 'value')].  The pattern is a
    lazy option group, optional white space, one delimiter ([=] or
    [:]), optional white space and the value group up to the end: the
    option stops before the white space in front of the first
    delimiter and the value starts after the white space behind it. *)
Definition opt_match (value : str) : option (str * str) :=
  match cut_at_delimiter value with
  | Some (a, b) => Some (rstrip a, lstrip b)
  | None => None
  end.

(** The local variables of [_read].  While a file is read each value
    is the list of its lines.  [cursect] is a reference into
    [_sections] and is kept as the name of that section.  The parser
    starts empty, so [elements_added] holds exactly the sections and
    options present in [rd_sections], which is consulted instead. *)
Record ReadState : Type := {
  rd_sections : odict (odict (list str));
  rd_cursect : option str;
  rd_optname : option str;
  rd_indent_level : nat;
  rd_e : bool
}.

Definition read_start : ReadState :=
  {| rd_sections := []; rd_cursect := None; rd_optname := None;
     rd_indent_level := 0; rd_e := false |}.

(** [cursect\[optname\].append(value)] *)
Definition append_line (sect opt value : str) (ss : odict (odict (list str)))
  : odict (odict (list str)) :=
  match dict_get sect ss with
  | Some d =>
      match dict_get opt d with
      | Some ls => dict_set sect (dict_set opt (ls ++ [value]) d) ss
      | None => ss
      end
  | None => ss
  end.

(** One iteration of the [for lineno, line in enumerate(fp)] loop. *)
Definition read_line (st : ReadState) (line : str) : Result ReadState :=
  let comment := is_comment_line line in
  let value := if comment then [] else strip line in
  if negb (nonempty value) then
    (* empty_lines_in_values: an empty line that is not a comment
       extends the value being read *)
    match rd_cursect st, rd_optname st with
    | Some sect, Some opt =>
        if negb comment && nonempty opt then
          Ok {| rd_sections := append_line sect opt [] (rd_sections st);
                rd_cursect := rd_cursect st; rd_optname := rd_optname st;
                rd_indent_level := rd_indent_level st; rd_e := rd_e st |}
        else Ok st
    | _, _ => Ok st
    end
  else
    let cur_indent_level := indent_of line in
    let continuation :=
      match rd_cursect st, rd_optname st with
      | Some sect, Some opt =>
          if nonempty opt && (rd_indent_level st <? cur_indent_level)
          then Some (sect, opt) else None
      | _, _ => None
      end in
    match continuation with
    | Some (sect, opt) =>
        Ok {| rd_sections := append_line sect opt value (rd_sections st);
              rd_cursect := rd_cursect st; rd_optname := rd_optname st;
              rd_indent_level := rd_indent_level st; rd_e := rd_e st |}
    | None =>
        match sect_header value with
        | Some sectname =>
            if dict_mem sectname (rd_sections st)
            then Raised (DuplicateSectionError sectname)
            else Ok {| rd_sections := rd_sections st ++ [(sectname, [])];
                       rd_cursect := Some sectname; rd_optname := None;
                       rd_indent_level := cur_indent_level; rd_e := rd_e st |}
        | None =>
            match rd_cursect st with
            | None => Raised (MissingSectionHeaderError line)
            | Some sect =>
                match opt_match value with
                | Some (option, optval) =>
                    let e := rd_e st || negb (nonempty option) in
                    let optname := optionxform (rstrip option) in
                    let cur := match dict_get sect (rd_sections st) with
                               | Some d => d | None => [] end in
                    if dict_mem optname cur
                    then Raised (DuplicateOptionError sect optname)
                    else Ok {| rd_sections :=
                                 dict_set sect
                                   (dict_set optname [strip optval] cur)
                                   (rd_sections st);
                               rd_cursect := rd_cursect st;
                               rd_optname := Some optname;
                               rd_indent_level := cur_indent_level;
                               rd_e := e |}
                | None =>
                    Ok {| rd_sections := rd_sections st;
                          rd_cursect := rd_cursect st;
                          rd_optname := rd_optname st;
                          rd_indent_level := cur_indent_level;
                          rd_e := true |}
                end
            end
        end
    end.

Fixpoint read_lines (st : ReadState) (lines : list str) : Result ReadState :=
  match lines with
  | [] => Ok st
  | line :: lines' =>
      try! st' <- read_line st line ;
      read_lines st' lines'
  end.

(** ['\n'.join(val)] *)
Fixpoint join_lines (val : list str) : str :=
  match val with
  | [] => []
  | [l] => l
  | l :: val' => l ++ NL :: join_lines val'
  end.

(** [_join_multiline_values] *)
Definition _join_multiline_values (ss : odict (odict (list str))) : odict dict :=
  map (fun s => (fst s, map (fun o => (fst o, rstrip (join_lines (snd o)))) (snd s)))
      ss.

(** [_read(fp, fpname)] on a parser that holds nothing yet; [content]
    is the text of the file. *)
Definition _read (content : str) : Result ConfigParser :=
  try! st <- read_lines read_start (file_lines (universal_newlines content)) ;
  if rd_e st then Raised ParsingError
  else Ok {| _defaults := []; _sections := _join_multiline_values (rd_sections st) |}.

(** [read(filename)] for one file name: a file that cannot be opened
    is skipped and the parser stays empty.  [file] is the content of
    the file, [None] when it cannot be opened. *)
Definition read (file : option str) : Result ConfigParser :=
  match file with
  | None => Ok empty
  | Some content => _read content
  end.

End configparser.

(* ================================================================== *)
(** * datetime *)
(* ================================================================== *)

Module datetime.

(** A timezone-aware [datetime.datetime]; [utcoffset] is the offset of
    its [tzinfo] in whole minutes (0 for the UTC values botocore
    builds). *)
Record datetime : Type := {
  year : nat; month : nat; day : nat;
  hour : nat; minute : nat; second : nat; microsecond : nat;
  utcoffset : Z
}.

Fixpoint digits_upto (fuel n : nat) (acc : str) : str :=
  match fuel with
  | O => acc
  | S f =>
      let acc' := chr (48 + n mod 10) :: acc in
      if n / 10 =? 0 then acc' else digits_upto f (n / 10) acc'
  end.

(** [str(n)] for a natural number *)
Definition str_of_nat (n : nat) : str := digits_upto (S n) n [].

(** ["%0<width>d" % n] *)
Definition zfill (width n : nat) : str :=
  let d := str_of_nat n in
  repeat "0"%char (width - length d) ++ d.

(** [dt.isoformat()]: date, [T], time, the microseconds when they are
    not zero, and the UTC offset as [+HH:MM] or [-HH:MM]. *)
Definition isoformat (dt : datetime) : str :=
  let off := Z.abs_nat (utcoffset dt) in
  zfill 4 (year dt) ++ py "-" ++ zfill 2 (month dt) ++ py "-" ++ zfill 2 (day dt)
  ++ py "T" ++ zfill 2 (hour dt) ++ py ":" ++ zfill 2 (minute dt)
  ++ py ":" ++ zfill 2 (second dt)
  ++ (if microsecond dt =? 0 then [] else py "." ++ zfill 6 (microsecond dt))
  ++ (if (utcoffset dt <? 0)%Z then py "-" else py "+")
  ++ zfill 2 (off / 60) ++ py ":" ++ zfill 2 (off mod 60).

End datetime.

(* ================================================================== *)
(** * The outside world *)
(* ================================================================== *)

Module Effects.

(** ** Values exchanged with AWS *)

(** [iam.get_user()\['User'\]] *)
Record User : Type := { Arn : str; UserName : str }.

(** One MFA device: [x\['SerialNumber'\]] of a listing entry,
    [x.serial_number] of a resource object. *)
Record MFADevice : Type := { SerialNumber : str }.

(** The [dict] returned by the low-level [list_mfa_devices]:
    [MFADevices] and the other top-level keys botocore puts next to it
    ([IsTruncated], [ResponseMetadata], [Marker] when truncated). *)
Record ListMFADevicesResponse : Type := {
  MFADevices : list MFADevice;
  other_keys : list str
}.

(** [response\['Credentials'\]] *)
Record Credentials : Type := {
  AccessKeyId : str;
  SecretAccessKey : str;
  SessionToken : str;
  Expiration : datetime.datetime
}.

(** The keyword arguments of the two STS calls. *)
Inductive StsRequest : Type :=
| AssumeRole (DurationSeconds : Z) (RoleArn RoleSessionName SerialNumber : str)
             (TokenCode : str)
| GetSessionToken (DurationSeconds : Z) (SerialNumber TokenCode : str).

(** What the collaborators answer: botocore's profile lookup, IAM, STS
    and the clock. *)
Record Services : Type := {
  profile_found : str -> bool;
  get_user : Result User;
  current_user_mfa_devices : Result (list MFADevice);
  list_mfa_devices : str -> Result ListMFADevicesResponse;
  sts : StsRequest -> Result Credentials;
  now : datetime.datetime
}.

(** ** Events and state *)

Inductive Stream : Type := stdout | stderr.

Inductive Event : Type :=
| EvPrint (file : Stream) (text : str)
| EvPrintExn (file : Stream) (err : Exn)
| EvPrintAvailableProfiles
| EvPrintRemaining (expiration now : datetime.datetime)
| EvGetpass (prompt : str)
| EvGetUser
| EvCurrentUserMfaDevices
| EvListMfaDevices (UserName : str)
| EvSts (request : StsRequest)
| EvOpenW (path : str)
| EvWrite (path data : str)
| EvClose (path : str)
| EvRename (src dst : str).

(** The files that can be opened, by path. *)
Definition FS := str -> option str.

Definition fs_set (p : str) (v : option str) (fs : FS) : FS :=
  fun q => if str_eqb q p then v else fs q.

(** The effect of a file operation on the file system: [open(p, "w")]
    creates or truncates, [write] appends, [os.rename] moves the source
    over the destination. *)
Definition apply_event (ev : Event) (fs : FS) : FS :=
  match ev with
  | EvOpenW p => fs_set p (Some []) fs
  | EvWrite p data =>
      match fs p with
      | Some old => fs_set p (Some (old ++ data)) fs
      | None => fs
      end
  | EvRename src dst =>
      match fs src with
      | Some c => fs_set src None (fs_set dst (Some c) fs)
      | None => fs
      end
  | _ => fs
  end.

Definition replay (evs : list Event) (fs : FS) : FS :=
  fold_left (fun f ev => apply_event ev f) evs fs.

(** The state the program runs in: the file system, what the operator
    will type at the [getpass] prompts, which of the coming file
    operations fail ([true] makes the next one raise [OSError]), and
    the log of everything done so far. *)
Record World : Type := {
  fs : FS;
  stdin : list str;
  faults : list bool;
  log : list Event
}.

(** ** The monad of the program: state and exceptions *)

Definition M (A : Type) : Type := World -> Result A * World.

Definition ret {A} (a : A) : M A := fun w => (Ok a, w).

Definition raise {A} (e : Exn) : M A := fun w => (Raised e, w).

Definition bind {A B} (m : M A) (k : A -> M B) : M B :=
  fun w =>
    match m w with
    | (Ok a, w') => k a w'
    | (Raised e, w') => (Raised e, w')
    end.

(** A pure computation that may raise. *)
Definition lift {A} (r : Result A) : M A := fun w => (r, w).

(** [try: m  except: handler] *)
Definition try_except {A} (m : M A) (handler : Exn -> M A) : M A :=
  fun w =>
    match m w with
    | (Ok a, w') => (Ok a, w')
    | (Raised e, w') => handler e w'
    end.

(** [try: m  finally: cleanup] *)
Definition try_finally {A} (m : M A) (cleanup : M unit) : M A :=
  fun w =>
    match m w with
    | (Ok a, w') =>
        match cleanup w' with
        | (Ok _, w'') => (Ok a, w'')
        | (Raised e, w'') => (Raised e, w'')
        end
    | (Raised e, w') =>
        match cleanup w' with
        | (Ok _, w'') => (Raised e, w'')
        | (Raised e', w'') => (Raised e', w'')
        end
    end.

Definition emit (ev : Event) : M unit :=
  fun w => (Ok tt, {| fs := fs w; stdin := stdin w; faults := faults w;
                      log := log w ++ [ev] |}).

(** A call to a collaborator: logged, then answered. *)
Definition call {A} (ev : Event) (answer : Result A) : M A :=
  bind (emit ev) (fun _ => lift answer).

(** A file operation: it fails with [OSError] and no effect when the
    fault schedule says so, and otherwise acts on the file system and
    is logged. *)
Definition file_op (ev : Event) : M unit :=
  fun w =>
    match faults w with
    | true :: fl =>
        (Raised OSError,
         {| fs := fs w; stdin := stdin w; faults := fl; log := log w |})
    | _ =>
        (Ok tt, {| fs := apply_event ev (fs w); stdin := stdin w;
                   faults := tl (faults w); log := log w ++ [ev] |})
    end.

(** [getpass.getpass(prompt)]: the next line typed, [EOFError] when
    there is none. *)
Definition getpass (prompt : str) : M str :=
  fun w =>
    match stdin w with
    | [] => (Raised EOFError,
             {| fs := fs w; stdin := []; faults := faults w;
                log := log w ++ [EvGetpass prompt] |})
    | l :: ls => (Ok l, {| fs := fs w; stdin := ls; faults := faults w;
                           log := log w ++ [EvGetpass prompt] |})
    end.

(** [print(text, file=...)] *)
Definition print (file : Stream) (text : str) : M unit := emit (EvPrint file text).

Definition get_fs : M FS := fun w => (Ok (fs w), w).

Declare Scope monad_scope.
Delimit Scope monad_scope with monad.
Notation "x <- m ;; k" := (bind m (fun x => k))
  (at level 61, m at next level, right associativity) : monad_scope.
Notation "m ;; k" := (bind m (fun _ => k))
  (at level 61, right associativity) : monad_scope.

End Effects.

(* ================================================================== *)
(** * awsmfa/__main__.py *)
(* ================================================================== *)

Module awsmfa.
Import configparser datetime Effects.
Local Open Scope monad_scope.

Definition SIX_HOURS_IN_SECONDS : Z := 21600.
Definition OK : Z := 0.
Definition USER_RECOVERABLE_ERROR : Z := 1.

(** The namespace [parse_args] returns.  Options that default to
    [None] when neither the command line nor the environment gives them
    are [option]s. *)
Record Args : Type := {
  version : bool;
  role_to_assume : option str;
  aws_credentials : str;
  duration : Z;
  identity_profile : str;
  serial_number : option str;
  target_profile : str;
  role_session_name : str;
  token_code : option str
}.

(** The object bound to [devices] in [find_mfa_for_user]: a boto3
    resource collection for the root user, the response [dict] of the
    low-level client otherwise. *)
Inductive Devices : Type :=
| Collection (all : list MFADevice)
| Response (response : ListMFADevicesResponse).

(** [len(devices)]: a boto3 [ResourceCollection] defines no [__len__],
    so [len] raises [TypeError] on it; on the response [dict] it counts
    the top-level keys. *)
Definition len (devices : Devices) : Result nat :=
  match devices with
  | Collection _ => Raised TypeError
  | Response r => Ok (S (length (other_keys r)))
  end.

Section Program.

(** [VERSION] is imported from [awsmfa/_version.py]. *)
Variable VERSION : str.
Variable svc : Services.

(** Lines 159-186. *)
Definition find_mfa_for_user (user_specified_serial : option str)
  : M (option str) :=
  if truthy user_specified_serial then ret user_specified_serial
  else
    user <- call EvGetUser (get_user svc) ;;
    found <-
      (if endswith (py ":root") (Arn user) then
         all <- call EvCurrentUserMfaDevices (current_user_mfa_devices svc) ;;
         ret (Collection all, map SerialNumber all)
       else
         let username := UserName user in
         devices <- call (EvListMfaDevices username)
                         (list_mfa_devices svc username) ;;
         ret (Response devices, map SerialNumber (MFADevices devices))) ;;
    let devices := fst found in
    let serials := snd found in
    match serials with
    | [] => ret None
    | first :: _ =>
        (if 1 <? length serials then
           n <- lift (len devices) ;;
           print stderr (py "Warning: user has " ++ str_of_nat n
                         ++ py " MFA devices. Using the first.")
         else ret tt) ;;
        ret (Some first)
    end.

(** Lines 190-201: what [update_credentials_file] does to the parser
    object. *)
Definition updated_credentials (args : Args) (credentials : ConfigParser)
    (temporary_credentials : Credentials) : Result ConfigParser :=
  (let credentials := remove_section (target_profile args) credentials in
   try! credentials <- add_section (target_profile args) credentials ;
   try! kvs <- items (identity_profile args) credentials ;
   try! credentials <-
     fold_left (fun acc kv =>
                  try! c <- acc ; set (target_profile args) (fst kv) (snd kv) c)
               kvs (Ok credentials) ;
   try! credentials <- set (target_profile args) (py "aws_access_key_id")
                           (AccessKeyId temporary_credentials) credentials ;
   try! credentials <- set (target_profile args) (py "aws_secret_access_key")
                           (SecretAccessKey temporary_credentials) credentials ;
   try! credentials <- set (target_profile args) (py "aws_session_token")
                           (SessionToken temporary_credentials) credentials ;
   set (target_profile args) (py "awsmfa_expiration")
       (isoformat (Expiration temporary_credentials)) credentials)%result.

(** [credentials.write(out)]: one [out.write] per string. *)
Fixpoint write_all (path : str) (chunks : list str) : M unit :=
  match chunks with
  | [] => ret tt
  | data :: chunks' => file_op (EvWrite path data) ;; write_all path chunks'
  end.

(** Lines 202-205. *)
Definition persist (args : Args) (credentials : ConfigParser) : M unit :=
  let temp_credentials_file := aws_credentials args ++ py ".tmp" in
  file_op (EvOpenW temp_credentials_file) ;;
  try_finally (write_all temp_credentials_file (write credentials))
              (file_op (EvClose temp_credentials_file)) ;;
  file_op (EvRename temp_credentials_file (aws_credentials args)).

(** Lines 189-205.  The parser object is mutated in place; the value
    returned here is its state after the call. *)
Definition update_credentials_file (args : Args) (credentials : ConfigParser)
    (temporary_credentials : Credentials) : M ConfigParser :=
  credentials <- lift (updated_credentials args credentials temporary_credentials) ;;
  persist args credentials ;;
  ret credentials.

(** Lines 46-48: prompt until six characters are typed.  [fuel] is the
    number of prompts that may follow the first one; the number of
    lines the operator will type is always enough, since the prompt
    after the last line raises [EOFError]. *)
Fixpoint ask_token_code (fuel : nat) : M str :=
  match fuel with
  | O => getpass (py "MFA Token Code: ")
  | S fuel' =>
      code <- getpass (py "MFA Token Code: ") ;;
      if length code =? 6 then ret code else ask_token_code fuel'
  end.

Definition prompt_token_code : M str :=
  fun w => ask_token_code (length (stdin w)) w.

(** Lines 52-63: the STS request sent. *)
Definition sts_request (args : Args) (serial_number token_code : str)
  : StsRequest :=
  match role_to_assume args with
  | Some role =>
      if nonempty role then
        AssumeRole (Z.min (duration args) 3600) role
                   (role_session_name args) serial_number token_code
      else GetSessionToken (duration args) serial_number token_code
  | None => GetSessionToken (duration args) serial_number token_code
  end.

(** Lines 21-74. *)
Definition main (args : Args) : M Z :=
  if version args then print stdout VERSION ;; ret OK
  else
    files <- get_fs ;;
    credentials <- lift (read (files (aws_credentials args))) ;;
    if negb (profile_found svc (identity_profile args)) then
      emit (EvPrintExn stderr (ProfileNotFound (identity_profile args))) ;;
      emit EvPrintAvailableProfiles ;;
      ret USER_RECOVERABLE_ERROR
    else
      serial_number <- find_mfa_for_user (serial_number args) ;;
      match serial_number with
      | Some ((_ :: _) as serial_number) =>
          token_code <- match token_code args with
                        | None => prompt_token_code
                        | Some code => ret code
                        end ;;
          let request := sts_request args serial_number token_code in
          outcome <-
            try_except
              (response <- call (EvSts request) (sts svc request) ;;
               ret (inl response))
              (fun err =>
                 match err with
                 | ClientError code =>
                     if str_eqb code (py "AccessDenied") then
                       emit (EvPrintExn stderr err) ;;
                       ret (inr USER_RECOVERABLE_ERROR)
                     else raise err
                 | _ => raise err
                 end) ;;
          match outcome with
          | inr status => ret status
          | inl response =>
              emit (EvPrintRemaining (Expiration response) (now svc)) ;;
              update_credentials_file args credentials response ;;
              ret OK
          end
      | _ =>
          print stderr (py "There are no MFA devices associated with this user.") ;;
          ret USER_RECOVERABLE_ERROR
      end.

End Program.

End awsmfa.

(* ================================================================== *)
(** * Vocabulary of the properties *)
(* ================================================================== *)

Module Props.
Import configparser datetime Effects awsmfa.

(** A run starts with nothing logged. *)
Definition initial (files : FS) (typed : list str) (faulty : list bool) : World :=
  {| fs := files; stdin := typed; faults := faulty; log := [] |}.

(** The IAM calls. *)
Definition is_iam_call (ev : Event) : bool :=
  match ev with
  | EvGetUser | EvCurrentUserMfaDevices | EvListMfaDevices _ => true
  | _ => false
  end.

(** The STS calls. *)
Definition is_sts_call (ev : Event) : bool :=
  match ev with EvSts _ => true | _ => false end.

(** The file operations. *)
Definition is_file_op (ev : Event) : bool :=
  match ev with
  | EvOpenW _ | EvWrite _ _ | EvClose _ | EvRename _ _ => true
  | _ => false
  end.

(** ** Profiles *)

(** No key occurs twice, as in every Python [dict]. *)
Fixpoint unique_keys {V} (d : odict V) : bool :=
  match d with
  | [] => true
  | (k, _) :: d' => negb (dict_mem k d') && unique_keys d'
  end.

(** Every option name is what [optionxform] makes of it. *)
Definition lowercase_keys (d : dict) : bool :=
  forallb (fun kv => str_eqb (optionxform (fst kv)) (fst kv)) d.

(** The shape of every parser object the program can hold before it
    rewrites a profile: nothing in [_defaults], and sections that are
    dictionaries with lower-case option names. *)
Definition well_formed (cfg : ConfigParser) : bool :=
  match _defaults cfg with [] => true | _ => false end
  && unique_keys (_sections cfg)
  && forallb (fun s => unique_keys (snd s) && lowercase_keys (snd s)) (_sections cfg).

(** The four fields [update_credentials_file] writes, over [d]. *)
Definition with_temporary_credentials (c : Credentials) (d : dict) : dict :=
  dict_set (py "awsmfa_expiration") (isoformat (Expiration c))
    (dict_set (py "aws_session_token") (SessionToken c)
       (dict_set (py "aws_secret_access_key") (SecretAccessKey c)
          (dict_set (py "aws_access_key_id") (AccessKeyId c) d))).

(** The sections other than [name], in order. *)
Definition other_sections (name : str) (cfg : ConfigParser) : odict dict :=
  filter (fun s => negb (str_eqb name (fst s))) (_sections cfg).

(** ** Paths *)

(** [p\[:p.rfind('/') + 1\]] *)
Fixpoint dir_head (p : str) : str :=
  match p with
  | [] => []
  | c :: p' => if contains "/"%char p then c :: dir_head p' else []
  end.

Fixpoint rstrip_slash (s : str) : str :=
  match s with
  | [] => []
  | c :: s' =>
      match rstrip_slash s' with
      | [] => if Ascii.eqb c "/"%char then [] else [c]
      | r => c :: r
      end
  end.

(** [posixpath.dirname(p)] *)
Definition dirname (p : str) : str :=
  let head := dir_head p in
  if forallb (fun c => Ascii.eqb c "/"%char) head then head else rstrip_slash head.

(** ** Stores that survive a write and a read *)

Definition no_newline (s : str) : bool :=
  negb (contains NL s) && negb (contains CR s).

Definition stripped (s : str) : bool := str_eqb (strip s) s.

Definition starts_comment (l : str) : bool :=
  startswith (py "#") l || startswith (py ";") l.

Definition canonical_name (n : str) : bool := nonempty n && no_newline n.

Definition canonical_key (k : str) : bool :=
  nonempty k && stripped k && str_eqb (optionxform k) k
  && negb (existsb is_delimiter k) && no_newline k
  && negb (startswith (py "[") k) && negb (starts_comment k).

Definition canonical_next_line (l : str) : bool :=
  stripped l && negb (starts_comment l).

Definition canonical_value (v : str) : bool :=
  negb (contains CR v) && str_eqb (rstrip v) v
  && match split_lines v with
     | l0 :: ls => stripped l0 && forallb canonical_next_line ls
     | [] => true
     end.

Definition canonical_section (s : str * dict) : bool :=
  canonical_name (fst s) && unique_keys (snd s)
  && forallb (fun kv => canonical_key (fst kv) && canonical_value (snd kv)) (snd s).

(** The stores [write] renders in a way [read] parses back: no
    defaults; section names that are not empty and hold no line break;
    option names as the parser would produce them (not empty,
    stripped, lower case, no delimiter, no line break, not starting
    like a section header or a comment); values without carriage
    return and without trailing white space whose lines are stripped
    and whose continuation lines do not start like a comment. *)
Definition canonical (cfg : ConfigParser) : bool :=
  match _defaults cfg with [] => true | _ => false end
  && unique_keys (_sections cfg)
  && forallb canonical_section (_sections cfg).

(** What the file holds after [write]. *)
Definition serialized (cfg : ConfigParser) : str := concat (write cfg).

(** The lines of that file: for an option its name, the delimiter and
    the first line of the value, then the other lines of the value
    behind a tab; for a section its header, its options and an empty
    line. *)
Definition option_lines (kv : str * str) : list str :=
  match split_lines (snd kv) with
  | l0 :: ls => (fst kv ++ py " = " ++ l0) :: map (fun l => TAB :: l) ls
  | [] => []
  end.

Definition section_lines (s : str * dict) : list str :=
  (py "[" ++ fst s ++ py "]") :: flat_map option_lines (snd s) ++ [[]].

Definition store_lines (ss : odict dict) : list str := flat_map section_lines ss.

(** [_join_multiline_values] on the options of one section. *)
Definition join_options (d : odict (list str)) : dict :=
  map (fun o => (fst o, rstrip (join_lines (snd o)))) d.

(** ** Runs *)

(** Neither an STS call nor a file operation. *)
Definition harmless (ev : Event) : bool := negb (is_sts_call ev) && negb (is_file_op ev).

Definition is_getpass (ev : Event) : bool :=
  match ev with EvGetpass _ => true | _ => false end.

(** A computation that leaves files, terminal input and the fault
    schedule alone and logs only events satisfying [P]. *)
Definition only_logs (P : Event -> bool) {A} (m : M A) : Prop :=
  forall w, fs (snd (m w)) = fs w /\ faults (snd (m w)) = faults w
            /\ exists evs, log (snd (m w)) = log w ++ evs /\ forallb P evs = true.

(** A computation that logs only file operations, and whose effect on
    the file system is the effect of the operations it logs. *)
Definition only_files {A} (m : M A) : Prop :=
  forall w, exists evs, log (snd (m w)) = log w ++ evs
                        /\ forallb is_file_op evs = true
                        /\ fs (snd (m w)) = replay evs (fs w).

(** The operations that act on the file [p] alone and do not rename. *)
Definition on_file (p : str) (ev : Event) : bool :=
  match ev with
  | EvOpenW q | EvWrite q _ | EvClose q => str_eqb q p
  | EvRename _ _ => false
  | _ => true
  end.

(** The field of the temporary credentials stored under [k], if [k]
    is one of the four names written. *)
Definition temporary_field (c : Credentials) (k : str) : option str :=
  if str_eqb k (py "awsmfa_expiration") then Some (isoformat (Expiration c))
  else if str_eqb k (py "aws_session_token") then Some (SessionToken c)
  else if str_eqb k (py "aws_secret_access_key") then Some (SecretAccessKey c)
  else if str_eqb k (py "aws_access_key_id") then Some (AccessKeyId c)
  else None.

(** ** Reading back *)

(** A text made of the lines [ls], each one terminated. *)
Definition terminated (ls : list str) : str := concat (map (fun l => l ++ [NL]) ls).

(** The option name and indentation [_read] remembers after the
    options [rest]. *)
Definition after_options (rest : dict) (o : option str) (i : nat) : option str * nat :=
  fold_left (fun _ kv => (Some (fst kv), 0)) rest (o, i).

(** The sections being read are dictionaries of dictionaries with
    lower-case option names. *)
Definition reading_ok (ss : odict (odict (list str))) : bool :=
  unique_keys ss
  && forallb (fun s => unique_keys (snd s)
                       && forallb (fun o => str_eqb (optionxform (fst o)) (fst o)) (snd s))
             ss.

(** ** The STS request and what surrounds it *)

(** What the [except] clause of [main] makes of an exception of the
    STS call. *)
Definition handled (e : Exn) : Result Z :=
  match e with
  | ClientError code =>
      if str_eqb code (py "AccessDenied") then Ok USER_RECOVERABLE_ERROR else Raised e
  | _ => Raised e
  end.

(** What [find_mfa_for_user] logs: IAM calls and the warning. *)
Definition resolving (ev : Event) : bool :=
  match ev with
  | EvGetUser | EvCurrentUserMfaDevices | EvListMfaDevices _ | EvPrint _ _ => true
  | _ => false
  end.

(** What may follow the STS request in the log: neither a prompt nor a
    call to IAM or STS. *)
Definition after_request (ev : Event) : bool :=
  negb (is_sts_call ev) && negb (is_iam_call ev) && negb (is_getpass ev).

(** The serial number and the token code a request carries. *)
Definition request_serial (r : StsRequest) : str :=
  match r with
  | AssumeRole _ _ _ s _ => s
  | GetSessionToken _ s _ => s
  end.

Definition request_token (r : StsRequest) : str :=
  match r with
  | AssumeRole _ _ _ _ t => t
  | GetSessionToken _ _ t => t
  end.

(** ** Values interpolation leaves alone *)

(** No percent sign: nothing for interpolation to act on. *)
Definition plain (s : str) : bool := negb (contains "%"%char s).

Definition plain_credentials (c : Credentials) : bool :=
  plain (AccessKeyId c) && plain (SecretAccessKey c) && plain (SessionToken c).

End Props.

(* ================================================================== *)
(** * Sample inputs *)
(* ================================================================== *)

Module Examples.
Import configparser datetime Effects awsmfa Props.

Definition path : str := py "/home/op/.aws/credentials".

Definition line (s : string) : str := py s ++ [NL].

(** A credentials file with the long-lived identity and a stale
    default profile. *)
Definition credentials_text : str :=
  line "[identity]" ++ line "aws_access_key_id = AKIAIDENTITY"
  ++ line "aws_secret_access_key = longlived" ++ line "region = us-east-1"
  ++ line "" ++ line "[default]" ++ line "stale = yes" ++ line "".

Definition files : FS := fs_set path (Some credentials_text) (fun _ => None).

(** The parser state [read] builds from [credentials_text]. *)
Definition store : ConfigParser :=
  {| _defaults := [];
     _sections :=
       [(py "identity", [(py "aws_access_key_id", py "AKIAIDENTITY");
                         (py "aws_secret_access_key", py "longlived");
                         (py "region", py "us-east-1")]);
        (py "default", [(py "stale", py "yes")])] |}.

Definition expiration : datetime :=
  {| year := 2026; month := 11; day := 4; hour := 18; minute := 30; second := 0;
     microsecond := 0; utcoffset := 0 |}.

Definition clock : datetime :=
  {| year := 2026; month := 11; day := 4; hour := 12; minute := 30; second := 0;
     microsecond := 0; utcoffset := 0 |}.

Definition temporary : Credentials :=
  {| AccessKeyId := py "ASIATEMP"; SecretAccessKey := py "shortlived";
     SessionToken := py "token"; Expiration := expiration |}.

Definition standard_user : User :=
  {| Arn := py "arn:aws:iam::123456789012:user/alice"; UserName := py "alice" |}.

Definition root_user : User :=
  {| Arn := py "arn:aws:iam::123456789012:root"; UserName := [] |}.

Definition device (serial : string) : MFADevice := {| SerialNumber := py serial |}.

Definition two_devices : list MFADevice :=
  [device "arn:aws:iam::123456789012:mfa/first";
   device "arn:aws:iam::123456789012:mfa/second"].

(** IAM and STS as seen by [user], who has [devices]; STS answers
    every request with [answer]. *)
Definition service (user : User) (devices : list MFADevice)
    (answer : Result Credentials) : Services :=
  {| profile_found := fun _ => true;
     get_user := Ok user;
     current_user_mfa_devices := Ok devices;
     list_mfa_devices := fun _ =>
       Ok {| MFADevices := devices;
             other_keys := [py "IsTruncated"; py "ResponseMetadata"] |};
     sts := fun _ => answer;
     now := clock |}.

Definition arguments (role serial : option str) (target : str) : Args :=
  {| version := false; role_to_assume := role; aws_credentials := path;
     duration := SIX_HOURS_IN_SECONDS; identity_profile := py "identity";
     serial_number := serial; target_profile := target;
     role_session_name := py "awsmfa_20261104T123000";
     token_code := Some (py "123456") |}.

(** A credentials file whose identity profile uses interpolation:
    [note] refers to the empty [pad]. *)
Definition interpolated_text : str :=
  line "[identity]" ++ line "aws_access_key_id = AKIAIDENTITY" ++ line "pad ="
  ++ line "note = %(pad)s x" ++ line "" ++ line "[default]" ++ line "stale = yes"
  ++ line "".

(** The target profile after a rotation over [interpolated_text], in
    memory and as the written file is read back. *)
Definition rotated_in_memory : dict :=
  [(py "aws_access_key_id", py "ASIATEMP"); (py "pad", []); (py "note", py " x");
   (py "aws_secret_access_key", py "shortlived"); (py "aws_session_token", py "token");
   (py "awsmfa_expiration", py "2026-11-04T18:30:00+00:00")].

Definition rotated_read_back : dict :=
  [(py "aws_access_key_id", py "ASIATEMP"); (py "pad", []); (py "note", py "x");
   (py "aws_secret_access_key", py "shortlived"); (py "aws_session_token", py "token");
   (py "awsmfa_expiration", py "2026-11-04T18:30:00+00:00")].

Definition role : str := py "arn:aws:iam::123456789012:role/admin".
Definition serial : str := py "arn:aws:iam::123456789012:mfa/alice".
Definition VERSION : str := py "1.0".

(** Alice with one MFA device; STS grants every request. *)
Definition granting : Services :=
  service standard_user [device "arn:aws:iam::123456789012:mfa/alice"] (Ok temporary).

(** The same, with STS denying every request. *)
Definition denying : Services :=
  service standard_user [device "arn:aws:iam::123456789012:mfa/alice"]
          (Raised (ClientError (py "AccessDenied"))).

(** IAM denies [get_user] and the listing. *)
Definition iam_denying : Services :=
  {| profile_found := fun _ => true;
     get_user := Raised (ClientError (py "AccessDenied"));
     current_user_mfa_devices := Ok [];
     list_mfa_devices := fun _ => Raised (ClientError (py "AccessDenied"));
     sts := fun _ => Ok temporary;
     now := clock |}.

(** Serial and token code on the command line, target [default]. *)
Definition explicit : Args := arguments None (Some serial) (py "default").

(** The request [explicit] leads to. *)
Definition explicit_request : StsRequest :=
  GetSessionToken SIX_HOURS_IN_SECONDS serial (py "123456").

(** [store] after a rotation into [default]. *)
Definition rotated : ConfigParser :=
  {| _defaults := [];
     _sections :=
       [(py "identity", [(py "aws_access_key_id", py "AKIAIDENTITY");
                         (py "aws_secret_access_key", py "longlived");
                         (py "region", py "us-east-1")]);
        (py "default", [(py "aws_access_key_id", py "ASIATEMP");
                        (py "aws_secret_access_key", py "shortlived");
                        (py "region", py "us-east-1");
                        (py "aws_session_token", py "token");
                        (py "awsmfa_expiration", py "2026-11-04T18:30:00+00:00")])] |}.

(** [store] after a rotation into the profile with the empty name. *)
Definition rotated_into_defaults : ConfigParser :=
  {| _defaults := [(py "aws_access_key_id", py "ASIATEMP");
                   (py "aws_secret_access_key", py "shortlived");
                   (py "region", py "us-east-1");
                   (py "aws_session_token", py "token");
                   (py "awsmfa_expiration", py "2026-11-04T18:30:00+00:00")];
     _sections :=
       [(py "identity", [(py "aws_access_key_id", py "AKIAIDENTITY");
                         (py "aws_secret_access_key", py "longlived");
                         (py "region", py "us-east-1")]);
        (py "default", [(py "stale", py "yes")]);
        ([], [])] |}.

(** What an operator types before getting the code right. *)
Definition typed_lines : list str :=
  [py "12345"; py "1234567"; py "123456"; py "654321"].

End Examples.

(* ================================================================== *)
(** * Tactics *)
(* ================================================================== *)

Module Tactics.
Import Effects.

(** Splits a hypothesis [In ev l] over a log built by appending and
    closes the cases that are absurd. *)
Ltac in_log H :=
  rewrite ?in_app_iff in H; simpl in H;
  repeat match type of H with _ \/ _ => destruct H as [H|H] end;
  try contradiction; try discriminate.

(** Closes the two kinds of goals the runs of [persist] leave: a log
    built by appending, and a file system obtained by replaying it. *)
Ltac log_and_replay :=
  solve [ rewrite <- !app_assoc; simpl; rewrite <- ?app_assoc; reflexivity
        | unfold replay; simpl; rewrite ?fold_left_app; simpl; reflexivity ].

End Tactics.
Export Tactics.

(* ================================================================== *)
(** * Facts about text and dictionaries *)
(* ================================================================== *)

Module TextFacts.

Lemma str_eqb_refl (a : str) : str_eqb a a = true.
Proof.
  induction a as [|c a IH]; simpl; [reflexivity|].
  now rewrite Ascii.eqb_refl.
Qed.

Lemma str_eqb_eq (a b : str) : str_eqb a b = true <-> a = b.
Proof.
  split.
  - revert b; induction a as [|c a IH]; intros [|d b]; simpl; try discriminate; auto.
    intros H. apply andb_true_iff in H as [Hc Hr].
    apply Ascii.eqb_eq in Hc. f_equal; auto.
  - intros ->. apply str_eqb_refl.
Qed.

Lemma str_eqb_neq (a b : str) : str_eqb a b = false <-> a <> b.
Proof.
  split.
  - intros H E. apply str_eqb_eq in E. congruence.
  - intros H. destruct (str_eqb a b) eqn:E; [|reflexivity].
    apply str_eqb_eq in E. contradiction.
Qed.

Lemma str_eqb_sym (a b : str) : str_eqb a b = str_eqb b a.
Proof.
  destruct (str_eqb a b) eqn:E.
  - apply str_eqb_eq in E. subst. symmetry. apply str_eqb_refl.
  - symmetry. apply str_eqb_neq. apply str_eqb_neq in E. congruence.
Qed.

Lemma contains_app c (a b : str) : contains c (a ++ b) = contains c a || contains c b.
Proof. unfold contains. apply existsb_app. Qed.

End TextFacts.
Export TextFacts.

Module DictFacts.
Import configparser Props.

Section Dict.
Context {V : Type}.
Implicit Types (d : odict V) (k : str) (v : V).

Lemma dict_get_set_same k v d : dict_get k (dict_set k v d) = Some v.
Proof.
  induction d as [|[k' v'] d IH]; simpl.
  - now rewrite str_eqb_refl.
  - destruct (str_eqb k k') eqn:E; simpl; rewrite E; auto.
Qed.

Lemma dict_get_set_other k k' v d :
  k' <> k -> dict_get k' (dict_set k v d) = dict_get k' d.
Proof.
  intros Hne. induction d as [|[k2 v2] d IH]; simpl.
  - apply str_eqb_neq in Hne. now rewrite Hne.
  - destruct (str_eqb k k2) eqn:E; simpl.
    + apply str_eqb_eq in E. subst k2.
      apply str_eqb_neq in Hne. now rewrite Hne.
    + now rewrite IH.
Qed.

Lemma dict_get_del_same k d : dict_get k (dict_del k d) = None.
Proof.
  induction d as [|[k' v'] d IH]; simpl; auto.
  destruct (str_eqb k k') eqn:E; simpl; [|rewrite E]; auto.
Qed.

Lemma dict_get_del_other k k' d :
  k' <> k -> dict_get k' (dict_del k d) = dict_get k' d.
Proof.
  intros Hne. induction d as [|[k2 v2] d IH]; simpl; auto.
  destruct (str_eqb k k2) eqn:E; simpl.
  - apply str_eqb_eq in E. subst k2.
    apply str_eqb_neq in Hne. now rewrite Hne.
  - now rewrite IH.
Qed.

Lemma dict_get_app k d e :
  dict_get k (d ++ e) = match dict_get k d with Some v => Some v | None => dict_get k e end.
Proof.
  induction d as [|[k' v'] d IH]; simpl; auto.
  destruct (str_eqb k k'); auto.
Qed.

Lemma dict_mem_app k d e : dict_mem k (d ++ e) = dict_mem k d || dict_mem k e.
Proof.
  unfold dict_mem. rewrite dict_get_app. destruct (dict_get k d); reflexivity.
Qed.

(** Setting a key that is absent appends it. *)
Lemma dict_set_fresh k v d : dict_mem k d = false -> dict_set k v d = d ++ [(k, v)].
Proof.
  unfold dict_mem. induction d as [|[k' v'] d IH]; simpl; auto.
  destruct (str_eqb k k'); [discriminate|]. intros H. now rewrite IH.
Qed.

(** Setting the last key of a dictionary without repetition replaces
    its value in place. *)
Lemma dict_set_last k v v' d :
  dict_mem k d = false -> dict_set k v' (d ++ [(k, v)]) = d ++ [(k, v')].
Proof.
  unfold dict_mem. induction d as [|[k2 v2] d IH]; simpl.
  - now rewrite str_eqb_refl.
  - destruct (str_eqb k k2); [discriminate|]. intros H. now rewrite IH.
Qed.

Lemma dict_get_last k v d : dict_mem k d = false -> dict_get k (d ++ [(k, v)]) = Some v.
Proof.
  unfold dict_mem. intros H. rewrite dict_get_app.
  destruct (dict_get k d); [discriminate|]. simpl. now rewrite str_eqb_refl.
Qed.

Lemma dict_set_keys_mem k v d :
  dict_mem k d = true -> map fst (dict_set k v d) = map fst d.
Proof.
  unfold dict_mem. induction d as [|[k2 v2] d IH]; simpl; [discriminate|].
  destruct (str_eqb k k2) eqn:E; simpl; auto.
  intros H. now rewrite IH.
Qed.

Lemma dict_mem_set k k' v d :
  dict_mem k' (dict_set k v d) = str_eqb k' k || dict_mem k' d.
Proof.
  unfold dict_mem. destruct (str_eqb k' k) eqn:E.
  - apply str_eqb_eq in E. subst. now rewrite dict_get_set_same.
  - apply str_eqb_neq in E. now rewrite dict_get_set_other.
Qed.

Lemma unique_keys_set k v d : unique_keys d = true -> unique_keys (dict_set k v d) = true.
Proof.
  induction d as [|[k2 v2] d IH]; simpl; auto.
  intros H. apply andb_true_iff in H as [H1 H2].
  destruct (str_eqb k k2) eqn:E; simpl.
  - now rewrite H1, H2.
  - rewrite IH by assumption. rewrite dict_mem_set.
    rewrite str_eqb_sym, E. simpl. now rewrite H1.
Qed.

Lemma filter_dict_set k v (ss : odict V) :
  filter (fun s => negb (str_eqb k (fst s))) (dict_set k v ss)
  = filter (fun s => negb (str_eqb k (fst s))) ss.
Proof.
  induction ss as [|[k2 v2] ss IH]; simpl.
  - now rewrite str_eqb_refl.
  - destruct (str_eqb k k2) eqn:E; simpl; rewrite E; simpl; now rewrite ?IH.
Qed.

Lemma filter_dict_del k (ss : odict V) :
  filter (fun s => negb (str_eqb k (fst s))) (dict_del k ss)
  = filter (fun s => negb (str_eqb k (fst s))) ss.
Proof.
  induction ss as [|[k2 v2] ss IH]; simpl; auto.
  destruct (str_eqb k k2) eqn:E; simpl; [|rewrite E; simpl]; now rewrite ?IH.
Qed.

End Dict.

End DictFacts.
Export DictFacts.

(* ================================================================== *)
(** * Facts about runs *)
(* ================================================================== *)

Module RunFacts.
Import configparser datetime Effects awsmfa Props.
Local Open Scope monad_scope.

Lemma only_logs_ret P A (a : A) : only_logs P (ret a).
Proof. intros w. simpl. repeat split. exists []. now rewrite app_nil_r. Qed.

Lemma only_logs_lift P A (r : Result A) : only_logs P (lift r).
Proof. intros w. simpl. repeat split. exists []. now rewrite app_nil_r. Qed.

Lemma only_logs_raise P A e : only_logs P (@raise A e).
Proof. intros w. simpl. repeat split. exists []. now rewrite app_nil_r. Qed.

Lemma only_logs_emit (P : Event -> bool) ev : P ev = true -> only_logs P (emit ev).
Proof. intros H w. simpl. repeat split. exists [ev]. simpl. now rewrite H. Qed.

Lemma only_logs_bind P A B (m : M A) (k : A -> M B) :
  only_logs P m -> (forall a, only_logs P (k a)) -> only_logs P (bind m k).
Proof.
  intros Hm Hk w. unfold bind.
  destruct (Hm w) as (F1 & F2 & evs & L1 & P1).
  destruct (m w) as [[a|e] w1]; simpl in *.
  - destruct (Hk a w1) as (G1 & G2 & evs2 & L2 & P2).
    rewrite G1, G2, L2, L1, F1, F2. repeat split.
    exists (evs ++ evs2). rewrite app_assoc. split; auto.
    rewrite forallb_app. now rewrite P1, P2.
  - repeat split; auto. exists evs. auto.
Qed.

Lemma only_logs_call (P : Event -> bool) A ev (r : Result A) :
  P ev = true -> only_logs P (call ev r).
Proof.
  intros H. unfold call. apply only_logs_bind.
  - now apply only_logs_emit.
  - intros _. apply only_logs_lift.
Qed.

Lemma only_logs_find_mfa svc serial :
  only_logs (fun ev => negb (is_sts_call ev) && negb (is_file_op ev))
            (find_mfa_for_user svc serial).
Proof.
  unfold find_mfa_for_user.
  destruct (truthy serial); [apply only_logs_ret|].
  apply only_logs_bind; [now apply only_logs_call|]. intros user.
  apply only_logs_bind.
  - destruct (endswith _ _).
    + apply only_logs_bind; [now apply only_logs_call|]. intros; apply only_logs_ret.
    + apply only_logs_bind; [now apply only_logs_call|]. intros; apply only_logs_ret.
  - intros [devices serials]. simpl. destruct serials as [|first rest]; [apply only_logs_ret|].
    apply only_logs_bind; [|intros; apply only_logs_ret].
    destruct (1 <? _); [|apply only_logs_ret].
    apply only_logs_bind; [apply only_logs_lift|]. intros n.
    now apply only_logs_emit.
Qed.

Lemma only_logs_weaken (P Q : Event -> bool) A (m : M A) :
  (forall ev, P ev = true -> Q ev = true) -> only_logs P m -> only_logs Q m.
Proof.
  intros HPQ Hm w. destruct (Hm w) as (F1 & F2 & evs & L & HP).
  repeat split; auto. exists evs. split; auto.
  rewrite forallb_forall in *. auto.
Qed.

Lemma only_logs_getpass prompt : only_logs is_getpass (getpass prompt).
Proof.
  intros w. unfold getpass. destruct (stdin w); simpl; repeat split;
    exists [EvGetpass prompt]; auto.
Qed.

Lemma only_logs_ask_token_code fuel : only_logs is_getpass (ask_token_code fuel).
Proof.
  induction fuel as [|fuel IH]; simpl.
  - apply only_logs_getpass.
  - apply only_logs_bind; [apply only_logs_getpass|].
    intros code. destruct (_ =? 6); [apply only_logs_ret|apply IH].
Qed.

Lemma only_logs_prompt_token_code : only_logs is_getpass prompt_token_code.
Proof. intros w. unfold prompt_token_code. apply only_logs_ask_token_code. Qed.

(** The prompt loop does not depend on the fuel it is given beyond the
    number of lines that will be typed. *)
Lemma ask_token_code_fuel fuel : forall w,
  length (stdin w) <= fuel ->
  ask_token_code fuel w = ask_token_code (length (stdin w)) w.
Proof.
  induction fuel as [|fuel IH]; intros w H.
  - replace (length (stdin w)) with 0 by lia. reflexivity.
  - destruct w as [f input fl lg]. simpl in *. destruct input as [|l ls]; simpl.
    + reflexivity.
    + unfold bind, getpass. simpl. destruct (length l =? 6); [reflexivity|].
      simpl in H. rewrite IH by (simpl; lia). reflexivity.
Qed.

Lemma only_files_ret A (a : A) : only_files (ret a).
Proof. intros w. exists []. simpl. now rewrite app_nil_r. Qed.

Lemma only_files_lift A (r : Result A) : only_files (lift r).
Proof. intros w. exists []. simpl. now rewrite app_nil_r. Qed.

Lemma replay_app evs1 evs2 f : replay (evs1 ++ evs2) f = replay evs2 (replay evs1 f).
Proof. unfold replay. apply fold_left_app. Qed.

Lemma only_files_bind A B (m : M A) (k : A -> M B) :
  only_files m -> (forall a, only_files (k a)) -> only_files (bind m k).
Proof.
  intros Hm Hk w. unfold bind.
  destruct (Hm w) as (evs & L1 & P1 & F1).
  destruct (m w) as [[a|e] w1]; simpl in *.
  - destruct (Hk a w1) as (evs2 & L2 & P2 & F2).
    exists (evs ++ evs2). rewrite L2, L1, app_assoc, forallb_app, P1, P2, F2, F1.
    now rewrite replay_app.
  - exists evs. auto.
Qed.

Lemma only_files_file_op ev : is_file_op ev = true -> only_files (file_op ev).
Proof.
  intros H w. unfold file_op. destruct (faults w) as [|[|] fl]; simpl.
  - exists [ev]. simpl. now rewrite H.
  - exists []. simpl. now rewrite app_nil_r.
  - exists [ev]. simpl. now rewrite H.
Qed.

Lemma only_files_try_finally A (m : M A) (c : M unit) :
  only_files m -> only_files c -> only_files (try_finally m c).
Proof.
  intros Hm Hc w. unfold try_finally.
  destruct (Hm w) as (evs & L1 & P1 & F1).
  destruct (m w) as [[a|e] w1]; simpl in *;
    destruct (Hc w1) as (evs2 & L2 & P2 & F2);
    destruct (c w1) as [[[]|e'] w2]; simpl in *;
    exists (evs ++ evs2); rewrite L2, L1, app_assoc, forallb_app, P1, P2, F2, F1;
    now rewrite replay_app.
Qed.

Lemma only_files_write_all path chunks : only_files (write_all path chunks).
Proof.
  induction chunks as [|c chunks IH]; simpl.
  - apply only_files_ret.
  - apply only_files_bind; [now apply only_files_file_op|]. intros _. apply IH.
Qed.

Lemma only_files_persist args cfg : only_files (persist args cfg).
Proof.
  unfold persist.
  apply only_files_bind; [now apply only_files_file_op|]. intros _.
  apply only_files_bind.
  - apply only_files_try_finally; [apply only_files_write_all|now apply only_files_file_op].
  - intros _. now apply only_files_file_op.
Qed.

Lemma only_files_update args cfg creds : only_files (update_credentials_file args cfg creds).
Proof.
  unfold update_credentials_file.
  apply only_files_bind; [apply only_files_lift|]. intros c.
  apply only_files_bind; [apply only_files_persist|]. intros _. apply only_files_ret.
Qed.

Lemma forallb_In_false (P : Event -> bool) evs ev :
  forallb P evs = true -> P ev = false -> ~ In ev evs.
Proof.
  intros H Hf Hin. rewrite forallb_forall in H. apply H in Hin. congruence.
Qed.

(** The outcome of [main] around its STS call: the only STS request a
    run logs is the one built from the arguments, and when the service
    answers it with an exception the run ends as the handler says,
    with the files as they were. *)
Lemma main_sts VERSION svc args w req r w' :
  main VERSION svc args w = (r, w') ->
  ~ In (EvSts req) (log w) ->
  In (EvSts req) (log w') ->
  (exists serial token, req = sts_request args serial token)
  /\ forall e, sts svc req = Raised e ->
       fs w' = fs w
       /\ r = match e with
              | ClientError code =>
                  if str_eqb code (py "AccessDenied")
                  then Ok USER_RECOVERABLE_ERROR else Raised e
              | _ => Raised e
              end.
Proof.
  intros Hrun Hfresh. unfold main in Hrun.
  destruct (version args).
  { inversion Hrun; subst. simpl. rewrite in_app_iff. simpl. intuition discriminate. }
  unfold bind at 1 in Hrun. simpl in Hrun.
  unfold bind at 1 in Hrun. unfold lift at 1 in Hrun.
  destruct (read _) as [credentials|e0]; [|inversion Hrun; subst; contradiction].
  destruct (profile_found svc _); simpl in Hrun.
  2:{ inversion Hrun; subst. simpl. rewrite !in_app_iff. simpl. intuition discriminate. }
  unfold bind at 1 in Hrun.
  destruct (only_logs_find_mfa svc (serial_number args) w) as (F1 & _ & evs1 & L1 & P1).
  destruct (find_mfa_for_user svc (serial_number args) w) as [[serial|e1] w1]; simpl in *.
  2:{ inversion Hrun; subst. rewrite L1, in_app_iff. intros [H|H]; [contradiction|].
      exfalso. revert H. now apply forallb_In_false with (P := harmless). }
  assert (Hpre : ~ In (EvSts req) (log w1)).
  { rewrite L1, in_app_iff. intros [H|H]; [contradiction|].
    revert H. now apply forallb_In_false with (P := harmless). }
  destruct serial as [[|c serial]|].
  1,3: inversion Hrun; subst; simpl; rewrite in_app_iff; simpl; intuition discriminate.
  unfold bind at 1 in Hrun.
  assert (Htok : exists r2 w2, (match token_code args with
                     | Some code => ret code | None => prompt_token_code end) w1 = (r2, w2)
                   /\ fs w2 = fs w1 /\ ~ In (EvSts req) (log w2)).
  { destruct (token_code args) as [code|].
    - exists (Ok code), w1. auto.
    - destruct (only_logs_prompt_token_code w1) as (F2 & _ & evs2 & L2 & P2).
      destruct (prompt_token_code w1) as [r2 w2]. exists r2, w2. simpl in *.
      repeat split; auto. rewrite L2, in_app_iff. intros [H|H]; [contradiction|].
      revert H. now apply forallb_In_false with (P := is_getpass). }
  destruct Htok as (r2 & w2 & Htok & F2 & Hpre2). rewrite Htok in Hrun. clear Htok.
  destruct r2 as [token|e2]; [|inversion Hrun; subst; contradiction].
  unfold bind at 1 in Hrun. unfold try_except, call, bind, emit, lift in Hrun.
  simpl in Hrun.
  destruct (sts svc (sts_request args (c :: serial) token)) as [resp|e] eqn:Hsts.
  - simpl in Hrun.
    match type of Hrun with context [update_credentials_file ?a ?b ?c ?w] =>
      destruct (only_files_update a b c w) as (evs3 & L3 & P3 & _);
      destruct (update_credentials_file a b c w) as [r3 w3] end.
    simpl in *. intros Hin.
    assert (Hreq : req = sts_request args (c :: serial) token).
    { assert (In (EvSts req) (log w3)) by (destruct r3; inversion Hrun; subst; exact Hin).
      rewrite L3 in H. rewrite !in_app_iff in H. simpl in H.
      destruct H as [[[H|[H|[]]]|[H|[]]]|H]; try contradiction; try discriminate.
      - now inversion H.
      - exfalso. revert H. now apply forallb_In_false with (P := is_file_op). }
    subst req. split; [eauto|]. intros e He. congruence.
  - assert (Hcase : forall l, l = log w2 ++ [EvSts (sts_request args (c :: serial) token)] \/
                 l = (log w2 ++ [EvSts (sts_request args (c :: serial) token)]) ++ [EvPrintExn stderr e] ->
              In (EvSts req) l -> req = sts_request args (c :: serial) token).
    { intros l [L|L] Hin; rewrite L in Hin; rewrite !in_app_iff in Hin; simpl in Hin;
        intuition (try discriminate; try congruence). }
    destruct e; simpl in Hrun;
      try (inversion Hrun; subst; simpl; intros Hin; apply Hcase in Hin; [|auto]; subst req;
           split; [eauto|]; intros e' He'; rewrite Hsts in He'; inversion He'; subst;
           split; [congruence|reflexivity]).
    destruct (str_eqb code (py "AccessDenied")) eqn:Hcode; simpl in Hrun;
      inversion Hrun; subst; simpl;
      intros Hin; apply Hcase in Hin; auto; subst req;
      (split; [eauto|]); intros e' He'; rewrite Hsts in He'; inversion He'; subst;
      rewrite Hcode; split; congruence.
Qed.

Lemma run_eq {A} (m : M A) (w : World) : m w = (fst (m w), snd (m w)).
Proof. now destruct (m w). Qed.

(** An IAM call logged by a run of [main] was made by
    [find_mfa_for_user], and when that returns [None] the run ends with
    the recoverable status, the files untouched and no STS call. *)
Lemma main_iam VERSION svc args w ev r w' :
  main VERSION svc args w = (r, w') ->
  is_iam_call ev = true ->
  ~ In ev (log w) ->
  In ev (log w') ->
  In ev (log (snd (find_mfa_for_user svc (serial_number args) w)))
  /\ (fst (find_mfa_for_user svc (serial_number args) w) = Ok None ->
      r = Ok USER_RECOVERABLE_ERROR /\ fs w' = fs w
      /\ forall req, In (EvSts req) (log w') -> In (EvSts req) (log w)).
Proof.
  intros Hrun Hev Hfresh. unfold main in Hrun.
  destruct (version args).
  { inversion Hrun; subst. simpl. rewrite in_app_iff. simpl.
    intros [H|[H|[]]]; [contradiction|]. subst ev. discriminate. }
  unfold bind at 1 in Hrun. simpl in Hrun.
  unfold bind at 1 in Hrun. unfold lift at 1 in Hrun.
  destruct (read _) as [credentials|e0]; [|inversion Hrun; subst; contradiction].
  destruct (profile_found svc _); simpl in Hrun.
  2:{ inversion Hrun; subst. simpl. rewrite !in_app_iff. simpl.
      intros [[H|[H|[]]]|[H|[]]]; try contradiction; subst ev; discriminate. }
  unfold bind at 1 in Hrun.
  destruct (only_logs_find_mfa svc (serial_number args) w) as (F1 & _ & evs1 & L1 & P1).
  destruct (find_mfa_for_user svc (serial_number args) w) as [[serial|e1] w1]; simpl in *.
  2:{ inversion Hrun; subst. intros H. split; [exact H|discriminate]. }
  destruct serial as [[|c serial]|].
  1,3: inversion Hrun; subst; simpl; rewrite in_app_iff; simpl;
       (intros [H|[H|[]]]; [|subst ev; discriminate]); (split; [exact H|]);
       try discriminate.
  { intros _. repeat split; auto. intros req. rewrite L1, !in_app_iff. simpl.
    intros [[H'|H']|[H'|[]]]; auto; try discriminate.
    exfalso. revert H'. now apply forallb_In_false with (P := harmless). }
  intros Hin. split; [|discriminate].
  unfold bind at 1 in Hrun.
  assert (Htok : exists r2 w2 evs2, (match token_code args with
                     | Some code => ret code | None => prompt_token_code end) w1 = (r2, w2)
                   /\ log w2 = log w1 ++ evs2 /\ forallb is_getpass evs2 = true).
  { destruct (token_code args) as [code|].
    - exists (Ok code), w1, []. now rewrite app_nil_r.
    - destruct (only_logs_prompt_token_code w1) as (F2 & _ & evs2 & L2 & P2).
      destruct (prompt_token_code w1) as [r2 w2]. exists r2, w2, evs2. auto. }
  destruct Htok as (r2 & w2 & evs2 & Htok & L2 & P2). rewrite Htok in Hrun. clear Htok.
  assert (Hstep : In ev (log w2) -> In ev (log w1)).
  { rewrite L2, in_app_iff. intros [H|H]; [exact H|].
    exfalso. revert H. apply forallb_In_false with (P := is_getpass); auto.
    destruct ev; simpl in *; congruence. }
  destruct r2 as [token|e2]; [|inversion Hrun; subst; auto].
  unfold bind at 1 in Hrun. unfold try_except, call, bind, emit, lift in Hrun.
  simpl in Hrun. apply Hstep.
  destruct (sts svc (sts_request args (c :: serial) token)) as [resp|e] eqn:Hsts.
  - simpl in Hrun.
    match type of Hrun with context [update_credentials_file ?a ?b ?c ?w] =>
      destruct (only_files_update a b c w) as (evs3 & L3 & P3 & _);
      destruct (update_credentials_file a b c w) as [r3 w3] end.
    simpl in *.
    assert (H : In ev (log w3)) by (destruct r3; inversion Hrun; subst; exact Hin).
    rewrite L3 in H. rewrite !in_app_iff in H. simpl in H.
    destruct H as [[[H|[H|[]]]|[H|[]]]|H]; auto; try (subst ev; discriminate).
    exfalso. revert H. apply forallb_In_false with (P := is_file_op); auto.
    destruct ev; simpl in *; congruence.
  - assert (Hcase : forall l, l = log w2 ++ [EvSts (sts_request args (c :: serial) token)] \/
                 l = (log w2 ++ [EvSts (sts_request args (c :: serial) token)]) ++ [EvPrintExn stderr e] ->
              In ev l -> In ev (log w2)).
    { intros l [L|L] H; rewrite L in H; rewrite !in_app_iff in H; simpl in H;
        intuition (subst ev; discriminate). }
    destruct e; simpl in Hrun;
      try (inversion Hrun; subst; simpl in Hin; apply Hcase in Hin; auto).
    destruct (str_eqb code _) eqn:Hcode; simpl in Hrun;
      inversion Hrun; subst; simpl in Hin; apply Hcase in Hin; auto.
Qed.

(** When the listing that [find_mfa_for_user] called answered with no
    device, it returns [None]. *)
Lemma find_mfa_empty_listing svc serial w :
  let run := find_mfa_for_user svc serial w in
  (In EvCurrentUserMfaDevices (log (snd run))
   /\ ~ In EvCurrentUserMfaDevices (log w)
   /\ current_user_mfa_devices svc = Ok [])
  \/ (exists u r, In (EvListMfaDevices u) (log (snd run))
                  /\ ~ In (EvListMfaDevices u) (log w)
                  /\ list_mfa_devices svc u = Ok r /\ MFADevices r = []) ->
  fst run = Ok None.
Proof.
  unfold find_mfa_for_user.
  destruct (truthy serial).
  { simpl. intros [(H & Hn & _)|(u & r & H & Hn & _)]; contradiction. }
  unfold call, bind, emit, lift, ret, print, emit. simpl.
  destruct (get_user svc) as [user|e]; simpl.
  2:{ intros [(H & Hn & _)|(u & r & H & Hn & _)]; in_log H. }
  destruct (endswith (py ":root") (Arn user)); simpl.
  - destruct (current_user_mfa_devices svc) as [[|d1 [|d2 ds]]|e]; simpl;
      intros [(H & Hn & Hc)|(u & r & H & Hn & _)]; try discriminate; try reflexivity;
      in_log H.
  - destruct (list_mfa_devices svc (UserName user)) as [[[|d1 [|d2 ds]] keys]|e] eqn:Hl;
      simpl;
      intros [(H & Hn & Hc)|(u & r & H & Hn & Hr & Hd)]; try reflexivity;
      in_log H; inversion H; subst u; rewrite Hl in Hr; inversion Hr; subst r;
      discriminate.
Qed.

(** With more than one device the root user gets no serial: [len] of
    the resource collection raises [TypeError]. *)
Lemma root_many_devices_raises svc serial w user d1 d2 ds :
  truthy serial = false ->
  get_user svc = Ok user ->
  endswith (py ":root") (Arn user) = true ->
  current_user_mfa_devices svc = Ok (d1 :: d2 :: ds) ->
  fst (find_mfa_for_user svc serial w) = Raised TypeError.
Proof.
  intros Hs Hu Hr Hd. unfold find_mfa_for_user. rewrite Hs.
  unfold call, bind, emit, lift, ret. simpl. rewrite Hu. simpl. rewrite Hr. simpl.
  rewrite Hd. reflexivity.
Qed.

(** With more than one device a standard user gets the first serial,
    and the warning counts the keys of the response, not the devices. *)
Lemma standard_many_devices_warning svc serial w user d1 d2 ds keys :
  truthy serial = false ->
  get_user svc = Ok user ->
  endswith (py ":root") (Arn user) = false ->
  list_mfa_devices svc (UserName user)
    = Ok {| MFADevices := d1 :: d2 :: ds; other_keys := keys |} ->
  fst (find_mfa_for_user svc serial w) = Ok (Some (SerialNumber d1))
  /\ log (snd (find_mfa_for_user svc serial w))
     = log w ++ [EvGetUser; EvListMfaDevices (UserName user);
                 EvPrint stderr (py "Warning: user has "
                                 ++ str_of_nat (S (length keys))
                                 ++ py " MFA devices. Using the first.")].
Proof.
  intros Hs Hu Hr Hd. unfold find_mfa_for_user. rewrite Hs.
  unfold call, bind, emit, lift, ret, print, emit. simpl. rewrite Hu. simpl.
  rewrite Hr. simpl. rewrite Hd. simpl. split; [reflexivity|].
  now rewrite <- !app_assoc.
Qed.

End RunFacts.
Export RunFacts.

(* ================================================================== *)
(** * Facts about the store and its file *)
(* ================================================================== *)

Module StoreFacts.
Import configparser datetime Effects awsmfa Props.
Local Open Scope monad_scope.

(** ** Interpolation of values without a percent sign *)

Lemma interpolate_loop_plain again map rest :
  contains "%"%char rest = false -> interpolate_loop again map 0 rest = Ok rest.
Proof.
  induction rest as [|c rest IH]; simpl; [reflexivity|].
  destruct (Ascii.eqb c "%"%char); simpl; [discriminate|].
  intros H. now rewrite IH.
Qed.

Lemma before_get_plain value d : contains "%"%char value = false -> before_get value d = Ok value.
Proof. intros H. unfold before_get. simpl. now apply interpolate_loop_plain. Qed.

(** ** [items] *)

Lemma get_all_keys d keys kvs : get_all d keys = Ok kvs -> map fst kvs = map fst keys.
Proof.
  revert kvs. induction keys as [|[k v] keys IH]; simpl; intros kvs H.
  - now inversion H.
  - destruct (before_get v d); [|discriminate]. simpl in H.
    destruct (get_all d keys) as [rest|]; [|discriminate]. simpl in H.
    inversion H; subst. simpl. f_equal. now apply IH.
Qed.

Lemma get_all_plain d keys kvs k v :
  get_all d keys = Ok kvs -> dict_get k keys = Some v ->
  contains "%"%char v = false -> dict_get k kvs = Some v.
Proof.
  revert kvs. induction keys as [|[k' v'] keys IH]; simpl; intros kvs H Hk Hv; [discriminate|].
  destruct (before_get v' d) as [x|] eqn:Hb; [|discriminate]. simpl in H.
  destruct (get_all d keys) as [rest|]; [|discriminate]. simpl in H.
  inversion H; subst. simpl. destruct (str_eqb k k').
  - inversion Hk; subst. rewrite before_get_plain in Hb by assumption. congruence.
  - now apply IH.
Qed.

Lemma unique_keys_app_fresh {V} (d : odict V) k v :
  unique_keys d = true -> dict_mem k d = false -> unique_keys (d ++ [(k, v)]) = true.
Proof.
  induction d as [|[k' v'] d IH]; simpl; auto.
  intros H Hk. apply andb_true_iff in H as [H1 H2].
  unfold dict_mem in Hk. simpl in Hk.
  destruct (str_eqb k k') eqn:E; [discriminate|].
  rewrite IH; auto. rewrite dict_mem_app. apply negb_true_iff in H1. rewrite H1. simpl.
  unfold dict_mem. simpl. rewrite str_eqb_sym, E. reflexivity.
Qed.

(** Filling a dictionary from the items of another one, whose keys are
    distinct and new, appends them in order. *)
Lemma fold_dict_set_fresh {V} (f : str -> str) (e d : odict V) :
  unique_keys (d ++ e) = true ->
  (forall kv, In kv e -> f (fst kv) = fst kv) ->
  fold_left (fun acc kv => dict_set (f (fst kv)) (snd kv) acc) e d = d ++ e.
Proof.
  revert d. induction e as [|[k v] e IH]; intros d Hu Hf; simpl.
  - now rewrite app_nil_r.
  - pose proof (Hf (k, v) (or_introl eq_refl)) as Hfk. simpl in Hfk. rewrite Hfk.
    assert (Hk : dict_mem k d = false).
    { clear -Hu. induction d as [|[k' v'] d IH]; [reflexivity|].
      simpl in Hu. apply andb_true_iff in Hu as [H1 H2].
      unfold dict_mem. simpl. destruct (str_eqb k k') eqn:E.
      - apply str_eqb_eq in E. subst k'. rewrite dict_mem_app in H1.
        unfold dict_mem at 2 in H1. simpl in H1. rewrite str_eqb_refl in H1.
        rewrite orb_true_r in H1. discriminate.
      - apply IH. exact H2. }
    rewrite dict_set_fresh by assumption.
    rewrite IH.
    + now rewrite <- app_assoc.
    + now rewrite <- app_assoc.
    + intros kv Hin. apply Hf. now right.
Qed.

Lemma dict_update_empty (d : dict) : unique_keys d = true -> dict_update [] d = d.
Proof.
  intros H. unfold dict_update.
  apply (fold_dict_set_fresh (fun k => k) d []); auto.
Qed.

(** ** [set] on the section that was just added *)

Lemma set_last_section section option value defaults ss d cfg' :
  section <> [] ->
  dict_mem section ss = false ->
  set section option value {| _defaults := defaults; _sections := ss ++ [(section, d)] |}
    = Ok cfg' ->
  cfg' = {| _defaults := defaults;
            _sections := ss ++ [(section, dict_set (optionxform option) value d)] |}.
Proof.
  intros Hne Hfresh. unfold set.
  destruct (if nonempty value then before_set value else Ok value) as [v|] eqn:Hv;
    [|discriminate].
  assert (v = value).
  { destruct (nonempty value); [|congruence]. unfold before_set in Hv.
    destruct (contains _ _); congruence. }
  subst v. simpl.
  destruct section as [|c section]; [contradiction|]. simpl negb. cbv iota.
  simpl _sections. rewrite dict_get_last by assumption.
  rewrite dict_set_last by assumption. intros H. now inversion H.
Qed.

Lemma fold_set_last_section section kvs defaults ss d cfg' :
  section <> [] ->
  dict_mem section ss = false ->
  fold_left (fun acc kv => rbind acc (fun c => set section (fst kv) (snd kv) c)) kvs
            (Ok {| _defaults := defaults; _sections := ss ++ [(section, d)] |})
    = Ok cfg' ->
  cfg' = {| _defaults := defaults;
            _sections := ss ++ [(section,
                fold_left (fun acc kv => dict_set (optionxform (fst kv)) (snd kv) acc)
                          kvs d)] |}.
Proof.
  intros Hne Hfresh. revert d. induction kvs as [|[k v] kvs IH]; simpl; intros d H.
  - now inversion H.
  - destruct (set section k v _) as [c|e] eqn:Hs.
    + apply set_last_section in Hs; auto. subst c. now apply IH.
    + exfalso. clear -H. induction kvs as [|kv kvs IH]; simpl in H; [discriminate|auto].
Qed.

Lemma lowercase_keys_In d kv : lowercase_keys d = true -> In kv d -> optionxform (fst kv) = fst kv.
Proof.
  unfold lowercase_keys. rewrite forallb_forall. intros H Hin.
  apply str_eqb_eq. now apply H.
Qed.

Lemma well_formed_section cfg name d :
  well_formed cfg = true -> dict_get name (_sections cfg) = Some d ->
  unique_keys d = true /\ lowercase_keys d = true.
Proof.
  unfold well_formed. intros H. apply andb_true_iff in H as [_ H].
  rewrite forallb_forall in H. intros Hg.
  assert (In (name, d) (_sections cfg)).
  { revert Hg. generalize (_sections cfg). intros ss.
    induction ss as [|[n x] ss IH]; simpl; [discriminate|].
    destruct (str_eqb name n) eqn:E.
    - apply str_eqb_eq in E. subst. intros Hx. inversion Hx. now left.
    - intros Hx. right. auto. }
  apply H in H0. simpl in H0. now apply andb_true_iff in H0.
Qed.

Lemma unique_keys_same_keys {V W} (d : odict V) (e : odict W) :
  map fst d = map fst e -> unique_keys d = unique_keys e.
Proof.
  revert e. induction d as [|[k v] d IH]; intros [|[k' v'] e]; simpl; try discriminate; auto.
  intros H. inversion H; subst. rewrite (IH e) by assumption. f_equal. f_equal.
  clear -H2. unfold dict_mem. revert e H2.
  induction d as [|[a b] d IH]; intros [|[a' b'] e]; simpl; try discriminate; auto.
  intros H. inversion H; subst. destruct (str_eqb k' a'); auto.
Qed.

Lemma lowercase_keys_same_keys (d e : dict) :
  map fst d = map fst e -> lowercase_keys d = lowercase_keys e.
Proof.
  revert e. induction d as [|[k v] d IH]; intros [|[k' v'] e]; simpl; try discriminate; auto.
  intros H. inversion H; subst. now rewrite (IH e).
Qed.

(** What [updated_credentials] leaves in the parser when the target
    profile has a name of its own: the other sections in their order,
    then the target section, filled from the items of the identity
    profile and the four new fields. *)
Lemma updated_credentials_shape args cfg creds cfg' :
  target_profile args <> [] ->
  updated_credentials args cfg creds = Ok cfg' ->
  exists kvs,
    items (identity_profile args)
          {| _defaults := _defaults cfg;
             _sections := dict_del (target_profile args) (_sections cfg)
                          ++ [(target_profile args, [])] |} = Ok kvs
    /\ cfg' = {| _defaults := _defaults cfg;
                 _sections := dict_del (target_profile args) (_sections cfg)
                   ++ [(target_profile args,
                        with_temporary_credentials creds
                          (fold_left (fun acc kv => dict_set (optionxform (fst kv)) (snd kv) acc)
                                     kvs []))] |}.
Proof.
  intros Hne. unfold updated_credentials, add_section, has_section, remove_section.
  simpl _sections. unfold dict_mem at 1. rewrite dict_get_del_same. simpl _defaults.
  cbv beta iota. unfold rbind at 1.
  assert (Hfresh : dict_mem (target_profile args) (dict_del (target_profile args) (_sections cfg)) = false).
  { unfold dict_mem. now rewrite dict_get_del_same. }
  destruct (items _ _) as [kvs|] eqn:Hitems; [|discriminate]. unfold rbind at 1.
  intros H. exists kvs. split; [reflexivity|].
  destruct (fold_left _ kvs _) as [c1|] eqn:H1; [|discriminate].
  apply fold_set_last_section in H1; auto. subst c1. unfold rbind at 1 in H.
  destruct (set _ _ (AccessKeyId creds) _) as [c2|] eqn:H2; [|discriminate].
  apply set_last_section in H2; auto. subst c2. unfold rbind at 1 in H.
  destruct (set _ _ (SecretAccessKey creds) _) as [c3|] eqn:H3; [|discriminate].
  apply set_last_section in H3; auto. subst c3. unfold rbind at 1 in H.
  destruct (set _ _ (SessionToken creds) _) as [c4|] eqn:H4; [|discriminate].
  apply set_last_section in H4; auto. subst c4.
  apply set_last_section in H; auto.
Qed.

Lemma fs_set_same p v f : fs_set p v f p = v.
Proof. unfold fs_set. now rewrite str_eqb_refl. Qed.

Lemma fs_set_other p q v f : q <> p -> fs_set p v f q = f q.
Proof. intros H. unfold fs_set. apply str_eqb_neq in H. now rewrite H. Qed.

Lemma apply_on_file p q ev f : on_file p ev = true -> q <> p -> apply_event ev f q = f q.
Proof.
  intros H Hq. destruct ev; simpl in *; auto; try discriminate.
  - apply str_eqb_eq in H. subst. now apply fs_set_other.
  - apply str_eqb_eq in H. subst. destruct (f p); auto. now apply fs_set_other.
Qed.

Lemma replay_on_file p q evs f :
  forallb (on_file p) evs = true -> q <> p -> replay evs f q = f q.
Proof.
  revert f. induction evs as [|ev evs IH]; simpl; intros f H Hq; auto.
  apply andb_true_iff in H as [H1 H2]. unfold replay in *. simpl.
  rewrite IH by assumption. now apply apply_on_file with (p := p).
Qed.

Lemma replay_writes p chunks f old :
  f p = Some old ->
  replay (map (EvWrite p) chunks) f p = Some (old ++ concat chunks).
Proof.
  revert f old. induction chunks as [|c chunks IH]; simpl; intros f old H.
  - now rewrite app_nil_r.
  - unfold replay in *. simpl. rewrite H.
    rewrite (IH _ (old ++ c)); [now rewrite <- app_assoc|apply fs_set_same].
Qed.

Lemma forallb_firstn {A} (P : A -> bool) n l :
  forallb P l = true -> forallb P (firstn n l) = true.
Proof.
  revert n. induction l as [|x l IH]; intros [|n]; simpl; auto.
  intros H. apply andb_true_iff in H as [H1 H2]. now rewrite H1, IH.
Qed.

Lemma tmp_differs (p : str) : p <> p ++ py ".tmp".
Proof.
  intros H. rewrite <- (app_nil_r p) in H at 1.
  apply app_inv_head in H. discriminate.
Qed.

(** [write_all] logs a prefix of the writes it was asked for, all of
    them when it returns. *)
Lemma write_all_run p chunks w :
  exists done rest,
    chunks = done ++ rest
    /\ log (snd (write_all p chunks w)) = log w ++ map (EvWrite p) done
    /\ fs (snd (write_all p chunks w)) = replay (map (EvWrite p) done) (fs w)
    /\ (forall u, fst (write_all p chunks w) = Ok u -> rest = []).
Proof.
  revert w. induction chunks as [|c chunks IH]; intros w.
  - exists [], []. simpl. rewrite app_nil_r. auto.
  - simpl. unfold bind, file_op.
    destruct (faults w) as [|[|] fl]; simpl.
    + destruct (IH {| fs := apply_event (EvWrite p c) (fs w); stdin := stdin w;
                      faults := []; log := log w ++ [EvWrite p c] |})
        as (done & rest & E & L & F & R).
      exists (c :: done), rest. simpl in *. rewrite L, F, <- app_assoc. subst. auto.
    + exists [], (c :: chunks). simpl. rewrite app_nil_r. repeat split; auto. discriminate.
    + destruct (IH {| fs := apply_event (EvWrite p c) (fs w); stdin := stdin w;
                      faults := fl; log := log w ++ [EvWrite p c] |})
        as (done & rest & E & L & F & R).
      exists (c :: done), rest. simpl in *. rewrite L, F, <- app_assoc. subst. auto.
Qed.

Lemma contains_slash_tmp (p : str) :
  contains "/"%char (p ++ py ".tmp") = contains "/"%char p.
Proof. rewrite contains_app. simpl. now rewrite orb_false_r. Qed.

Lemma dir_head_tmp (p : str) : dir_head (p ++ py ".tmp") = dir_head p.
Proof.
  induction p as [|c p IH].
  - reflexivity.
  - change ((c :: p) ++ py ".tmp") with (c :: (p ++ py ".tmp")).
    unfold dir_head; fold dir_head.
    change (c :: p ++ py ".tmp") with ((c :: p) ++ py ".tmp").
    rewrite contains_slash_tmp. now rewrite IH.
Qed.

Lemma dirname_tmp (p : str) : dirname (p ++ py ".tmp") = dirname p.
Proof. unfold dirname. now rewrite dir_head_tmp. Qed.

(** The run of [persist]: either it fails having touched the temporary
    file only, or it wrote every chunk there, closed it and renamed it. *)
Lemma persist_run args cfg w r w' :
  let target := aws_credentials args in
  let tmp := target ++ py ".tmp" in
  persist args cfg w = (r, w') ->
  exists evs,
    log w' = log w ++ evs
    /\ fs w' = replay evs (fs w)
    /\ match r with
       | Ok _ => evs = EvOpenW tmp :: map (EvWrite tmp) (write cfg)
                       ++ [EvClose tmp; EvRename tmp target]
       | Raised _ => forallb (on_file tmp) evs = true
       end.
Proof.
  intros target tmp. unfold persist. fold target. fold tmp.
  unfold bind at 1. unfold file_op at 1.
  assert (Hw : forall w1,
    fs w1 = apply_event (EvOpenW tmp) (fs w) -> log w1 = log w ++ [EvOpenW tmp] ->
    (try_finally (write_all tmp (write cfg)) (file_op (EvClose tmp)) ;;
     file_op (EvRename tmp target)) w1 = (r, w') ->
    exists evs,
      log w' = log w ++ evs
      /\ fs w' = replay evs (fs w)
      /\ match r with
         | Ok _ => evs = EvOpenW tmp :: map (EvWrite tmp) (write cfg)
                         ++ [EvClose tmp; EvRename tmp target]
         | Raised _ => forallb (on_file tmp) evs = true
         end).
  { intros w1 F1 L1. unfold bind, try_finally.
    destruct (write_all_run tmp (write cfg) w1) as (done & rest & E & L & F & R).
    assert (Hdone : forallb (on_file tmp) (map (EvWrite tmp) done) = true).
    { clear. induction done; simpl; auto. now rewrite str_eqb_refl. }
    assert (Hclosed : forallb (on_file tmp)
              (EvOpenW tmp :: map (EvWrite tmp) done ++ [EvClose tmp]) = true).
    { simpl. rewrite str_eqb_refl, forallb_app, Hdone. simpl. now rewrite str_eqb_refl. }
    assert (Hopen : forallb (on_file tmp) (EvOpenW tmp :: map (EvWrite tmp) done) = true).
    { simpl. now rewrite str_eqb_refl, Hdone. }
    destruct (write_all tmp (write cfg) w1) as [[[]|e] w2]; simpl in *.
    - rewrite (R tt eq_refl), app_nil_r in E. subst done.
      unfold file_op.
      destruct (faults w2) as [|[|] [|[|] fl]]; simpl; intros H; inversion H; subst;
        simpl; rewrite L, L1, F, F1;
        first
          [ exists (EvOpenW tmp :: map (EvWrite tmp) (write cfg)
                    ++ [EvClose tmp; EvRename tmp target]);
            split; [|split]; [ | | reflexivity ]; log_and_replay
          | exists (EvOpenW tmp :: map (EvWrite tmp) (write cfg) ++ [EvClose tmp]);
            split; [|split]; [ | | exact Hclosed ]; log_and_replay
          | exists (EvOpenW tmp :: map (EvWrite tmp) (write cfg));
            split; [|split]; [ | | exact Hopen ]; log_and_replay ].
    - unfold file_op.
      destruct (faults w2) as [|[|] fl]; simpl; intros H; inversion H; subst;
        simpl; rewrite L, L1, F, F1;
        first
          [ exists (EvOpenW tmp :: map (EvWrite tmp) done ++ [EvClose tmp]);
            split; [|split]; [ | | exact Hclosed ]; log_and_replay
          | exists (EvOpenW tmp :: map (EvWrite tmp) done);
            split; [|split]; [ | | exact Hopen ]; log_and_replay ]. }
  destruct (faults w) as [|[|] fl].
  - apply Hw; reflexivity.
  - intros H. inversion H; subst. exists []. simpl. rewrite app_nil_r. auto.
  - apply Hw; reflexivity.
Qed.

Lemma replay_script_tmp tmp chunks f :
  replay (EvOpenW tmp :: map (EvWrite tmp) chunks ++ [EvClose tmp]) f tmp
  = Some (concat chunks).
Proof.
  change (EvOpenW tmp :: map (EvWrite tmp) chunks ++ [EvClose tmp])
    with ([EvOpenW tmp] ++ map (EvWrite tmp) chunks ++ [EvClose tmp]).
  rewrite !replay_app. simpl.
  apply (@replay_writes tmp chunks (fs_set tmp (Some []) f) []).
  apply fs_set_same.
Qed.

Lemma removelast_script (a : Event) l c r :
  removelast (a :: l ++ [c; r]) = a :: l ++ [c].
Proof.
  replace (a :: l ++ [c; r]) with ((a :: l ++ [c]) ++ [r])
    by (simpl; rewrite <- app_assoc; reflexivity).
  apply removelast_last.
Qed.

(** A successful [persist] leaves the serialized store at the target
    path. *)
Lemma persist_ok args cfg w u w' :
  persist args cfg w = (Ok u, w') ->
  fs w' (aws_credentials args) = Some (serialized cfg).
Proof.
  intros H. destruct (persist_run _ _ _ H) as (evs & L & F & E). subst evs.
  rewrite F.
  set (tmp := aws_credentials args ++ py ".tmp").
  set (script := EvOpenW tmp :: map (EvWrite tmp) (write cfg) ++ [EvClose tmp]).
  replace (EvOpenW tmp :: map (EvWrite tmp) (write cfg)
           ++ [EvClose tmp; EvRename tmp (aws_credentials args)])
    with (script ++ [EvRename tmp (aws_credentials args)])
    by (unfold script; simpl; now rewrite <- app_assoc).
  rewrite replay_app.
  assert (Hg : replay script (fs w) tmp = Some (serialized cfg))
    by apply replay_script_tmp.
  revert Hg. generalize (replay script (fs w)). intros g Hg.
  unfold replay. simpl. rewrite Hg.
  rewrite fs_set_other by apply tmp_differs.
  apply fs_set_same.
Qed.


(** ** The other sections *)

Lemma set_frame section option value cfg cfg' :
  set section option value cfg = Ok cfg' ->
  other_sections section cfg' = other_sections section cfg
  /\ forall q, q <> section -> dict_get q (_sections cfg') = dict_get q (_sections cfg).
Proof.
  unfold set, other_sections.
  destruct (if nonempty value then before_set value else Ok value) as [v|]; [|discriminate].
  simpl. destruct (negb (nonempty section)).
  - intros H. inversion H; subst. simpl. auto.
  - destruct (dict_get section (_sections cfg)) as [d|]; [|discriminate].
    intros H. inversion H; subst. simpl. split.
    + apply filter_dict_set.
    + intros q Hq. now apply dict_get_set_other.
Qed.

Lemma fold_set_frame section kvs cfg cfg' :
  fold_left (fun acc kv => rbind acc (fun c => set section (fst kv) (snd kv) c)) kvs (Ok cfg)
    = Ok cfg' ->
  other_sections section cfg' = other_sections section cfg
  /\ forall q, q <> section -> dict_get q (_sections cfg') = dict_get q (_sections cfg).
Proof.
  revert cfg. induction kvs as [|[k v] kvs IH]; simpl; intros cfg H.
  - inversion H; subst. auto.
  - destruct (set section k v cfg) as [c|e] eqn:Hs.
    + apply set_frame in Hs as [S1 S2]. apply IH in H as [H1 H2].
      split; [congruence|]. intros q Hq. rewrite H2, S2; auto.
    + exfalso. clear -H. induction kvs as [|kv kvs IH]; simpl in H; [discriminate|auto].
Qed.

Lemma updated_credentials_frame args cfg creds cfg' :
  updated_credentials args cfg creds = Ok cfg' ->
  other_sections (target_profile args) cfg' = other_sections (target_profile args) cfg
  /\ forall q, q <> target_profile args ->
       dict_get q (_sections cfg') = dict_get q (_sections cfg).
Proof.
  unfold updated_credentials, add_section, has_section, remove_section.
  simpl _sections. unfold dict_mem at 1. rewrite dict_get_del_same. simpl _defaults.
  cbv beta iota. unfold rbind at 1.
  destruct (items _ _) as [kvs|] eqn:Hitems; [|discriminate]. unfold rbind at 1.
  destruct (fold_left _ kvs _) as [c1|] eqn:H1; [|discriminate].
  apply fold_set_frame in H1 as [A1 B1]. unfold rbind at 1.
  destruct (set _ _ (AccessKeyId creds) _) as [c2|] eqn:H2; [|discriminate].
  apply set_frame in H2 as [A2 B2]. unfold rbind at 1.
  destruct (set _ _ (SecretAccessKey creds) _) as [c3|] eqn:H3; [|discriminate].
  apply set_frame in H3 as [A3 B3]. unfold rbind at 1.
  destruct (set _ _ (SessionToken creds) _) as [c4|] eqn:H4; [|discriminate].
  apply set_frame in H4 as [A4 B4].
  intros H. apply set_frame in H as [A5 B5].
  split.
  - rewrite A5, A4, A3, A2, A1. unfold other_sections. simpl.
    rewrite filter_app. simpl. rewrite str_eqb_refl. simpl. rewrite app_nil_r.
    apply filter_dict_del.
  - intros q Hq. rewrite B5, B4, B3, B2, B1 by assumption. simpl.
    rewrite dict_get_app. rewrite dict_get_del_other by assumption.
    destruct (dict_get q (_sections cfg)); [reflexivity|]. simpl.
    apply str_eqb_neq in Hq. now rewrite Hq.
Qed.

Lemma dict_get_set {V} k k' (v : V) d :
  dict_get k' (dict_set k v d) = if str_eqb k' k then Some v else dict_get k' d.
Proof.
  destruct (str_eqb k' k) eqn:E.
  - apply str_eqb_eq in E. subst. apply dict_get_set_same.
  - apply str_eqb_neq in E. now apply dict_get_set_other.
Qed.

Lemma with_temporary_credentials_get creds d k :
  dict_get k (with_temporary_credentials creds d)
  = match temporary_field creds k with Some v => Some v | None => dict_get k d end.
Proof.
  unfold with_temporary_credentials, temporary_field.
  rewrite !dict_get_set.
  repeat match goal with |- context [str_eqb k ?x] => destruct (str_eqb k x) end;
    reflexivity.
Qed.

Example read_credentials_text :
  read (Some Examples.credentials_text) = Ok Examples.store.
Proof. vm_compute. reflexivity. Qed.

End StoreFacts.
Export StoreFacts.

(* ================================================================== *)
(** * Facts about reading what was written *)
(* ================================================================== *)

Module RoundTripFacts.
Import configparser datetime Effects awsmfa Props.

(** ** Lines *)

Lemma split_lines_not_nil s : split_lines s <> [].
Proof.
  destruct s as [|c s]; simpl; [discriminate|].
  destruct (Ascii.eqb c NL); [discriminate|].
  destruct (split_lines s); discriminate.
Qed.

(** Splitting at the line breaks and joining again gives the text back. *)
Lemma join_split_lines s : join_lines (split_lines s) = s.
Proof.
  induction s as [|c s IH]; [reflexivity|].
  simpl. destruct (Ascii.eqb c NL) eqn:E.
  - apply Ascii.eqb_eq in E. subst c.
    destruct (split_lines s) as [|l ls] eqn:Es.
    + now destruct (split_lines_not_nil s).
    + simpl. simpl in IH. now rewrite IH.
  - destruct (split_lines s) as [|l ls] eqn:Es.
    + now destruct (split_lines_not_nil s).
    + simpl in *. destruct ls; simpl in *; now rewrite <- IH.
Qed.

Lemma split_lines_no_newline s :
  forallb (fun l => negb (contains NL l)) (split_lines s) = true.
Proof.
  induction s as [|c s IH]; [reflexivity|].
  simpl. destruct (Ascii.eqb c NL) eqn:E.
  - simpl. exact IH.
  - destruct (split_lines s) as [|l ls]; simpl in *.
    + now rewrite E.
    + rewrite E. exact IH.
Qed.

Lemma split_lines_line l rest :
  contains NL l = false -> split_lines (l ++ NL :: rest) = l :: split_lines rest.
Proof.
  induction l as [|c l IH]; simpl; intros H.
  - reflexivity.
  - apply orb_false_iff in H as [H1 H2]. rewrite H1. now rewrite IH.
Qed.

(** A text made of terminated lines splits into these lines. *)
Lemma file_lines_terminated ls :
  forallb (fun l => negb (contains NL l)) ls = true ->
  file_lines (concat (map (fun l => l ++ [NL]) ls)) = ls.
Proof.
  intros H.
  assert (E : split_lines (concat (map (fun l => l ++ [NL]) ls)) = ls ++ [[]]).
  { induction ls as [|l ls IH]; [reflexivity|].
    simpl in *. apply andb_true_iff in H as [H1 H2].
    rewrite <- app_assoc. simpl. rewrite split_lines_line.
    - now rewrite IH.
    - now apply negb_true_iff. }
  unfold file_lines. rewrite E, rev_app_distr. simpl. apply rev_involutive.
Qed.

Lemma universal_newlines_id s : contains CR s = false -> universal_newlines s = s.
Proof.
  induction s as [|c s IH]; simpl; [reflexivity|].
  intros H. apply orb_false_iff in H as [H1 H2]. rewrite H1. now rewrite IH.
Qed.

(** The value as [_write_section] prints it, in lines. *)
Lemma indent_continuations_lines v :
  indent_continuations v ++ [NL]
  = concat (map (fun l => l ++ [NL])
              (match split_lines v with
               | l0 :: ls => l0 :: map (fun l => TAB :: l) ls
               | [] => []
               end)).
Proof.
  assert (G : forall v p,
    p ++ indent_continuations v ++ [NL]
    = concat (map (fun l => l ++ [NL])
                (match split_lines v with
                 | l0 :: ls => (p ++ l0) :: map (fun l => TAB :: l) ls
                 | [] => []
                 end))).
  { clear v. induction v as [|c v IH]; intros p; simpl.
    - now rewrite !app_nil_r.
    - destruct (Ascii.eqb c NL) eqn:E.
      + apply Ascii.eqb_eq in E. subst c. simpl. rewrite app_nil_r.
        specialize (IH [TAB]). simpl in IH.
        destruct (split_lines v) as [|l ls] eqn:Es.
        * now destruct (split_lines_not_nil v).
        * simpl in *. rewrite <- app_assoc. simpl. now rewrite IH.
      + specialize (IH (p ++ [c])).
        destruct (split_lines v) as [|l ls] eqn:Es.
        * now destruct (split_lines_not_nil v).
        * simpl in *. rewrite <- !app_assoc in IH. simpl in IH.
          rewrite IH. rewrite <- !app_assoc. reflexivity. }
  specialize (G v []). simpl in G. rewrite G.
  destruct (split_lines v); reflexivity.
Qed.

(** ** White space *)

Lemma lstrip_nonspace c s : isspace c = false -> lstrip (c :: s) = c :: s.
Proof. intros H. simpl. now rewrite H. Qed.

Lemma rstrip_app_nonblank a b : rstrip b <> [] -> rstrip (a ++ b) = a ++ rstrip b.
Proof.
  intros H. induction a as [|c a IH]; simpl; [reflexivity|].
  rewrite IH. destruct (a ++ rstrip b) eqn:E; [|reflexivity].
  apply app_eq_nil in E as [_ E]. contradiction.
Qed.

Lemma rstrip_app_blank a b : rstrip b = [] -> rstrip (a ++ b) = rstrip a.
Proof.
  intros H. induction a as [|c a IH]; simpl; [exact H|]. now rewrite IH.
Qed.

Lemma rstrip_idempotent s : rstrip (rstrip s) = rstrip s.
Proof.
  induction s as [|c s IH]; simpl; [reflexivity|].
  destruct (rstrip s) as [|d r] eqn:E.
  - destruct (isspace c) eqn:Hc; simpl; [reflexivity|]. now rewrite Hc.
  - simpl in *. now rewrite IH.
Qed.

Lemma stripped_eq s : stripped s = true -> strip s = s.
Proof. unfold stripped. apply str_eqb_eq. Qed.

(** A stripped text that is not empty starts and ends with a character
    that is not white space. *)
Lemma stripped_head c s : stripped (c :: s) = true -> isspace c = false.
Proof.
  intros H. apply stripped_eq in H. unfold strip in H. simpl in H.
  destruct (isspace c) eqn:Hc; [|reflexivity]. exfalso.
  assert (L : forall t, length (rstrip t) <= length t).
  { induction t as [|x t IHt]; simpl; [lia|].
    destruct (rstrip t); simpl in *; [destruct (isspace x); simpl; lia|lia]. }
  assert (L2 : forall t, length (lstrip t) <= length t).
  { induction t as [|x t IHt]; simpl; [lia|]. destruct (isspace x); simpl; lia. }
  pose proof (L (lstrip s)). pose proof (L2 s). rewrite H in H0. simpl in H0. lia.
Qed.

Lemma stripped_rstrip s : stripped s = true -> rstrip s = s.
Proof.
  intros H. destruct s as [|c s]; [reflexivity|].
  pose proof (stripped_head _ _ H) as Hc. apply stripped_eq in H.
  unfold strip in H. rewrite lstrip_nonspace in H by assumption. exact H.
Qed.

Lemma stripped_lstrip s : stripped s = true -> lstrip s = s.
Proof.
  intros H. destruct s as [|c s]; [reflexivity|].
  apply lstrip_nonspace. now apply stripped_head with (s := s).
Qed.

Lemma rstrip_nonempty s : s <> [] -> rstrip s = s -> rstrip s <> [].
Proof. intros H E. now rewrite E. Qed.

(** ** What a canonical option name looks like *)

Lemma canonical_key_inv k :
  canonical_key k = true ->
  exists c k', k = c :: k'
    /\ isspace c = false
    /\ rstrip k = k
    /\ optionxform k = k
    /\ existsb is_delimiter k = false
    /\ contains NL k = false /\ contains CR k = false
    /\ Ascii.eqb c "["%char = false
    /\ Ascii.eqb c "#"%char = false
    /\ Ascii.eqb c ";"%char = false.
Proof.
  unfold canonical_key, no_newline, starts_comment. intros H.
  repeat (apply andb_true_iff in H; destruct H as [H ?]).
  destruct k as [|c k']; [discriminate|].
  exists c, k'. split; [reflexivity|].
  split; [now apply stripped_head with (s := k')|].
  split; [now apply stripped_rstrip|].
  split; [now apply str_eqb_eq|].
  split; [now apply negb_true_iff|].
  apply andb_true_iff in H2 as [N1 N2].
  split; [now apply negb_true_iff|]. split; [now apply negb_true_iff|].
  apply negb_true_iff in H1, H0. unfold py in *. simpl in H1, H0.
  rewrite !andb_true_r in *. apply orb_false_iff in H0 as [? ?]. auto.
Qed.

Lemma cut_at_delimiter_app a b :
  existsb is_delimiter a = false ->
  cut_at_delimiter (a ++ "="%char :: b) = Some (a, b).
Proof.
  induction a as [|c a IH]; simpl; intros H; [reflexivity|].
  apply orb_false_iff in H as [H1 H2]. rewrite H1. now rewrite IH.
Qed.

Lemma before_last_bracket_app n : before_last_bracket (n ++ py "]") = Some n.
Proof. induction n as [|c n IH]; simpl; [reflexivity|]. now rewrite IH. Qed.

Lemma ltb_0 n : (n <? 0) = false.
Proof. now destruct n. Qed.

(** ** The key line of an option *)

Section KeyLine.
Variables (k l0 : str).
Hypothesis Hk : canonical_key k = true.
Hypothesis Hl : stripped l0 = true.

Let line := k ++ py " = " ++ l0.

Lemma strip_key_line :
  strip line = k ++ py " =" ++ match l0 with [] => [] | _ => " "%char :: l0 end.
Proof.
  destruct (canonical_key_inv _ Hk) as (c & k' & -> & Hc & _).
  unfold strip, line. change ((c :: k') ++ py " = " ++ l0) with (c :: (k' ++ py " = " ++ l0)).
  rewrite lstrip_nonspace by assumption.
  change (c :: k' ++ py " = " ++ l0) with ((c :: k') ++ py " = " ++ l0).
  destruct l0 as [|d l] eqn:E.
  - rewrite app_nil_r. change (py " = ") with (py " =" ++ [" "%char]).
    rewrite app_assoc. rewrite rstrip_app_blank by reflexivity.
    rewrite rstrip_app_nonblank by discriminate. now rewrite app_nil_r.
  - rewrite rstrip_app_nonblank.
    + change (py " = " ++ d :: l) with ((py " = ") ++ d :: l).
      rewrite rstrip_app_nonblank; [|rewrite (stripped_rstrip _ Hl); discriminate].
      rewrite (stripped_rstrip _ Hl). reflexivity.
    + rewrite rstrip_app_nonblank; [|rewrite (stripped_rstrip _ Hl); discriminate].
      discriminate.
Qed.

Lemma is_comment_key_line : is_comment_line line = false.
Proof.
  unfold is_comment_line. rewrite strip_key_line.
  destruct (canonical_key_inv _ Hk) as (c & k' & -> & _ & _ & _ & _ & _ & _ & _ & H1 & H2).
  unfold py. simpl. now rewrite H1, H2.
Qed.

Lemma indent_of_key_line : indent_of line = 0.
Proof.
  destruct (canonical_key_inv _ Hk) as (c & k' & E & Hc & _).
  unfold line. rewrite E. simpl. now rewrite Hc.
Qed.

Lemma sect_header_key_line : sect_header (strip line) = None.
Proof.
  rewrite strip_key_line.
  destruct (canonical_key_inv _ Hk) as (c & k' & -> & _ & _ & _ & _ & _ & _ & H1 & _).
  simpl. now rewrite H1.
Qed.

Lemma opt_match_key_line :
  exists optval, opt_match (strip line) = Some (k, optval) /\ strip optval = l0.
Proof.
  rewrite strip_key_line.
  destruct (canonical_key_inv _ Hk) as (c & k' & E & Hc & Hr & _ & Hd & _).
  unfold opt_match.
  change (py " =") with ([" "%char] ++ ["="%char]).
  rewrite <- app_assoc, app_assoc. simpl ((["="%char] ++ _)).
  rewrite cut_at_delimiter_app.
  2:{ rewrite existsb_app, Hd. reflexivity. }
  rewrite rstrip_app_blank by reflexivity. rewrite Hr.
  eexists. split; [reflexivity|].
  destruct l0 as [|d l] eqn:El; [reflexivity|].
  change (lstrip (" "%char :: d :: l)) with (lstrip (d :: l)).
  rewrite (stripped_lstrip _ Hl). now apply stripped_eq.
Qed.

Lemma nonempty_key_line : nonempty (strip line) = true.
Proof.
  rewrite strip_key_line.
  destruct (canonical_key_inv _ Hk) as (c & k' & -> & _). reflexivity.
Qed.

Lemma read_line_key st sect d :
  rd_cursect st = Some sect ->
  dict_get sect (rd_sections st) = Some d ->
  dict_mem k d = false ->
  read_line st line
  = Ok {| rd_sections := dict_set sect (dict_set k [l0] d) (rd_sections st);
          rd_cursect := Some sect;
          rd_optname := Some k;
          rd_indent_level := 0;
          rd_e := rd_e st |}.
Proof.
  intros Hc Hs Hm. unfold read_line.
  rewrite is_comment_key_line, nonempty_key_line, indent_of_key_line, Hc. simpl negb.
  cbv iota. rewrite ltb_0.
  replace (match rd_optname st with
           | Some opt => if nonempty opt && false then Some (sect, opt) else None
           | None => None
           end)
    with (@None (str * str))
    by (destruct (rd_optname st); rewrite ?andb_false_r; reflexivity).
  rewrite sect_header_key_line.
  destruct opt_match_key_line as (optval & -> & Ho).
  destruct (canonical_key_inv _ Hk) as (c & k' & E & _ & Hr & Hx & _).
  rewrite Hr, Hx, Hs, Hm, Ho.
  replace (nonempty k) with true by (rewrite E; reflexivity).
  simpl. now rewrite orb_false_r.
Qed.

End KeyLine.

(** ** The header line of a section *)

Lemma strip_header n : strip (py "[" ++ n ++ py "]") = py "[" ++ n ++ py "]".
Proof.
  unfold strip. change (py "[" ++ n ++ py "]") with ("["%char :: (n ++ py "]")).
  rewrite lstrip_nonspace by reflexivity.
  change ("["%char :: n ++ py "]") with (("["%char :: n) ++ py "]").
  now rewrite rstrip_app_nonblank by discriminate.
Qed.

Lemma read_line_header st n :
  nonempty n = true ->
  dict_mem n (rd_sections st) = false ->
  read_line st (py "[" ++ n ++ py "]")
  = Ok {| rd_sections := rd_sections st ++ [(n, [])];
          rd_cursect := Some n;
          rd_optname := None;
          rd_indent_level := 0;
          rd_e := rd_e st |}.
Proof.
  intros Hn Hm. unfold read_line, is_comment_line. rewrite strip_header.
  change (startswith (py "#") (py "[" ++ n ++ py "]")) with false.
  change (startswith (py ";") (py "[" ++ n ++ py "]")) with false.
  simpl orb. cbv iota.
  change (nonempty (py "[" ++ n ++ py "]")) with true. simpl negb. cbv iota.
  change (indent_of (py "[" ++ n ++ py "]")) with 0. rewrite ltb_0.
  replace (match rd_cursect st with
           | Some sect =>
               match rd_optname st with
               | Some opt => if nonempty opt && false then Some (sect, opt) else None
               | None => None
               end
           | None => None
           end)
    with (@None (str * str))
    by (destruct (rd_cursect st); [destruct (rd_optname st)|];
        rewrite ?andb_false_r; reflexivity).
  change (sect_header (py "[" ++ n ++ py "]"))
    with (match before_last_bracket (n ++ py "]") with
          | Some h => if nonempty h then Some h else None
          | None => None
          end).
  rewrite before_last_bracket_app, Hn, Hm. reflexivity.
Qed.

(** ** The lines that continue a value *)

Lemma append_line_last sect opt value ss0 d0 ls :
  dict_mem sect ss0 = false ->
  dict_mem opt d0 = false ->
  append_line sect opt value (ss0 ++ [(sect, d0 ++ [(opt, ls)])])
  = ss0 ++ [(sect, d0 ++ [(opt, ls ++ [value])])].
Proof.
  intros Hs Ho. unfold append_line.
  rewrite dict_get_last by assumption. rewrite dict_get_last by assumption.
  rewrite dict_set_last by assumption. now rewrite dict_set_last by assumption.
Qed.

Lemma read_line_continuation st sect opt l :
  canonical_next_line l = true ->
  rd_cursect st = Some sect ->
  rd_optname st = Some opt ->
  nonempty opt = true ->
  rd_indent_level st = 0 ->
  read_line st (TAB :: l)
  = Ok {| rd_sections := append_line sect opt l (rd_sections st);
          rd_cursect := rd_cursect st;
          rd_optname := rd_optname st;
          rd_indent_level := rd_indent_level st;
          rd_e := rd_e st |}.
Proof.
  unfold canonical_next_line, starts_comment.
  intros Hl Hc Ho Hn Hi. apply andb_true_iff in Hl as [Hs Hcm].
  apply negb_true_iff in Hcm.
  assert (E : strip (TAB :: l) = l).
  { unfold strip. change (lstrip (TAB :: l)) with (lstrip l).
    rewrite stripped_lstrip by assumption. now apply stripped_rstrip. }
  unfold read_line, is_comment_line. rewrite E, Hcm, Hc, Ho, Hn, Hi.
  destruct l as [|c l'].
  - reflexivity.
  - simpl negb. cbv iota.
    change (indent_of (TAB :: c :: l')) with (S (indent_of (c :: l'))).
    reflexivity.
Qed.

Lemma read_line_blank_after_option st sect opt :
  rd_cursect st = Some sect ->
  rd_optname st = Some opt ->
  nonempty opt = true ->
  read_line st []
  = Ok {| rd_sections := append_line sect opt [] (rd_sections st);
          rd_cursect := rd_cursect st;
          rd_optname := rd_optname st;
          rd_indent_level := rd_indent_level st;
          rd_e := rd_e st |}.
Proof. intros Hc Ho Hn. unfold read_line. simpl. now rewrite Hc, Ho, Hn. Qed.

Lemma read_line_blank_after_header st :
  rd_optname st = None -> read_line st [] = Ok st.
Proof.
  intros Ho. unfold read_line. simpl. rewrite Ho. now destruct (rd_cursect st).
Qed.

Lemma read_lines_app st l1 l2 :
  read_lines st (l1 ++ l2) = rbind (read_lines st l1) (fun st' => read_lines st' l2).
Proof.
  revert st. induction l1 as [|l l1 IH]; intros st; simpl; [reflexivity|].
  destruct (read_line st l); simpl; auto.
Qed.

(** Reading the continuation lines of the last option appends them to
    its lines. *)
Lemma read_lines_continuation ls : forall ss0 sect d0 opt acc e,
  forallb canonical_next_line ls = true ->
  nonempty opt = true ->
  dict_mem sect ss0 = false ->
  dict_mem opt d0 = false ->
  read_lines {| rd_sections := ss0 ++ [(sect, d0 ++ [(opt, acc)])];
                rd_cursect := Some sect; rd_optname := Some opt;
                rd_indent_level := 0; rd_e := e |}
             (map (fun l => TAB :: l) ls)
  = Ok {| rd_sections := ss0 ++ [(sect, d0 ++ [(opt, acc ++ ls)])];
          rd_cursect := Some sect; rd_optname := Some opt;
          rd_indent_level := 0; rd_e := e |}.
Proof.
  induction ls as [|l ls IH]; intros ss0 sect d0 opt acc e Hls Hn Hs Ho; simpl.
  - now rewrite app_nil_r.
  - apply andb_true_iff in Hls as [Hl Hls].
    rewrite (@read_line_continuation _ sect opt l) by (try assumption; reflexivity).
    simpl. rewrite append_line_last by assumption.
    rewrite IH by assumption. now rewrite <- app_assoc.
Qed.

(** Reading the lines of one option adds it, with the lines of its
    value, to the section being read. *)
Lemma read_lines_option k v : forall ss0 sect d0 o i e,
  canonical_key k = true ->
  canonical_value v = true ->
  dict_mem sect ss0 = false ->
  dict_mem k d0 = false ->
  read_lines {| rd_sections := ss0 ++ [(sect, d0)];
                rd_cursect := Some sect; rd_optname := o;
                rd_indent_level := i; rd_e := e |}
             (option_lines (k, v))
  = Ok {| rd_sections := ss0 ++ [(sect, d0 ++ [(k, split_lines v)])];
          rd_cursect := Some sect; rd_optname := Some k;
          rd_indent_level := 0; rd_e := e |}.
Proof.
  intros ss0 sect d0 o i e Hk Hv Hs Ho.
  unfold canonical_value in Hv.
  apply andb_true_iff in Hv as [Hv Hlines]. unfold option_lines. simpl fst. simpl snd.
  destruct (split_lines v) as [|l0 ls] eqn:Es; [now destruct (split_lines_not_nil v)|].
  apply andb_true_iff in Hlines as [Hl0 Hls].
  cbn [read_lines].
  rewrite (@read_line_key k l0 Hk Hl0 _ sect d0); simpl;
    [| reflexivity | now apply dict_get_last | assumption].
  rewrite dict_set_last by assumption.
  rewrite dict_set_fresh by assumption.
  destruct (canonical_key_inv _ Hk) as (c & k' & Ek & _).
  apply (@read_lines_continuation ls ss0 sect d0 k [l0] e); auto.
  now rewrite Ek.
Qed.

Lemma In_dict_mem {V} (d : odict V) kv : In kv d -> dict_mem (fst kv) d = true.
Proof.
  unfold dict_mem. induction d as [|[k v] d IH]; simpl; [contradiction|].
  intros [H|H].
  - subst kv. simpl. now rewrite str_eqb_refl.
  - destruct (str_eqb (fst kv) k); [reflexivity|]. auto.
Qed.

Lemma dict_mem_false_In {V} (d : odict V) k kv :
  dict_mem k d = false -> In kv d -> fst kv <> k.
Proof.
  intros Hm Hin E. subst k. apply In_dict_mem in Hin. congruence.
Qed.

Lemma read_lines_options (rest : dict) : forall ss0 sect d0 o i e,
  forallb (fun kv => canonical_key (fst kv) && canonical_value (snd kv)) rest = true ->
  unique_keys rest = true ->
  (forall kv, In kv rest -> dict_mem (fst kv) d0 = false) ->
  dict_mem sect ss0 = false ->
  read_lines {| rd_sections := ss0 ++ [(sect, d0)];
                rd_cursect := Some sect; rd_optname := o;
                rd_indent_level := i; rd_e := e |}
             (flat_map option_lines rest)
  = Ok {| rd_sections :=
            ss0 ++ [(sect, d0 ++ map (fun kv => (fst kv, split_lines (snd kv))) rest)];
          rd_cursect := Some sect;
          rd_optname := fst (after_options rest o i);
          rd_indent_level := snd (after_options rest o i);
          rd_e := e |}.
Proof.
  induction rest as [|[k v] rest IH]; intros ss0 sect d0 o i e Hc Hu Hd Hs.
  - simpl. now rewrite app_nil_r.
  - simpl in Hc, Hu. apply andb_true_iff in Hc as [Hkv Hc].
    apply andb_true_iff in Hkv as [Hk Hv].
    apply andb_true_iff in Hu as [Hfresh Hu]. apply negb_true_iff in Hfresh.
    cbn [flat_map]. rewrite read_lines_app.
    rewrite read_lines_option; auto.
    2:{ apply (Hd (k, v)). now left. }
    cbn [rbind]. rewrite IH; auto.
    + cbn [map fst snd]. rewrite <- app_assoc. reflexivity.
    + intros kv Hin. rewrite dict_mem_app, (Hd kv) by (now right). simpl.
      unfold dict_mem. simpl.
      assert (Hne : fst kv <> k) by (eapply dict_mem_false_In; eauto).
      apply str_eqb_neq in Hne. now rewrite Hne.
Qed.

Lemma join_lines_app_blank ls : ls <> [] -> join_lines (ls ++ [[]]) = join_lines ls ++ [NL].
Proof.
  induction ls as [|l ls IH]; [contradiction|]. intros _.
  destruct ls as [|l' ls].
  - simpl. reflexivity.
  - change (join_lines ((l :: l' :: ls) ++ [[]]))
      with (l ++ NL :: join_lines ((l' :: ls) ++ [[]])).
    rewrite IH by discriminate.
    change (join_lines (l :: l' :: ls)) with (l ++ NL :: join_lines (l' :: ls)).
    now rewrite <- app_assoc.
Qed.

Lemma canonical_value_rstrip v : canonical_value v = true -> rstrip v = v.
Proof.
  unfold canonical_value. intros H. apply andb_true_iff in H as [H _].
  apply andb_true_iff in H as [_ H]. now apply str_eqb_eq.
Qed.

(** Joining the lines read for canonical options gives the options. *)
Lemma join_options_split (d : dict) :
  forallb (fun kv => canonical_key (fst kv) && canonical_value (snd kv)) d = true ->
  join_options (map (fun kv => (fst kv, split_lines (snd kv))) d) = d.
Proof.
  induction d as [|[k v] d IH]; simpl; intros H; [reflexivity|].
  apply andb_true_iff in H as [Hkv H]. apply andb_true_iff in Hkv as [_ Hv].
  unfold join_options in *. simpl. rewrite IH by assumption.
  now rewrite join_split_lines, canonical_value_rstrip.
Qed.

Lemma after_options_last d k v o i : after_options (d ++ [(k, v)]) o i = (Some k, 0).
Proof. unfold after_options. now rewrite fold_left_app. Qed.

Lemma dict_mem_map_values {V W} (f : str * V -> W) (d : odict V) k :
  dict_mem k (map (fun kv => (fst kv, f kv)) d) = dict_mem k d.
Proof.
  unfold dict_mem. induction d as [|[k' v'] d IH]; simpl; [reflexivity|].
  destruct (str_eqb k k'); auto.
Qed.

Lemma unique_keys_last {V} (d : odict V) k v :
  unique_keys (d ++ [(k, v)]) = true -> dict_mem k d = false.
Proof.
  induction d as [|[k' v'] d IH]; simpl; [reflexivity|].
  intros H. apply andb_true_iff in H as [H1 H2]. apply negb_true_iff in H1.
  rewrite dict_mem_app in H1. apply orb_false_iff in H1 as [_ H1].
  unfold dict_mem in *. simpl in *. rewrite str_eqb_sym.
  destruct (str_eqb k' k); [discriminate|]. now apply IH.
Qed.

(** Reading the lines of one section adds it to the sections read so
    far; joining the lines of its values gives its options. *)
Lemma read_lines_section s st :
  canonical_section s = true ->
  dict_mem (fst s) (rd_sections st) = false ->
  exists d' o,
    read_lines st (section_lines s)
    = Ok {| rd_sections := rd_sections st ++ [(fst s, d')];
            rd_cursect := Some (fst s); rd_optname := o;
            rd_indent_level := 0; rd_e := rd_e st |}
    /\ join_options d' = snd s.
Proof.
  destruct s as [n d]. unfold canonical_section, canonical_name. simpl fst. simpl snd.
  intros Hc Hm. apply andb_true_iff in Hc as [Hc Hopts].
  apply andb_true_iff in Hc as [Hn Hu]. apply andb_true_iff in Hn as [Hn _].
  unfold section_lines. simpl fst. simpl snd. cbn [read_lines].
  rewrite read_line_header by assumption. cbn [rbind].
  rewrite read_lines_app.
  pose proof (@read_lines_options d (rd_sections st) n [] None 0 (rd_e st)
                Hopts Hu (fun _ _ => eq_refl) Hm) as Hread.
  cbn [app] in Hread.
  match type of Hread with ?l = _ =>
    match goal with |- context [rbind ?l' _] => change l' with l end end.
  rewrite Hread. clear Hread.
  cbn [rbind read_lines app].
  destruct (rev d) as [|[k v] rd] eqn:Er.
  - assert (d = []) by (apply (f_equal (@rev _)) in Er; now rewrite rev_involutive in Er).
    subst d. simpl.
    exists [], None. split; reflexivity.
  - assert (Ed : d = rev rd ++ [(k, v)])
      by (apply (f_equal (@rev _)) in Er; now rewrite rev_involutive in Er).
    rewrite Ed in *. clear Ed Er. set (d1 := rev rd) in *.
    rewrite after_options_last. cbn [fst snd].
    assert (Hkv : canonical_key k = true /\ canonical_value v = true).
    { rewrite forallb_app in Hopts. apply andb_true_iff in Hopts as [_ H].
      simpl in H. rewrite andb_true_r in H. now apply andb_true_iff in H. }
    destruct Hkv as [Hk Hv].
    destruct (canonical_key_inv _ Hk) as (c & k' & Ek & _).
    rewrite read_line_blank_after_option with (sect := n) (opt := k);
      [|reflexivity|reflexivity|now rewrite Ek].
    cbn [rbind rd_sections rd_cursect rd_optname rd_indent_level rd_e].
    rewrite map_app. cbn [map fst snd].
    rewrite append_line_last; [|assumption|].
    2:{ rewrite dict_mem_map_values with (f := fun kv => split_lines (snd kv)).
        now apply unique_keys_last with (v := v). }
    eexists _, (Some k). split; [reflexivity|].
    unfold join_options. rewrite map_app. cbn [map fst snd].
    rewrite forallb_app in Hopts. apply andb_true_iff in Hopts as [Hd1 _].
    fold (join_options (map (fun kv => (fst kv, split_lines (snd kv))) d1)).
    rewrite join_options_split by assumption.
    rewrite join_lines_app_blank by apply split_lines_not_nil.
    rewrite join_split_lines. rewrite rstrip_app_blank by reflexivity.
    now rewrite canonical_value_rstrip.
Qed.

(** Reading the lines of a canonical store adds its sections. *)
Lemma read_lines_store ss : forall st,
  forallb canonical_section ss = true ->
  unique_keys ss = true ->
  (forall s, In s ss -> dict_mem (fst s) (rd_sections st) = false) ->
  exists st' raw,
    read_lines st (store_lines ss) = Ok st'
    /\ rd_sections st' = rd_sections st ++ raw
    /\ rd_e st' = rd_e st
    /\ _join_multiline_values raw = ss.
Proof.
  induction ss as [|s ss IH]; intros st Hc Hu Hd.
  - exists st, []. simpl. now rewrite app_nil_r.
  - simpl in Hc. apply andb_true_iff in Hc as [Hs Hc].
    destruct s as [n d]. simpl in Hu. apply andb_true_iff in Hu as [Hfresh Hu].
    apply negb_true_iff in Hfresh.
    destruct (@read_lines_section (n, d) st Hs) as (d' & o & Hr & Hj).
    { apply (Hd (n, d)). now left. }
    unfold store_lines. cbn [flat_map]. rewrite read_lines_app, Hr. cbn [rbind].
    destruct (IH {| rd_sections := rd_sections st ++ [(n, d')];
                    rd_cursect := Some n; rd_optname := o;
                    rd_indent_level := 0; rd_e := rd_e st |} Hc Hu)
      as (st' & raw & Hr' & Hsec & He & Hjoin).
    { intros s Hin. cbn [rd_sections]. rewrite dict_mem_app, (Hd s) by (now right).
      unfold dict_mem. simpl.
      assert (Hne : fst s <> n) by (eapply dict_mem_false_In; eauto).
      apply str_eqb_neq in Hne. now rewrite Hne. }
    exists st', ((n, d') :: raw). split; [exact Hr'|].
    cbn [rd_sections rd_e] in *. split; [now rewrite Hsec, <- app_assoc|].
    split; [exact He|].
    unfold _join_multiline_values in *. cbn [map fst snd].
    fold (join_options d'). simpl in Hj. now rewrite Hj, Hjoin.
Qed.

(** ** The file as lines *)

Lemma terminated_app a b : terminated (a ++ b) = terminated a ++ terminated b.
Proof. unfold terminated. now rewrite map_app, concat_app. Qed.

Lemma option_text_lines kv :
  fst kv ++ py " = " ++ indent_continuations (snd kv) ++ [NL]
  = terminated (option_lines kv).
Proof.
  destruct kv as [k v]. unfold option_lines, terminated. cbn [fst snd].
  pose proof (indent_continuations_lines v) as H.
  destruct (split_lines v) as [|l0 ls] eqn:E; [now destruct (split_lines_not_nil v)|].
  cbn [map concat] in *. rewrite H. now rewrite <- !app_assoc.
Qed.

Lemma options_text_lines (d : dict) :
  concat (map (fun kv => fst kv ++ py " = " ++ indent_continuations (snd kv) ++ [NL]) d)
  = terminated (flat_map option_lines d).
Proof.
  induction d as [|kv d IH]; [reflexivity|].
  cbn [map concat flat_map]. now rewrite terminated_app, IH, option_text_lines.
Qed.

Lemma section_text_lines s :
  concat (_write_section (fst s) (snd s)) = terminated (section_lines s).
Proof.
  unfold _write_section, section_lines.
  cbn [concat]. rewrite concat_app, options_text_lines.
  change (terminated ((py "[" ++ fst s ++ py "]") :: flat_map option_lines (snd s) ++ [[]]))
    with (((py "[" ++ fst s ++ py "]") ++ [NL])
          ++ terminated (flat_map option_lines (snd s) ++ [[]])).
  rewrite terminated_app. rewrite <- !app_assoc. reflexivity.
Qed.

(** The file [write] produces consists of the lines of the store. *)
Lemma serialized_lines cfg :
  _defaults cfg = [] -> serialized cfg = terminated (store_lines (_sections cfg)).
Proof.
  intros Hd. unfold serialized, write, store_lines. rewrite Hd. cbn [app].
  induction (_sections cfg) as [|s ss IH]; [reflexivity|].
  cbn [flat_map]. now rewrite concat_app, terminated_app, IH, section_text_lines.
Qed.

(** ** No stray line break in the lines of a canonical store *)

Lemma contains_split_lines c v :
  contains c v = false ->
  forallb (fun l => negb (contains c l)) (split_lines v) = true.
Proof.
  induction v as [|x v IH]; simpl; intros H; [reflexivity|].
  apply orb_false_iff in H as [H1 H2]. specialize (IH H2).
  destruct (Ascii.eqb x NL).
  - simpl. exact IH.
  - destruct (split_lines v) as [|l ls]; simpl in *.
    + now rewrite H1.
    + now rewrite H1.
Qed.

Lemma clean_option_lines k v :
  canonical_key k = true -> canonical_value v = true ->
  forallb no_newline (option_lines (k, v)) = true.
Proof.
  intros Hk Hv.
  destruct (canonical_key_inv _ Hk) as (c & k' & _ & _ & _ & _ & _ & Hn & Hr & _).
  unfold canonical_value in Hv. apply andb_true_iff in Hv as [Hv _].
  apply andb_true_iff in Hv as [Hcr _]. apply negb_true_iff in Hcr.
  pose proof (split_lines_no_newline v) as HN.
  pose proof (contains_split_lines CR v Hcr) as HC.
  unfold option_lines. cbn [fst snd].
  destruct (split_lines v) as [|l0 ls]; [reflexivity|].
  cbn [forallb] in *. apply andb_true_iff in HN as [N0 Ns].
  apply andb_true_iff in HC as [C0 Cs].
  apply negb_true_iff in N0, C0.
  apply andb_true_iff. split.
  - unfold no_newline. rewrite !contains_app, Hn, Hr, N0, C0. reflexivity.
  - clear -Ns Cs. induction ls as [|l ls IH]; [reflexivity|].
    cbn [map forallb] in *. apply andb_true_iff in Ns as [N Ns].
    apply andb_true_iff in Cs as [C Cs]. rewrite IH by assumption.
    apply negb_true_iff in N, C. unfold no_newline. simpl. now rewrite N, C.
Qed.

Lemma clean_section_lines s :
  canonical_section s = true -> forallb no_newline (section_lines s) = true.
Proof.
  destruct s as [n d]. unfold canonical_section, canonical_name, no_newline.
  cbn [fst snd]. intros H. apply andb_true_iff in H as [H Hopts].
  apply andb_true_iff in H as [H _]. apply andb_true_iff in H as [_ H].
  apply andb_true_iff in H as [Hn Hr]. apply negb_true_iff in Hn, Hr.
  unfold section_lines. cbn [fst snd forallb]. apply andb_true_iff. split.
  - unfold no_newline. rewrite !contains_app, Hn, Hr. reflexivity.
  - rewrite forallb_app. cbn. rewrite andb_true_r.
    induction d as [|[k v] d IH]; [reflexivity|].
    cbn [flat_map forallb] in *. apply andb_true_iff in Hopts as [Hkv Hopts].
    apply andb_true_iff in Hkv as [Hk Hv].
    rewrite forallb_app, clean_option_lines by assumption. now rewrite IH.
Qed.

Lemma clean_store_lines ss :
  forallb canonical_section ss = true -> forallb no_newline (store_lines ss) = true.
Proof.
  induction ss as [|s ss IH]; [reflexivity|]. cbn [forallb]. intros H.
  apply andb_true_iff in H as [Hs H]. unfold store_lines. cbn [flat_map].
  rewrite forallb_app, clean_section_lines by assumption. now apply IH.
Qed.

Lemma terminated_no_return ls :
  forallb no_newline ls = true -> contains CR (terminated ls) = false.
Proof.
  induction ls as [|l ls IH]; [reflexivity|]. cbn [forallb]. intros H.
  apply andb_true_iff in H as [Hl H]. unfold no_newline in Hl.
  apply andb_true_iff in Hl as [_ Hl]. apply negb_true_iff in Hl.
  unfold terminated in *. cbn [map concat]. rewrite !contains_app, Hl, IH by assumption.
  reflexivity.
Qed.

Lemma clean_no_newline ls :
  forallb no_newline ls = true -> forallb (fun l => negb (contains NL l)) ls = true.
Proof.
  induction ls as [|l ls IH]; [reflexivity|]. cbn [forallb]. intros H.
  apply andb_true_iff in H as [Hl H]. unfold no_newline in Hl.
  apply andb_true_iff in Hl as [Hl _]. now rewrite Hl, IH.
Qed.

(** ** Round trip *)

(** A canonical store written by [write] is read back by [read] as the
    same store. *)
Lemma read_serialized_canonical cfg :
  canonical cfg = true -> read (Some (serialized cfg)) = Ok cfg.
Proof.
  unfold canonical. intros H. apply andb_true_iff in H as [H Hc].
  apply andb_true_iff in H as [Hd Hu].
  assert (Hdef : _defaults cfg = []) by (destruct (_defaults cfg); [reflexivity|discriminate]).
  unfold read, _read. rewrite serialized_lines by assumption.
  pose proof (clean_store_lines _ Hc) as Hclean.
  rewrite universal_newlines_id by (now apply terminated_no_return).
  unfold terminated. rewrite file_lines_terminated by (now apply clean_no_newline).
  destruct (@read_lines_store (_sections cfg) read_start Hc Hu (fun _ _ => eq_refl))
    as (st' & raw & Hr & Hs & He & Hj).
  rewrite Hr. cbn [rbind]. rewrite He. cbn [read_start rd_e].
  rewrite Hs. cbn [read_start rd_sections app]. rewrite Hj.
  destruct cfg as [df ss]. cbn in *. now subst df.
Qed.

(** ** Every store [read] builds is well formed *)

Lemma lower_char_idempotent c : lower_char (lower_char c) = lower_char c.
Proof. destruct c as [[] [] [] [] [] [] [] []]; reflexivity. Qed.

Lemma optionxform_idempotent k : optionxform (optionxform k) = optionxform k.
Proof.
  unfold optionxform, lower. rewrite map_map.
  apply map_ext. intros c. apply lower_char_idempotent.
Qed.

Lemma forallb_dict_set {V} (Q : str * V -> bool) k v (d : odict V) :
  forallb Q d = true -> Q (k, v) = true -> forallb Q (dict_set k v d) = true.
Proof.
  intros Hd Hq. induction d as [|[k' v'] d IH]; simpl in *.
  - now rewrite Hq.
  - apply andb_true_iff in Hd as [H1 H2].
    destruct (str_eqb k k') eqn:E; simpl.
    + apply str_eqb_eq in E. subst k'. now rewrite Hq, H2.
    + now rewrite H1, IH.
Qed.

Lemma forallb_dict_get {V} (Q : str * V -> bool) k v (d : odict V) :
  forallb Q d = true -> dict_get k d = Some v -> Q (k, v) = true.
Proof.
  induction d as [|[k' v'] d IH]; simpl; [discriminate|].
  intros H. apply andb_true_iff in H as [H1 H2].
  destruct (str_eqb k k') eqn:E.
  - apply str_eqb_eq in E. subst k'. intros Hx. now inversion Hx; subst.
  - now apply IH.
Qed.

Lemma reading_ok_set ss sect d :
  reading_ok ss = true ->
  unique_keys d = true ->
  forallb (fun o : str * list str => str_eqb (optionxform (fst o)) (fst o)) d = true ->
  reading_ok (dict_set sect d ss) = true.
Proof.
  unfold reading_ok. intros H Hu Hl. apply andb_true_iff in H as [H1 H2].
  rewrite unique_keys_set by assumption. simpl.
  apply forallb_dict_set; [assumption|]. simpl. now rewrite Hu, Hl.
Qed.

Lemma reading_ok_get ss sect d :
  reading_ok ss = true -> dict_get sect ss = Some d ->
  unique_keys d = true
  /\ forallb (fun o : str * list str => str_eqb (optionxform (fst o)) (fst o)) d = true.
Proof.
  unfold reading_ok. intros H Hg. apply andb_true_iff in H as [_ H].
  pose proof (@forallb_dict_get _ _ _ _ _ H Hg) as Hq. simpl in Hq.
  now apply andb_true_iff in Hq.
Qed.

Lemma reading_ok_append_line ss sect opt value :
  reading_ok ss = true -> reading_ok (append_line sect opt value ss) = true.
Proof.
  intros H. unfold append_line.
  destruct (dict_get sect ss) as [d|] eqn:Hd; [|assumption].
  destruct (dict_get opt d) as [ls|] eqn:Ho; [|assumption].
  destruct (@reading_ok_get _ _ _ H Hd) as [Hu Hl].
  apply reading_ok_set; [assumption| |].
  - now apply unique_keys_set.
  - apply forallb_dict_set; [assumption|].
    apply (@forallb_dict_get _ (fun o => str_eqb (optionxform (fst o)) (fst o)) _ _ _ Hl Ho).
Qed.

Lemma read_line_ok st line st' :
  reading_ok (rd_sections st) = true ->
  read_line st line = Ok st' ->
  reading_ok (rd_sections st') = true.
Proof.
  intros H. unfold read_line. cbv zeta.
  set (value := if is_comment_line line then [] else strip line).
  destruct (nonempty value); cbn [negb].
  2:{ destruct (rd_cursect st) as [sect|]; [|intros E; inversion E; subst; assumption].
      destruct (rd_optname st) as [opt|]; [|intros E; inversion E; subst; assumption].
      destruct (negb _ && _); intros E; inversion E; subst; simpl; auto.
      now apply reading_ok_append_line. }
  match goal with |- match ?c with Some _ => _ | None => _ end = Ok st' -> _ =>
    destruct c as [[sect opt]|] end.
  { intros E. inversion E; subst. simpl. now apply reading_ok_append_line. }
  destruct (sect_header value) as [sectname|].
  { destruct (dict_mem sectname (rd_sections st)) eqn:Hm; [discriminate|].
    intros E. inversion E; subst. simpl. unfold reading_ok in *.
    apply andb_true_iff in H as [H1 H2].
    rewrite unique_keys_app_fresh by assumption.
    rewrite forallb_app, H2. reflexivity. }
  destruct (rd_cursect st) as [sect|]; [|discriminate].
  destruct (opt_match value) as [[option optval]|].
  2:{ intros E. inversion E; subst. assumption. }
  set (cur := match dict_get sect (rd_sections st) with Some d => d | None => [] end).
  assert (Hcur : unique_keys cur = true
                 /\ forallb (fun o : str * list str => str_eqb (optionxform (fst o)) (fst o)) cur = true).
  { unfold cur. destruct (dict_get sect (rd_sections st)) as [d|] eqn:Hd; [|auto].
    now apply reading_ok_get with (ss := rd_sections st) (sect := sect). }
  destruct Hcur as [Hu Hl].
  destruct (dict_mem _ cur); [discriminate|].
  intros E. inversion E; subst. simpl.
  apply reading_ok_set; [assumption| |].
  - now apply unique_keys_set.
  - apply forallb_dict_set; [assumption|]. simpl.
    apply str_eqb_eq. apply optionxform_idempotent.
Qed.

Lemma read_lines_ok lines : forall st st',
  reading_ok (rd_sections st) = true ->
  read_lines st lines = Ok st' ->
  reading_ok (rd_sections st') = true.
Proof.
  induction lines as [|l lines IH]; simpl; intros st st' H E.
  - inversion E; subst. assumption.
  - destruct (read_line st l) as [st1|] eqn:E1; [|discriminate].
    simpl in E. eapply IH; [|exact E]. eapply read_line_ok; eauto.
Qed.

Lemma forallb_map_compose {A B} (f : A -> B) (P : B -> bool) l :
  forallb P (map f l) = forallb (fun x => P (f x)) l.
Proof. induction l as [|x l IH]; simpl; [reflexivity|]. now rewrite IH. Qed.

Lemma forallb_pointwise {A} (P Q : A -> bool) l :
  (forall x, P x = Q x) -> forallb P l = forallb Q l.
Proof.
  intros H. induction l as [|x l IH]; simpl; [reflexivity|]. now rewrite H, IH.
Qed.

Lemma unique_keys_map_values {V W} (f : str * V -> W) (d : odict V) :
  unique_keys (map (fun kv => (fst kv, f kv)) d) = unique_keys d.
Proof.
  induction d as [|[k v] d IH]; simpl; [reflexivity|].
  now rewrite IH, dict_mem_map_values.
Qed.

(** Whatever the file holds, a store that [read] returns is well
    formed. *)
Lemma read_well_formed file cfg : read file = Ok cfg -> well_formed cfg = true.
Proof.
  destruct file as [content|]; simpl.
  2:{ intros E. inversion E; subst. reflexivity. }
  unfold _read.
  destruct (read_lines _ _) as [st|] eqn:Hr; [|discriminate]. simpl.
  destruct (rd_e st); [discriminate|]. intros E. inversion E; subst. clear E.
  apply read_lines_ok in Hr; [|reflexivity].
  unfold reading_ok in Hr. apply andb_true_iff in Hr as [H1 H2].
  unfold well_formed. simpl.
  change (_join_multiline_values (rd_sections st))
    with (map (fun kv : str * odict (list str) => (fst kv, join_options (snd kv)))
              (rd_sections st)).
  rewrite (@unique_keys_map_values (odict (list str)) dict
             (fun s => join_options (snd s)) (rd_sections st)).
  rewrite H1. simpl.
  rewrite forallb_map_compose. simpl.
  rewrite <- H2. apply forallb_pointwise.
  intros [n d]. simpl. unfold join_options.
  rewrite (@unique_keys_map_values (list str) str
             (fun o => rstrip (join_lines (snd o))) d).
  f_equal. unfold lowercase_keys. rewrite forallb_map_compose. reflexivity.
Qed.

End RoundTripFacts.
Export RoundTripFacts.

(* ================================================================== *)
(** * Facts about the rotation and about whole runs *)
(* ================================================================== *)

Module MainFacts.
Import configparser datetime Effects awsmfa Props.
Local Open Scope monad_scope.

(** ** [dict_del] *)

Lemma dict_del_filter {V} k (d : odict V) :
  dict_del k d = filter (fun s => negb (str_eqb k (fst s))) d.
Proof.
  induction d as [|[k' v'] d IH]; simpl; [reflexivity|].
  destruct (str_eqb k k'); simpl; now rewrite IH.
Qed.

Lemma dict_del_app {V} k (d e : odict V) :
  dict_del k (d ++ e) = dict_del k d ++ dict_del k e.
Proof. rewrite !dict_del_filter. apply filter_app. Qed.

Lemma dict_del_twice {V} k (d : odict V) : dict_del k (dict_del k d) = dict_del k d.
Proof.
  induction d as [|[k' v'] d IH]; simpl; [reflexivity|].
  destruct (str_eqb k k') eqn:E; simpl; [exact IH|]. now rewrite E, IH.
Qed.

Lemma dict_mem_del {V} k k' (d : odict V) :
  dict_mem k' d = false -> dict_mem k' (dict_del k d) = false.
Proof.
  unfold dict_mem. induction d as [|[k2 v2] d IH]; simpl; [reflexivity|].
  destruct (str_eqb k' k2) eqn:E; [discriminate|]. intros H.
  destruct (str_eqb k k2); simpl; [auto|]. rewrite E. auto.
Qed.

Lemma unique_keys_del {V} k (d : odict V) :
  unique_keys d = true -> unique_keys (dict_del k d) = true.
Proof.
  induction d as [|[k2 v2] d IH]; simpl; [reflexivity|].
  intros H. apply andb_true_iff in H as [H1 H2].
  destruct (str_eqb k k2); simpl; [auto|].
  apply negb_true_iff in H1. rewrite (dict_mem_del k _ _ H1). simpl. auto.
Qed.

Lemma forallb_del {V} (P : str * V -> bool) k (d : odict V) :
  forallb P d = true -> forallb P (dict_del k d) = true.
Proof.
  induction d as [|[k2 v2] d IH]; simpl; [reflexivity|].
  intros H. apply andb_true_iff in H as [H1 H2].
  destruct (str_eqb k k2); simpl; [auto|]. rewrite H1. auto.
Qed.

(** ** What [updated_credentials] depends on *)

(** The store enters [updated_credentials] through its defaults and
    its sections other than the target. *)
Lemma updated_credentials_ext args cfg1 cfg2 creds :
  _defaults cfg1 = _defaults cfg2 ->
  dict_del (target_profile args) (_sections cfg1)
  = dict_del (target_profile args) (_sections cfg2) ->
  updated_credentials args cfg1 creds = updated_credentials args cfg2 creds.
Proof.
  intros H1 H2. unfold updated_credentials, remove_section. now rewrite H1, H2.
Qed.

Lemma add_after_remove section cfg :
  add_section section (remove_section section cfg)
  = Ok {| _defaults := _defaults cfg;
          _sections := dict_del section (_sections cfg) ++ [(section, [])] |}.
Proof.
  unfold add_section, has_section, remove_section, dict_mem. simpl.
  now rewrite dict_get_del_same.
Qed.

(** Without the identity profile [items] raises and nothing is set. *)
Lemma updated_credentials_no_identity args cfg creds :
  dict_mem (identity_profile args) (_sections cfg) = false ->
  identity_profile args <> target_profile args ->
  updated_credentials args cfg creds = Raised (NoSectionError (identity_profile args)).
Proof.
  intros Hm Hne. unfold updated_credentials. rewrite add_after_remove.
  unfold rbind at 1. unfold items. simpl _sections.
  rewrite dict_get_app, dict_get_del_other by assumption.
  unfold dict_mem in Hm. destruct (dict_get _ (_sections cfg)); [discriminate|].
  simpl. apply str_eqb_neq in Hne. rewrite Hne. reflexivity.
Qed.

(** ** Values without a percent sign *)

Lemma drop_escaped_percent_plain v : plain v = true -> drop_escaped_percent v = v.
Proof.
  unfold plain, contains. induction v as [|c v IH]; [reflexivity|].
  simpl existsb. rewrite negb_true_iff, orb_false_iff. intros [Hc Hv].
  cbn [drop_escaped_percent]. destruct v as [|d v]; [reflexivity|].
  rewrite Hc. cbn [andb]. f_equal. apply IH. now rewrite Hv.
Qed.

Lemma keycre_sub_plain v : plain v = true -> keycre_sub 0 v = v.
Proof.
  unfold plain, contains. induction v as [|c v IH]; [reflexivity|].
  simpl existsb. rewrite negb_true_iff, orb_false_iff. intros [Hc Hv].
  cbn [keycre_sub].
  assert (E : keycre_match (c :: v) = None).
  { unfold keycre_match. destruct v as [|o v]; [reflexivity|]. now rewrite Hc. }
  rewrite E. f_equal. apply IH. now rewrite Hv.
Qed.

Lemma before_set_plain v : plain v = true -> before_set v = Ok v.
Proof.
  intros H. unfold before_set.
  rewrite drop_escaped_percent_plain, keycre_sub_plain by assumption.
  unfold plain in H. apply negb_true_iff in H. now rewrite H.
Qed.

Lemma get_all_all_plain d keys :
  forallb (fun kv => plain (snd kv)) keys = true -> get_all d keys = Ok keys.
Proof.
  induction keys as [|[k v] keys IH]; simpl; [reflexivity|].
  intros H. apply andb_true_iff in H as [Hv H].
  rewrite before_get_plain by (unfold plain in Hv; now apply negb_true_iff in Hv).
  simpl. now rewrite IH.
Qed.

(** [set] on the last section, for a value it accepts. *)
Lemma set_last_section_plain section option value defaults ss d :
  section <> [] ->
  dict_mem section ss = false ->
  plain value = true ->
  set section option value {| _defaults := defaults; _sections := ss ++ [(section, d)] |}
  = Ok {| _defaults := defaults;
          _sections := ss ++ [(section, dict_set (optionxform option) value d)] |}.
Proof.
  intros Hne Hm Hv. unfold set.
  assert (E : (if nonempty value then before_set value else Ok value) = Ok value).
  { destruct (nonempty value); [now apply before_set_plain|reflexivity]. }
  rewrite E. unfold rbind. destruct section as [|c section]; [contradiction|].
  cbn [nonempty negb]. cbn [_sections _defaults].
  now rewrite dict_get_last, dict_set_last by assumption.
Qed.

Lemma fold_set_last_section_plain section kvs defaults ss : forall d,
  section <> [] ->
  dict_mem section ss = false ->
  forallb (fun kv => plain (snd kv)) kvs = true ->
  fold_left (fun acc kv => rbind acc (fun c => set section (fst kv) (snd kv) c)) kvs
            (Ok {| _defaults := defaults; _sections := ss ++ [(section, d)] |})
  = Ok {| _defaults := defaults;
          _sections := ss ++ [(section,
              fold_left (fun acc kv => dict_set (optionxform (fst kv)) (snd kv) acc)
                        kvs d)] |}.
Proof.
  induction kvs as [|[k v] kvs IH]; intros d Hne Hm H; [reflexivity|].
  simpl in H. apply andb_true_iff in H as [Hv H].
  cbn [fold_left]. unfold rbind at 2. cbn [fst snd].
  rewrite set_last_section_plain by assumption. now apply IH.
Qed.

(** ** [isoformat] *)

Lemma digit_plain n : Ascii.eqb (chr (48 + n mod 10)) "%"%char = false.
Proof.
  assert (H : n mod 10 < 10) by (apply Nat.mod_upper_bound; discriminate).
  destruct (n mod 10) as [|[|[|[|[|[|[|[|[|[|k]]]]]]]]]]; try reflexivity; lia.
Qed.

Lemma digits_upto_plain fuel : forall n acc,
  plain acc = true -> plain (digits_upto fuel n acc) = true.
Proof.
  induction fuel as [|fuel IH]; intros n acc H; [exact H|].
  cbn [digits_upto]. cbv zeta.
  assert (H' : plain (chr (48 + n mod 10) :: acc) = true).
  { unfold plain, contains in *. cbn [existsb]. now rewrite digit_plain. }
  destruct (n / 10 =? 0); [exact H'|]. now apply IH.
Qed.

Lemma plain_app a b : plain (a ++ b) = plain a && plain b.
Proof. unfold plain. rewrite contains_app. apply negb_orb. Qed.

Lemma zfill_plain width n : plain (zfill width n) = true.
Proof.
  unfold zfill, str_of_nat. rewrite plain_app, digits_upto_plain by reflexivity.
  rewrite andb_true_r. induction (width - _) as [|k IH]; [reflexivity|].
  unfold plain, contains in *. simpl. exact IH.
Qed.

Lemma isoformat_plain dt : plain (isoformat dt) = true.
Proof.
  unfold isoformat. rewrite !plain_app, !zfill_plain.
  destruct (microsecond dt =? 0); destruct (utcoffset dt <? 0)%Z;
    rewrite ?plain_app, ?zfill_plain; reflexivity.
Qed.

(** ** [set] with an empty section name *)

Lemma before_set_value v v' : before_set v = Ok v' -> v' = v.
Proof.
  unfold before_set. destruct (contains _ _); [discriminate|]. intros H. now inversion H.
Qed.

Lemma set_defaults option value cfg cfg' :
  set [] option value cfg = Ok cfg' ->
  cfg' = {| _defaults := dict_set (optionxform option) value (_defaults cfg);
            _sections := _sections cfg |}.
Proof.
  unfold set. destruct (nonempty value).
  - destruct (before_set value) as [v'|] eqn:E; [|discriminate].
    apply before_set_value in E. subst v'. simpl. intros H. now inversion H.
  - simpl. intros H. now inversion H.
Qed.

Lemma fold_set_defaults kvs : forall cfg cfg',
  fold_left (fun acc kv => rbind acc (fun c => set [] (fst kv) (snd kv) c)) kvs (Ok cfg)
    = Ok cfg' ->
  cfg' = {| _defaults := fold_left (fun acc kv => dict_set (optionxform (fst kv)) (snd kv) acc)
                                   kvs (_defaults cfg);
            _sections := _sections cfg |}.
Proof.
  induction kvs as [|[k v] kvs IH]; intros cfg cfg' H.
  - simpl in *. inversion H. now destruct cfg'.
  - cbn [fold_left] in *. unfold rbind at 2 in H. cbn [fst snd] in H.
    destruct (set [] k v cfg) as [c1|e] eqn:E.
    + apply set_defaults in E. subst c1. apply IH in H. exact H.
    + exfalso. clear -H. induction kvs as [|kv kvs IHk]; simpl in H; [discriminate|auto].
Qed.

(** What [updated_credentials] leaves in the parser when the target
    profile has the empty name: the four fields and the items of the
    identity profile are in [_defaults], and the new section is empty. *)
Lemma updated_credentials_empty_target args cfg creds cfg' :
  target_profile args = [] ->
  updated_credentials args cfg creds = Ok cfg' ->
  exists kvs,
    cfg' = {| _defaults :=
                with_temporary_credentials creds
                  (fold_left (fun acc kv => dict_set (optionxform (fst kv)) (snd kv) acc)
                             kvs (_defaults cfg));
              _sections := dict_del [] (_sections cfg) ++ [([], [])] |}.
Proof.
  intros Ht. unfold updated_credentials. rewrite add_after_remove, Ht.
  unfold rbind at 1.
  destruct (items _ _) as [kvs|] eqn:Hitems; [|discriminate]. unfold rbind at 1.
  intros H. exists kvs.
  destruct (fold_left _ kvs _) as [c1|] eqn:H1; [|discriminate].
  apply fold_set_defaults in H1. subst c1. unfold rbind at 1 in H.
  destruct (set _ _ (AccessKeyId creds) _) as [c2|] eqn:H2; [|discriminate].
  apply set_defaults in H2. subst c2. unfold rbind at 1 in H.
  destruct (set _ _ (SecretAccessKey creds) _) as [c3|] eqn:H3; [|discriminate].
  apply set_defaults in H3. subst c3. unfold rbind at 1 in H.
  destruct (set _ _ (SessionToken creds) _) as [c4|] eqn:H4; [|discriminate].
  apply set_defaults in H4. subst c4.
  apply set_defaults in H. exact H.
Qed.

(** ** Keys of the target profile *)

Lemma lowercase_keys_set k v d :
  lowercase_keys d = true -> optionxform k = k -> lowercase_keys (dict_set k v d) = true.
Proof.
  unfold lowercase_keys. intros H Hk.
  induction d as [|[k2 v2] d IH]; simpl in *.
  - rewrite Hk, str_eqb_refl. reflexivity.
  - apply andb_true_iff in H as [H1 H2].
    destruct (str_eqb k k2); simpl; rewrite H1; auto.
Qed.

Lemma fold_dict_set_keys (kvs : dict) : forall d,
  unique_keys d = true -> lowercase_keys d = true ->
  let d' := fold_left (fun acc kv => dict_set (optionxform (fst kv)) (snd kv) acc) kvs d in
  unique_keys d' = true /\ lowercase_keys d' = true.
Proof.
  induction kvs as [|[k v] kvs IH]; intros d Hu Hl; simpl; [auto|].
  apply IH.
  - now apply unique_keys_set.
  - apply lowercase_keys_set; [assumption|apply optionxform_idempotent].
Qed.

Lemma with_temporary_credentials_keys creds d :
  unique_keys d = true -> lowercase_keys d = true ->
  unique_keys (with_temporary_credentials creds d) = true
  /\ lowercase_keys (with_temporary_credentials creds d) = true.
Proof.
  intros Hu Hl. unfold with_temporary_credentials. split.
  - repeat apply unique_keys_set. exact Hu.
  - repeat (apply lowercase_keys_set; [|reflexivity]). exact Hl.
Qed.

Lemma dict_set_not_empty {V} k (v : V) d : dict_set k v d <> [].
Proof.
  destruct d as [|[k2 v2] d]; simpl; [discriminate|].
  destruct (str_eqb k k2); discriminate.
Qed.

(** ** [persist] *)

Lemma persist_frame args cfg w r w' q :
  persist args cfg w = (r, w') ->
  q <> aws_credentials args -> q <> aws_credentials args ++ py ".tmp" ->
  fs w' q = fs w q.
Proof.
  intros H Hq Ht. destruct (persist_run _ _ _ H) as (evs & L & F & E). simpl in E.
  rewrite F. destruct r as [u|e].
  - subst evs. set (tmp := aws_credentials args ++ py ".tmp") in *.
    change (EvOpenW tmp :: map (EvWrite tmp) (write cfg)
            ++ [EvClose tmp; EvRename tmp (aws_credentials args)])
      with (EvOpenW tmp :: map (EvWrite tmp) (write cfg)
            ++ [EvClose tmp] ++ [EvRename tmp (aws_credentials args)]).
    rewrite app_assoc, app_comm_cons, replay_app.
    remember (replay (EvOpenW tmp :: map (EvWrite tmp) (write cfg) ++ [EvClose tmp]) (fs w))
      as f eqn:Ef.
    assert (Hf : f q = fs w q).
    { rewrite Ef. apply replay_on_file with (p := tmp); [|exact Ht].
      simpl. rewrite str_eqb_refl. simpl. rewrite forallb_app. simpl.
      rewrite str_eqb_refl, andb_true_r.
      clear. induction (write cfg); simpl; auto. now rewrite str_eqb_refl. }
    unfold replay. simpl. destruct (f tmp); [|exact Hf].
    rewrite !fs_set_other by assumption. exact Hf.
  - now apply replay_on_file with (p := aws_credentials args ++ py ".tmp").
Qed.

(** No scheduled fault: every write succeeds. *)
Lemma write_all_no_fault p chunks : forall w,
  faults w = [] ->
  fst (write_all p chunks w) = Ok tt /\ faults (snd (write_all p chunks w)) = [].
Proof.
  induction chunks as [|c chunks IH]; intros w H; simpl; [auto|].
  unfold bind, file_op. rewrite H. apply IH. reflexivity.
Qed.

Lemma persist_no_fault args cfg w :
  faults w = [] -> fst (persist args cfg w) = Ok tt.
Proof.
  intros H. unfold persist, bind at 1, file_op at 1. rewrite H.
  unfold bind, try_finally.
  match goal with |- context [write_all ?p ?c ?w1] =>
    destruct (write_all_no_fault p c w1 eq_refl) as [A B];
    destruct (write_all p c w1) as [r w2] end.
  simpl in A, B. subst r. unfold file_op. rewrite B. simpl. reflexivity.
Qed.

(** After a successful [persist] the temporary file is gone. *)
Lemma persist_ok_tmp args cfg w u w' :
  persist args cfg w = (Ok u, w') ->
  fs w' (aws_credentials args ++ py ".tmp") = None.
Proof.
  intros H. destruct (persist_run _ _ _ H) as (evs & L & F & E). simpl in E.
  rewrite F, E.
  set (tmp := aws_credentials args ++ py ".tmp").
  change (EvOpenW tmp :: map (EvWrite tmp) (write cfg)
          ++ [EvClose tmp; EvRename tmp (aws_credentials args)])
    with (EvOpenW tmp :: map (EvWrite tmp) (write cfg)
          ++ [EvClose tmp] ++ [EvRename tmp (aws_credentials args)]).
  rewrite app_assoc, app_comm_cons, replay_app.
  pose proof (replay_script_tmp tmp (write cfg) (fs w)) as S.
  remember (replay (EvOpenW tmp :: map (EvWrite tmp) (write cfg) ++ [EvClose tmp]) (fs w))
    as f.
  unfold replay. simpl. rewrite S. apply fs_set_same.
Qed.

(** ** The device lookup and the prompt *)

Lemma find_mfa_logs_resolving svc serial : only_logs resolving (find_mfa_for_user svc serial).
Proof.
  unfold find_mfa_for_user.
  destruct (truthy serial); [apply only_logs_ret|].
  apply only_logs_bind; [now apply only_logs_call|]. intros user.
  apply only_logs_bind.
  - destruct (endswith _ _).
    + apply only_logs_bind; [now apply only_logs_call|]. intros; apply only_logs_ret.
    + apply only_logs_bind; [now apply only_logs_call|]. intros; apply only_logs_ret.
  - intros [devices serials]. simpl. destruct serials as [|first rest]; [apply only_logs_ret|].
    apply only_logs_bind; [|intros; apply only_logs_ret].
    destruct (1 <? _); [|apply only_logs_ret].
    apply only_logs_bind; [apply only_logs_lift|]. intros n.
    now apply only_logs_emit.
Qed.

(** A token code that the prompt loop returns has six characters. *)
Lemma ask_token_code_length fuel : forall w code w',
  length (stdin w) <= fuel ->
  ask_token_code fuel w = (Ok code, w') -> length code = 6.
Proof.
  induction fuel as [|fuel IH]; intros w code w' Hf H.
  - simpl in H. unfold getpass in H. destruct (stdin w) eqn:E; [discriminate|].
    simpl in Hf. lia.
  - simpl in H. unfold bind, getpass in H. destruct (stdin w) as [|l ls] eqn:E.
    + discriminate.
    + destruct (length l =? 6) eqn:E6.
      * inversion H; subst. now apply Nat.eqb_eq.
      * apply IH in H; auto. simpl in *. lia.
Qed.

Lemma prompt_token_code_length w code w' :
  prompt_token_code w = (Ok code, w') -> length code = 6.
Proof. unfold prompt_token_code. now apply ask_token_code_length. Qed.

(** The prompt loop skips the lines that do not have six characters
    and returns the first that has. *)
Lemma ask_token_code_skips fuel : forall w skipped code rest,
  stdin w = skipped ++ code :: rest ->
  forallb (fun l => negb (length l =? 6)) skipped = true ->
  length code = 6 ->
  length skipped <= fuel ->
  ask_token_code fuel w
  = (Ok code, {| fs := fs w; stdin := rest; faults := faults w;
                 log := log w ++ repeat (EvGetpass (py "MFA Token Code: ")) (S (length skipped)) |}).
Proof.
  induction fuel as [|fuel IH]; intros w skipped code rest Hin Hsk Hc Hf.
  - destruct skipped; [|simpl in Hf; lia]. simpl in *.
    unfold getpass. rewrite Hin. reflexivity.
  - simpl. unfold bind, getpass. rewrite Hin.
    destruct skipped as [|l sk]; simpl.
    + apply Nat.eqb_eq in Hc. rewrite Hc. reflexivity.
    + simpl in Hsk. apply andb_true_iff in Hsk as [Hl Hsk].
      apply negb_true_iff in Hl. rewrite Hl.
      rewrite (IH _ sk code rest); simpl; auto; [|simpl in Hf; lia].
      rewrite <- app_assoc. reflexivity.
Qed.

(** When no line has six characters the loop ends with [EOFError],
    having prompted once more than there are lines. *)
Lemma ask_token_code_eof fuel : forall w,
  forallb (fun l => negb (length l =? 6)) (stdin w) = true ->
  length (stdin w) <= fuel ->
  ask_token_code fuel w
  = (Raised EOFError,
     {| fs := fs w; stdin := []; faults := faults w;
        log := log w ++ repeat (EvGetpass (py "MFA Token Code: ")) (S (length (stdin w))) |}).
Proof.
  induction fuel as [|fuel IH]; intros w Hsk Hf.
  - destruct (stdin w) eqn:E; [|simpl in Hf; lia]. simpl.
    unfold getpass. rewrite E. reflexivity.
  - simpl. unfold bind, getpass. destruct (stdin w) as [|l ls] eqn:E; simpl.
    + reflexivity.
    + simpl in Hsk. apply andb_true_iff in Hsk as [Hl Hsk].
      apply negb_true_iff in Hl. rewrite Hl.
      rewrite IH; simpl; auto; [|simpl in Hf; lia].
      rewrite <- app_assoc. reflexivity.
Qed.

Lemma find_mfa_keeps_stdin svc serial w :
  stdin (snd (find_mfa_for_user svc serial w)) = stdin w.
Proof.
  unfold find_mfa_for_user.
  destruct (truthy serial); [reflexivity|].
  unfold call, bind, emit, lift, ret, print, emit. simpl.
  destruct (get_user svc) as [user|]; [|reflexivity].
  destruct (endswith _ _); simpl.
  - destruct (current_user_mfa_devices svc) as [[|d1 [|d2 ds]]|]; reflexivity.
  - destruct (list_mfa_devices svc _) as [r|]; [|reflexivity]. simpl.
    destruct (MFADevices r) as [|d1 [|d2 ds]]; reflexivity.
Qed.

(** The code the prompt loop returns is the first typed line that has
    six characters. *)
Lemma ask_token_code_find fuel : forall w code w',
  length (stdin w) <= fuel ->
  ask_token_code fuel w = (Ok code, w') ->
  find (fun l => length l =? 6) (stdin w) = Some code.
Proof.
  induction fuel as [|fuel IH]; intros w code w' Hf H.
  - simpl in H. unfold getpass in H. destruct (stdin w) eqn:E; [discriminate|].
    simpl in Hf. lia.
  - simpl in H. unfold bind, getpass in H. destruct (stdin w) as [|l ls] eqn:E.
    + discriminate.
    + simpl. destruct (length l =? 6) eqn:E6.
      * now inversion H.
      * apply IH in H; [exact H|simpl in *; lia].
Qed.

Lemma prompt_token_code_find w code w' :
  prompt_token_code w = (Ok code, w') ->
  find (fun l => length l =? 6) (stdin w) = Some code.
Proof. unfold prompt_token_code. now apply ask_token_code_find. Qed.

(** The two shapes of a run of [main]: it ends before the STS call,
    having logged neither an STS call nor a file operation; or it
    resolves a serial, obtains a token code and sends one request, and
    then either handles the exception or hands the credentials to
    [update_credentials_file]. *)
Lemma main_run VERSION svc args w r w' :
  main VERSION svc args w = (r, w') ->
  (exists evs,
      log w' = log w ++ evs /\ forallb harmless evs = true
      /\ fs w' = fs w /\ faults w' = faults w
      /\ (version args = false -> r <> Ok OK))
  \/ (version args = false
      /\ exists cfg evs1 evs2 serial token w2,
           read (fs w (aws_credentials args)) = Ok cfg
           /\ fst (find_mfa_for_user svc (serial_number args) w) = Ok (Some serial)
           /\ serial <> []
           /\ forallb resolving evs1 = true
           /\ forallb is_getpass evs2 = true
           /\ match token_code args with
              | Some code => token = code /\ evs2 = []
              | None => length token = 6
                        /\ find (fun l => length l =? 6) (stdin w) = Some token
              end
           /\ log w2 = log w ++ evs1 ++ evs2 ++ [EvSts (sts_request args serial token)]
           /\ fs w2 = fs w /\ faults w2 = faults w
           /\ match sts svc (sts_request args serial token) with
              | Raised e =>
                  fs w' = fs w /\ faults w' = faults w
                  /\ (log w' = log w2 \/ log w' = log w2 ++ [EvPrintExn stderr e])
                  /\ r = handled e
              | Ok creds =>
                  exists r3,
                    update_credentials_file args cfg creds
                      {| fs := fs w2; stdin := stdin w2; faults := faults w2;
                         log := log w2 ++ [EvPrintRemaining (Expiration creds) (now svc)] |}
                    = (r3, w')
                    /\ r = match r3 with Ok _ => Ok OK | Raised e => Raised e end
              end).
Proof.
  intros Hrun. unfold main in Hrun.
  destruct (version args) eqn:Hv.
  { left. inversion Hrun; subst. simpl. exists [EvPrint stdout VERSION].
    repeat split; auto. discriminate. }
  unfold bind at 1 in Hrun. simpl in Hrun.
  unfold bind at 1 in Hrun. unfold lift at 1 in Hrun.
  destruct (read _) as [credentials|e0] eqn:Hread.
  2:{ left. inversion Hrun; subst. exists []. rewrite app_nil_r.
      repeat split; auto. discriminate. }
  destruct (profile_found svc _); simpl in Hrun.
  2:{ left. inversion Hrun; subst. simpl.
      exists [EvPrintExn stderr (ProfileNotFound (identity_profile args));
              EvPrintAvailableProfiles].
      rewrite <- app_assoc. repeat split; auto. discriminate. }
  unfold bind at 1 in Hrun.
  destruct (find_mfa_logs_resolving svc (serial_number args) w) as (F1 & G1 & evs1 & L1 & P1).
  pose proof (find_mfa_keeps_stdin svc (serial_number args) w) as S1.
  assert (Q1 : forallb harmless evs1 = true).
  { rewrite forallb_forall in *. intros ev Hin. apply P1 in Hin. now destruct ev. }
  destruct (find_mfa_for_user svc (serial_number args) w) as [[serial|e1] w1]; simpl in *.
  2:{ left. inversion Hrun; subst. exists evs1. repeat split; auto. discriminate. }
  destruct serial as [[|c serial]|].
  1,3: left; inversion Hrun; subst; simpl;
       exists (evs1 ++ [EvPrint stderr (py "There are no MFA devices associated with this user.")]);
       rewrite L1, <- app_assoc, forallb_app, Q1; repeat split; auto; discriminate.
  unfold bind at 1 in Hrun.
  assert (Htok : exists r2 w2 evs2, (match token_code args with
                     | Some code => ret code | None => prompt_token_code end) w1 = (r2, w2)
                   /\ fs w2 = fs w1 /\ faults w2 = faults w1
                   /\ log w2 = log w1 ++ evs2 /\ forallb is_getpass evs2 = true
                   /\ forall tk, r2 = Ok tk ->
                        match token_code args with
                        | Some code => tk = code /\ evs2 = []
                        | None => length tk = 6
                                  /\ find (fun l => length l =? 6) (stdin w1) = Some tk
                        end).
  { destruct (token_code args) as [code|].
    - exists (Ok code), w1, []. rewrite app_nil_r.
      do 5 (split; [reflexivity|]).
      intros tk E. inversion E; subst. auto.
    - destruct (only_logs_prompt_token_code w1) as (F2 & G2 & evs2 & L2 & P2).
      destruct (prompt_token_code w1) as [r2 w2] eqn:Hp. exists r2, w2, evs2. simpl in *.
      do 5 (split; [solve [auto]|]). intros tk E. subst r2.
      split; [now apply prompt_token_code_length in Hp
             |now apply prompt_token_code_find in Hp]. }
  destruct Htok as (r2 & w2 & evs2 & Htok & F2 & G2 & L2 & P2 & T2).
  rewrite Htok in Hrun. clear Htok.
  assert (Q2 : forallb harmless evs2 = true).
  { rewrite forallb_forall in *. intros ev Hin. apply P2 in Hin. now destruct ev. }
  destruct r2 as [token|e2].
  2:{ left. inversion Hrun; subst. exists (evs1 ++ evs2).
      rewrite L2, L1, <- app_assoc, forallb_app, Q1, Q2.
      repeat split; auto; try congruence. }
  right. split; [reflexivity|].
  exists credentials, evs1, evs2, (c :: serial), token,
    {| fs := fs w2; stdin := stdin w2; faults := faults w2;
       log := log w2 ++ [EvSts (sts_request args (c :: serial) token)] |}.
  split; [reflexivity|]. split; [reflexivity|]. split; [discriminate|].
  split; [exact P1|]. split; [exact P2|].
  split. { specialize (T2 token eq_refl). rewrite S1 in T2. exact T2. }
  split; [simpl; now rewrite L2, L1, <- !app_assoc|].
  split; [simpl; congruence|]. split; [simpl; congruence|].
  unfold bind at 1 in Hrun. unfold try_except, call, bind, emit, lift in Hrun.
  simpl in Hrun.
  destruct (sts svc (sts_request args (c :: serial) token)) as [resp|e] eqn:Hsts.
  - simpl in Hrun.
    match type of Hrun with context [update_credentials_file ?a ?b ?c ?w] =>
      destruct (update_credentials_file a b c w) as [r3 w3] eqn:Hup end.
    exists r3. simpl. destruct r3; inversion Hrun; subst; auto.
  - simpl. destruct e; simpl in Hrun;
      try (inversion Hrun; subst; simpl; repeat split; auto; congruence).
    destruct (str_eqb code (py "AccessDenied")) eqn:Hcode; simpl in Hrun;
      inversion Hrun; subst; simpl; rewrite ?Hcode; repeat split; auto; congruence.
Qed.

(** ** Around the STS call *)

(** The two ways [update_credentials_file] runs: the parser calls
    raise and nothing else happens, or the new store is persisted. *)
Lemma update_credentials_file_run args cfg creds w r w' :
  update_credentials_file args cfg creds w = (r, w') ->
  match updated_credentials args cfg creds with
  | Raised e => r = Raised e /\ w' = w
  | Ok cfg' =>
      exists ru, persist args cfg' w = (ru, w')
                 /\ r = match ru with Ok _ => Ok cfg' | Raised e => Raised e end
  end.
Proof.
  unfold update_credentials_file, bind, lift, ret.
  destruct (updated_credentials args cfg creds) as [cfg'|e].
  - destruct (persist args cfg' w) as [[u|e] w1]; intros H; inversion H; subst;
      eexists; split; reflexivity.
  - intros H; inversion H; auto.
Qed.

Lemma handled_not_ok e : handled e <> Ok OK.
Proof.
  destruct e; simpl; try discriminate. destruct (str_eqb _ _); discriminate.
Qed.

Lemma replay_not_file_op evs f :
  forallb (fun ev => negb (is_file_op ev)) evs = true -> replay evs f = f.
Proof.
  revert f. induction evs as [|ev evs IH]; intros f H; [reflexivity|].
  simpl in H. apply andb_true_iff in H as [H1 H2].
  change (replay (ev :: evs) f) with (replay evs (apply_event ev f)).
  rewrite IH by assumption. destruct ev; simpl in *; try reflexivity; discriminate.
Qed.

Lemma harmless_not_file_op evs :
  forallb harmless evs = true -> forallb (fun ev => negb (is_file_op ev)) evs = true.
Proof.
  intros H. rewrite forallb_forall in *. intros ev Hin. apply H in Hin.
  unfold harmless in Hin. now apply andb_true_iff in Hin as [_ Hin].
Qed.

(** The trace of a run of [main] from a world with an empty log. *)
Lemma main_trace VERSION svc args files typed faulty :
  let w0 := initial files typed faulty in
  let run := main VERSION svc args w0 in
  (forallb harmless (log (snd run)) = true
   /\ fs (snd run) = files /\ faults (snd run) = faulty
   /\ (version args = false -> fst run <> Ok OK))
  \/ (version args = false
      /\ exists cfg evs1 evs2 serial token post,
           read (files (aws_credentials args)) = Ok cfg
           /\ fst (find_mfa_for_user svc (serial_number args) w0) = Ok (Some serial)
           /\ serial <> []
           /\ forallb resolving evs1 = true
           /\ forallb is_getpass evs2 = true
           /\ match token_code args with
              | Some code => token = code /\ evs2 = []
              | None => length token = 6
                        /\ find (fun l => length l =? 6) typed = Some token
              end
           /\ log (snd run) = evs1 ++ evs2 ++ EvSts (sts_request args serial token) :: post
           /\ match sts svc (sts_request args serial token) with
              | Raised e =>
                  (post = [] \/ post = [EvPrintExn stderr e])
                  /\ fs (snd run) = files /\ faults (snd run) = faulty
                  /\ fst run = handled e
              | Ok creds =>
                  exists ops,
                    post = EvPrintRemaining (Expiration creds) (now svc) :: ops
                    /\ forallb is_file_op ops = true
                    /\ fs (snd run) = replay ops files
                    /\ match updated_credentials args cfg creds with
                       | Raised e =>
                           ops = [] /\ faults (snd run) = faulty /\ fst run = Raised e
                       | Ok cfg' =>
                           exists wp ru,
                             persist args cfg' wp = (ru, snd run)
                             /\ fs wp = files /\ faults wp = faulty
                             /\ fst run = match ru with
                                          | Ok _ => Ok OK
                                          | Raised e => Raised e
                                          end
                       end
              end).
Proof.
  intros w0 run.
  destruct (@main_run VERSION svc args w0 _ _ (run_eq (main VERSION svc args) w0))
    as [(evs & L & P & F & G & N)
       |(Hv & cfg & evs1 & evs2 & serial & token & w2 & Hread & Hfind & Hne & P1 & P2
         & T & L2 & F2 & G2 & Hsts)].
  - left. fold run in L, F, G, N. simpl in L. rewrite L. auto.
  - right. split; [exact Hv|]. fold run in Hsts. simpl in L2, F2, G2.
    destruct (sts svc (sts_request args serial token)) as [creds|e] eqn:E.
    + destruct Hsts as (r3 & Hup & Hr3).
      destruct (only_files_update args cfg creds
                  {| fs := fs w2; stdin := stdin w2; faults := faults w2;
                     log := log w2 ++ [EvPrintRemaining (Expiration creds) (now svc)] |})
        as (ops & Lo & Po & Fo).
      rewrite Hup in Lo, Fo. simpl in Lo, Fo.
      exists cfg, evs1, evs2, serial, token,
        (EvPrintRemaining (Expiration creds) (now svc) :: ops).
      rewrite E.
      do 6 (split; [assumption|]).
      split. { rewrite Lo, L2, <- !app_assoc. reflexivity. }
      exists ops. split; [reflexivity|]. split; [exact Po|].
      split. { rewrite Fo, F2. reflexivity. }
      pose proof (update_credentials_file_run _ _ _ _ Hup) as U.
      destruct (updated_credentials args cfg creds) as [cfg'|e].
      * destruct U as (ru & Hp & Er3).
        eexists _, ru. split; [exact Hp|]. simpl. do 2 (split; [assumption|]).
        rewrite Hr3, Er3. now destruct ru.
      * destruct U as [Er3 Ew]. rewrite Hr3, Er3. rewrite Ew in Lo |- *. simpl in *.
        split; [|split; [assumption|reflexivity]].
        rewrite <- (app_nil_r (log w2 ++ _)) in Lo at 1.
        apply app_inv_head in Lo. now symmetry.
    + destruct Hsts as (F3 & G3 & L3 & Hr3).
      destruct L3 as [L3|L3].
      * exists cfg, evs1, evs2, serial, token, []. rewrite E.
        do 6 (split; [assumption|]).
        split; [now rewrite L3, L2|]. auto.
      * exists cfg, evs1, evs2, serial, token, [EvPrintExn stderr e]. rewrite E.
        do 6 (split; [assumption|]).
        split; [rewrite L3, L2, <- !app_assoc; reflexivity|]. auto.
Qed.

Lemma request_token_sts_request args serial token :
  request_token (sts_request args serial token) = token.
Proof.
  unfold sts_request. destruct (role_to_assume args) as [role|]; [|reflexivity].
  destruct (nonempty role); reflexivity.
Qed.

Lemma request_serial_sts_request args serial token :
  request_serial (sts_request args serial token) = serial.
Proof.
  unfold sts_request. destruct (role_to_assume args) as [role|]; [|reflexivity].
  destruct (nonempty role); reflexivity.
Qed.

Lemma split_at_marked (P : Event -> bool) l1 x l2 : forall pre y post,
  l1 ++ x :: l2 = pre ++ y :: post ->
  forallb (fun ev => negb (P ev)) l1 = true ->
  forallb (fun ev => negb (P ev)) l2 = true ->
  P x = true -> P y = true ->
  pre = l1 /\ y = x /\ post = l2.
Proof.
  induction l1 as [|a l1 IH]; intros pre y post E H1 H2 Hx Hy.
  - destruct pre as [|b pre]; simpl in E.
    + inversion E; subst. auto.
    + inversion E; subst. exfalso.
      assert (In y (pre ++ y :: post)) as Hin by (apply in_elt).
      rewrite forallb_forall in H2. apply H2 in Hin. rewrite Hy in Hin. discriminate.
  - simpl in H1. apply andb_true_iff in H1 as [Ha H1].
    destruct pre as [|b pre]; simpl in E.
    + inversion E; subst. rewrite Hy in Ha. discriminate.
    + inversion E; subst. destruct (IH pre y post) as (A & B & C); auto.
      subst. auto.
Qed.

Lemma prefix_without (P : Event -> bool) l : forall rest pre y post,
  l ++ rest = pre ++ y :: post ->
  forallb (fun ev => negb (P ev)) l = true -> P y = true ->
  exists mid, pre = l ++ mid.
Proof.
  induction l as [|a l IH]; intros rest pre y post E H Hy.
  - now exists pre.
  - simpl in H. apply andb_true_iff in H as [Ha H].
    destruct pre as [|b pre]; simpl in E; inversion E; subst.
    + rewrite Hy in Ha. discriminate.
    + destruct (IH _ _ _ _ H2 H Hy) as [mid ->]. now exists mid.
Qed.

(** Where the STS request stands in the log of a run: after the
    events of [find_mfa_for_user] and the prompts, and before events
    that are neither prompts nor calls to AWS. *)
Lemma main_request VERSION svc args files typed faulty pre req post :
  let w0 := initial files typed faulty in
  let run := main VERSION svc args w0 in
  log (snd run) = pre ++ EvSts req :: post ->
  exists evs1 evs2 serial token,
    pre = evs1 ++ evs2
    /\ req = sts_request args serial token
    /\ fst (find_mfa_for_user svc (serial_number args) w0) = Ok (Some serial)
    /\ serial <> []
    /\ forallb resolving evs1 = true
    /\ forallb is_getpass evs2 = true
    /\ match token_code args with
       | Some code => token = code /\ evs2 = []
       | None => length token = 6
                 /\ find (fun l => length l =? 6) typed = Some token
       end
    /\ forallb after_request post = true.
Proof.
  intros w0 run E. subst run w0.
  destruct (main_trace VERSION svc args files typed faulty)
    as [(P & _)
       |(_ & cfg & evs1 & evs2 & serial & token & post0 & _ & Hfind & Hne & P1 & P2 & T
         & L & Hsts)].
  - exfalso. rewrite E, forallb_app in P.
    apply andb_true_iff in P as [_ P]. simpl in P. discriminate.
  - assert (Hpost : forallb after_request post0 = true).
    { destruct (sts svc (sts_request args serial token)) as [creds|e].
      - destruct Hsts as (ops & -> & Po & _). simpl.
        rewrite forallb_forall in *. intros ev Hin. apply Po in Hin. now destruct ev.
      - destruct Hsts as ([->| ->] & _); reflexivity. }
    rewrite E, app_assoc in L. symmetry in L.
    destruct (@split_at_marked is_sts_call _ _ _ _ _ _ L) as (A & B & C); auto.
    + rewrite forallb_app. apply andb_true_iff. split.
      * rewrite forallb_forall in *. intros ev Hin. apply P1 in Hin. now destruct ev.
      * rewrite forallb_forall in *. intros ev Hin. apply P2 in Hin. now destruct ev.
    + rewrite forallb_forall in *. intros ev Hin. apply Hpost in Hin.
      unfold after_request in Hin. now destruct (is_sts_call ev).
    + exists evs1, evs2, serial, token. inversion B. subst. auto 10.
Qed.

(** ** Runs of [main] computed forward *)

(** An exception of [find_mfa_for_user] leaves [main] as it is. *)
Lemma main_find_raises VERSION svc args w cfg e w1 :
  version args = false ->
  read (fs w (aws_credentials args)) = Ok cfg ->
  profile_found svc (identity_profile args) = true ->
  find_mfa_for_user svc (serial_number args) w = (Raised e, w1) ->
  main VERSION svc args w = (Raised e, w1).
Proof.
  intros Hv Hread Hp Hfind. unfold main. rewrite Hv.
  unfold bind at 1. simpl. unfold bind at 1, lift at 1. rewrite Hread, Hp. simpl.
  unfold bind at 1. now rewrite Hfind.
Qed.

(** The run of [main] once a serial is found, a token code is
    configured and STS grants the request. *)
Lemma main_granted VERSION svc args w cfg serial w1 token creds :
  version args = false ->
  read (fs w (aws_credentials args)) = Ok cfg ->
  profile_found svc (identity_profile args) = true ->
  find_mfa_for_user svc (serial_number args) w = (Ok (Some serial), w1) ->
  serial <> [] ->
  token_code args = Some token ->
  sts svc (sts_request args serial token) = Ok creds ->
  main VERSION svc args w
  = let w3 := {| fs := fs w1; stdin := stdin w1; faults := faults w1;
                 log := log w1 ++ [EvSts (sts_request args serial token);
                                   EvPrintRemaining (Expiration creds) (now svc)] |} in
    match update_credentials_file args cfg creds w3 with
    | (Ok _, w') => (Ok OK, w')
    | (Raised e, w') => (Raised e, w')
    end.
Proof.
  intros Hv Hread Hp Hfind Hne Ht Hsts. unfold main. rewrite Hv.
  unfold bind at 1. simpl. unfold bind at 1, lift at 1. rewrite Hread, Hp. simpl.
  unfold bind at 1. rewrite Hfind. destruct serial as [|c serial]; [contradiction|].
  rewrite Ht. unfold bind at 1. unfold ret at 1.
  unfold bind at 1. unfold try_except, call, bind, emit, lift. simpl. rewrite Hsts. simpl.
  rewrite <- app_assoc. simpl.
  destruct (update_credentials_file _ _ _ _) as [[c1|e] w']; reflexivity.
Qed.

Lemma find_mfa_iam_error svc serial w e :
  truthy serial = false ->
  get_user svc = Raised e
  \/ (exists user,
        get_user svc = Ok user
        /\ if endswith (py ":root") (Arn user)
           then current_user_mfa_devices svc = Raised e
           else list_mfa_devices svc (UserName user) = Raised e) ->
  exists evs,
    find_mfa_for_user svc serial w
    = (Raised e, {| fs := fs w; stdin := stdin w; faults := faults w; log := log w ++ evs |})
    /\ forallb is_iam_call evs = true.
Proof.
  intros Hs H. unfold find_mfa_for_user. rewrite Hs.
  unfold call, bind, emit, lift. simpl.
  destruct H as [H|(user & Hu & H)].
  - rewrite H. exists [EvGetUser]. auto.
  - rewrite Hu. destruct (endswith (py ":root") (Arn user)); simpl; rewrite H.
    + exists [EvGetUser; EvCurrentUserMfaDevices]. rewrite <- app_assoc. auto.
    + exists [EvGetUser; EvListMfaDevices (UserName user)]. rewrite <- app_assoc. auto.
Qed.

(** ** When [persist] returns *)

Lemma no_fault_step n (l : list bool) :
  forallb negb (firstn (S n) l)
  = negb (hd false l) && forallb negb (firstn n (tl l)).
Proof. destruct l as [|b l]; simpl; [now destruct n|reflexivity]. Qed.

Lemma no_fault_add a b (l : list bool) :
  forallb negb (firstn (a + b) l)
  = forallb negb (firstn a l) && forallb negb (firstn b (skipn a l)).
Proof.
  revert l. induction a as [|a IH]; intros l; [reflexivity|].
  destruct l as [|x l]; simpl.
  - now destruct b.
  - rewrite IH. apply andb_assoc.
Qed.

Lemma skipn_S_tl {A} n (l : list A) : skipn (S n) l = skipn n (tl l).
Proof. destruct l; simpl; [now destruct n|reflexivity]. Qed.

(** A file operation succeeds exactly when the next flag of the fault
    schedule is not set, and consumes that flag. *)
Lemma file_op_returns ev w :
  (fst (file_op ev w) = Ok tt <-> hd false (faults w) = false)
  /\ faults (snd (file_op ev w)) = tl (faults w).
Proof.
  unfold file_op. destruct (faults w) as [|[|] fl]; simpl; split; auto;
    split; auto; discriminate.
Qed.

(** [write_all] returns exactly when none of its writes fails. *)
Lemma write_all_returns p chunks : forall w,
  (fst (write_all p chunks w) = Ok tt
   <-> forallb negb (firstn (length chunks) (faults w)) = true)
  /\ (fst (write_all p chunks w) = Ok tt ->
      faults (snd (write_all p chunks w)) = skipn (length chunks) (faults w)).
Proof.
  induction chunks as [|c chunks IH]; intros w.
  - simpl. repeat split; auto.
  - cbn [write_all length]. rewrite no_fault_step. unfold bind.
    destruct (file_op_returns (EvWrite p c) w) as [[A B] C].
    rewrite skipn_S_tl.
    destruct (file_op (EvWrite p c) w) as [[[]|e] w1]; cbn [fst snd] in *.
    + rewrite (A eq_refl). simpl negb. rewrite andb_true_l, <- C. apply IH.
    + split; [|discriminate]. split; [discriminate|].
      intros H. apply andb_true_iff in H as [H _]. apply negb_true_iff in H.
      apply B in H. discriminate.
Qed.

(** [persist] returns exactly when none of its file operations fails:
    the open, one write per chunk, the close and the rename. *)
Lemma persist_returns args cfg w :
  fst (persist args cfg w) = Ok tt
  <-> forallb negb (firstn (1 + (length (write cfg) + 2)) (faults w)) = true.
Proof.
  unfold persist. set (tmp := aws_credentials args ++ py ".tmp").
  rewrite no_fault_add. unfold bind at 1.
  destruct (file_op_returns (EvOpenW tmp) w) as [[A B] C].
  change (firstn 1 (faults w)) with (firstn 1 (faults w)).
  assert (E1 : forallb negb (firstn 1 (faults w)) = negb (hd false (faults w))).
  { destruct (faults w); simpl; [reflexivity|apply andb_true_r]. }
  rewrite E1.
  destruct (file_op (EvOpenW tmp) w) as [[[]|e] w1]; simpl in A, B, C.
  2:{ split; [discriminate|]. intros H. apply andb_true_iff in H as [H _].
      apply negb_true_iff in H. apply B in H. discriminate. }
  rewrite (A eq_refl). simpl negb. rewrite andb_true_l.
  replace (skipn 1 (faults w)) with (faults w1) by (rewrite C; now destruct (faults w)).
  rewrite no_fault_add. unfold bind, try_finally.
  destruct (write_all_returns tmp (write cfg) w1) as [[A2 B2] C2].
  destruct (write_all tmp (write cfg) w1) as [[[]|e] w2]; simpl in A2, B2, C2.
  2:{ split.
      - destruct (file_op (EvClose tmp) w2) as [[?|?] ?]; discriminate.
      - intros H. apply andb_true_iff in H as [H _]. apply B2 in H. discriminate. }
  rewrite (A2 eq_refl), andb_true_l, <- (C2 eq_refl).
  destruct (file_op_returns (EvClose tmp) w2) as [[A3 B3] C3].
  change 2 with (1 + 1). rewrite no_fault_add.
  assert (E : forall l, forallb negb (firstn 1 l) = negb (hd false l)).
  { intros l. destruct l; simpl; [reflexivity|apply andb_true_r]. }
  rewrite !E.
  destruct (file_op (EvClose tmp) w2) as [[[]|e] w3]; simpl in A3, B3, C3.
  2:{ split; [discriminate|]. intros H. apply andb_true_iff in H as [H _].
      apply negb_true_iff in H. apply B3 in H. discriminate. }
  rewrite (A3 eq_refl). simpl negb. rewrite andb_true_l.
  replace (skipn 1 (faults w2)) with (faults w3) by (rewrite C3; now destruct (faults w2)).
  destruct (file_op_returns (EvRename tmp (aws_credentials args)) w3) as [[A4 B4] _].
  rewrite negb_true_iff.
  split; intros H; [apply A4 in H; rewrite C3 in H; exact H|apply B4; rewrite C3; exact H].
Qed.

End MainFacts.
Export MainFacts.

(* ================================================================== *)
(** * The claims *)
(* ================================================================== *)

Import configparser datetime Effects awsmfa Props.
Local Open Scope monad_scope.

(** Claim C1.  In every run of [main], an STS request that is sent
    has this form: when a role ARN is configured ([role_to_assume] is a
    non-empty string) it is [assume_role] with [DurationSeconds] equal
    to the minimum of the requested duration and 3600; otherwise it is
    [get_session_token] with exactly the requested duration. *)
Theorem sts_duration VERSION svc args files typed faulty req :
  In (EvSts req) (log (snd (main VERSION svc args (initial files typed faulty)))) ->
  if truthy (role_to_assume args)
  then exists role serial token,
         role_to_assume args = Some role
         /\ req = AssumeRole (Z.min (duration args) 3600) role
                             (role_session_name args) serial token
  else exists serial token, req = GetSessionToken (duration args) serial token.
Proof.
  intros Hin.
  destruct (@main_sts VERSION svc args (initial files typed faulty) req _ _ (run_eq _ _) (fun H => H) Hin) as [(serial & token & ->) _].
  unfold sts_request. destruct (role_to_assume args) as [[|c role]|]; simpl; eauto.
Qed.

Lemma sts_duration_witness :
  exists role serial token,
    Some Examples.role = Some role
    /\ AssumeRole 3600 Examples.role (py "awsmfa_20261104T123000") Examples.serial
                  (py "123456")
       = AssumeRole (Z.min 21600 3600) role (py "awsmfa_20261104T123000") serial token.
Proof.
  apply (@sts_duration Examples.VERSION
           (Examples.service Examples.standard_user [] (Ok Examples.temporary))
           (Examples.arguments (Some Examples.role) (Some Examples.serial) (py "default"))
           Examples.files [] []).
  vm_compute. auto.
Defined.

(** Claim C2.  In every run of [main] that sent an STS request which
    the service answered with an exception [e], the credentials files
    are as they were before the run; the run returns
    [USER_RECOVERABLE_ERROR] when [e] is the client error with code
    [AccessDenied], and raises [e] itself in every other case. *)
Theorem access_denied_is_recoverable VERSION svc args files typed faulty req e :
  let run := main VERSION svc args (initial files typed faulty) in
  In (EvSts req) (log (snd run)) ->
  sts svc req = Raised e ->
  fs (snd run) = files
  /\ (e = ClientError (py "AccessDenied") -> fst run = Ok USER_RECOVERABLE_ERROR)
  /\ (e <> ClientError (py "AccessDenied") -> fst run = Raised e).
Proof.
  intros run Hin He.
  destruct (@main_sts VERSION svc args (initial files typed faulty) req _ _ (run_eq _ _) (fun H => H) Hin) as [_ H].
  destruct (H e He) as [Hfs Hr]. fold run in Hr. split; [exact Hfs|].
  split.
  - intros ->. rewrite Hr. now rewrite str_eqb_refl.
  - intros Hne. rewrite Hr. destruct e; try reflexivity.
    destruct (str_eqb code (py "AccessDenied")) eqn:E; [|reflexivity].
    apply str_eqb_eq in E. subst. contradiction.
Qed.

Lemma access_denied_witness :
  fs (snd (main Examples.VERSION
             (Examples.service Examples.standard_user [] (Raised (ClientError (py "AccessDenied"))))
             (Examples.arguments None (Some Examples.serial) (py "default"))
             (initial Examples.files [] []))) = Examples.files
  /\ (ClientError (py "AccessDenied") = ClientError (py "AccessDenied") ->
      fst (main Examples.VERSION
             (Examples.service Examples.standard_user [] (Raised (ClientError (py "AccessDenied"))))
             (Examples.arguments None (Some Examples.serial) (py "default"))
             (initial Examples.files [] [])) = Ok USER_RECOVERABLE_ERROR)
  /\ (ClientError (py "AccessDenied") <> ClientError (py "AccessDenied") ->
      fst (main Examples.VERSION
             (Examples.service Examples.standard_user [] (Raised (ClientError (py "AccessDenied"))))
             (Examples.arguments None (Some Examples.serial) (py "default"))
             (initial Examples.files [] [])) = Raised (ClientError (py "AccessDenied"))).
Proof.
  apply (@access_denied_is_recoverable Examples.VERSION
           (Examples.service Examples.standard_user [] (Raised (ClientError (py "AccessDenied"))))
           (Examples.arguments None (Some Examples.serial) (py "default"))
           Examples.files [] []
           (GetSessionToken 21600 Examples.serial (py "123456"))).
  - vm_compute. auto.
  - reflexivity.
Defined.

(** Claim C3 at the identity profile as its own target.  The store
    holds [region] in the identity profile; the rotation succeeds and
    leaves in that profile the four temporary fields only.  Line 190
    removes the section before the loop of lines 192-193 copies its
    items, so nothing of the identity profile is copied, where the
    claim has every field of the identity profile in the result. *)
Lemma identity_as_target_loses_fields :
  dict_get (py "region")
    (match dict_get (py "identity") (_sections Examples.store) with
     | Some d => d | None => [] end) = Some (py "us-east-1")
  /\ exists cfg',
       updated_credentials (Examples.arguments None None (py "identity"))
                           Examples.store Examples.temporary = Ok cfg'
       /\ dict_get (py "identity") (_sections cfg')
          = Some [(py "aws_access_key_id", py "ASIATEMP");
                  (py "aws_secret_access_key", py "shortlived");
                  (py "aws_session_token", py "token");
                  (py "awsmfa_expiration", py "2026-11-04T18:30:00+00:00")].
Proof. split; [reflexivity|]. eexists. split; vm_compute; reflexivity. Qed.

(** Claim C4 at the target profile with the empty name.  The run
    returns [OK], yet the profiles with another name are not left
    alone: [set] with an empty section name writes the parser's
    defaults, so the items of [identity] gain [aws_session_token] and
    [awsmfa_expiration]; the file written starts with a section
    printed as [None] and ends with the header of a section without
    name, and it cannot be loaded any more: [read] raises
    [ParsingError], and so does the next run. *)
Theorem empty_target_reaches_other_profiles :
  let args := Examples.arguments None (Some Examples.serial) [] in
  let run := main Examples.VERSION Examples.granting args (initial Examples.files [] []) in
  fst run = Ok OK
  /\ updated_credentials args Examples.store Examples.temporary
     = Ok Examples.rotated_into_defaults
  /\ items (py "identity") Examples.store
     = Ok [(py "aws_access_key_id", py "AKIAIDENTITY");
           (py "aws_secret_access_key", py "longlived");
           (py "region", py "us-east-1")]
  /\ items (py "identity") Examples.rotated_into_defaults
     = Ok [(py "aws_access_key_id", py "AKIAIDENTITY");
           (py "aws_secret_access_key", py "longlived");
           (py "region", py "us-east-1");
           (py "aws_session_token", py "token");
           (py "awsmfa_expiration", py "2026-11-04T18:30:00+00:00")]
  /\ fs (snd run) Examples.path = Some (serialized Examples.rotated_into_defaults)
  /\ read (fs (snd run) Examples.path) = Raised ParsingError
  /\ fst (main Examples.VERSION Examples.granting args (initial (fs (snd run)) [] []))
     = Raised ParsingError.
Proof. cbv zeta. repeat split; vm_compute; reflexivity. Qed.




(** Option names are lower-cased when a file is loaded, so the case a
    name has in the file does not survive a rewrite. *)
Example read_lowercases_option_names :
  read (Some (Examples.line "[p]" ++ Examples.line "Region = us-east-1"))
  = Ok {| _defaults := []; _sections := [(py "p", [(py "region", py "us-east-1")])] |}.
Proof. vm_compute. reflexivity. Qed.

(** Claim C6.  With a non-empty explicit serial number,
    [find_mfa_for_user] returns that serial and leaves the world as it
    was: nothing is logged, so no IAM or STS call is made. *)
Theorem explicit_serial_no_call svc serial w :
  serial <> [] ->
  find_mfa_for_user svc (Some serial) w = (Ok (Some serial), w).
Proof.
  intros H. unfold find_mfa_for_user. destruct serial; [contradiction|]. reflexivity.
Qed.

Lemma explicit_serial_witness :
  find_mfa_for_user (Examples.service Examples.standard_user [] (Ok Examples.temporary))
                    (Some Examples.serial) (initial Examples.files [] [])
  = (Ok (Some Examples.serial), initial Examples.files [] []).
Proof. apply explicit_serial_no_call. discriminate. Defined.

(** Claim C7.  In every run of [main] in which the device listing that
    was called answered with no device, [find_mfa_for_user] returns
    [None], the run returns [USER_RECOVERABLE_ERROR], the files are as
    they were, and no STS request is sent. *)
Theorem no_mfa_device VERSION svc args files typed faulty :
  let w0 := initial files typed faulty in
  let run := main VERSION svc args w0 in
  (In EvCurrentUserMfaDevices (log (snd run)) /\ current_user_mfa_devices svc = Ok [])
  \/ (exists u r, In (EvListMfaDevices u) (log (snd run))
                  /\ list_mfa_devices svc u = Ok r /\ MFADevices r = []) ->
  fst (find_mfa_for_user svc (serial_number args) w0) = Ok None
  /\ fst run = Ok USER_RECOVERABLE_ERROR
  /\ fs (snd run) = files
  /\ forall req, ~ In (EvSts req) (log (snd run)).
Proof.
  intros w0 run H.
  assert (Hnone : fst (find_mfa_for_user svc (serial_number args) w0) = Ok None).
  { apply find_mfa_empty_listing.
    destruct H as [(Hin & Hc)|(u & r & Hin & Hr & Hd)].
    - left. repeat split; auto.
      eapply (@main_iam VERSION svc args w0 _ _ _ (run_eq _ _)); simpl; auto.
    - right. exists u, r. repeat split; auto.
      eapply (@main_iam VERSION svc args w0 _ _ _ (run_eq _ _)); simpl; auto. }
  split; [exact Hnone|].
  assert (exists ev, is_iam_call ev = true /\ In ev (log (snd run))) as (ev & Hev & Hin).
  { destruct H as [(Hin & _)|(u & r & Hin & _)]; eexists; (split; [|exact Hin]); reflexivity. }
  destruct (@main_iam VERSION svc args w0 ev _ _ (run_eq _ _) Hev (fun H => H) Hin) as [_ Hm].
  destruct (Hm Hnone) as (Hr & Hfs & Hsts). repeat split; auto.
Qed.

Lemma no_mfa_device_witness :
  fst (find_mfa_for_user (Examples.service Examples.standard_user [] (Ok Examples.temporary))
         None (initial Examples.files [] [])) = Ok None
  /\ fst (main Examples.VERSION
            (Examples.service Examples.standard_user [] (Ok Examples.temporary))
            (Examples.arguments None None (py "default"))
            (initial Examples.files [] [])) = Ok USER_RECOVERABLE_ERROR
  /\ fs (snd (main Examples.VERSION
                (Examples.service Examples.standard_user [] (Ok Examples.temporary))
                (Examples.arguments None None (py "default"))
                (initial Examples.files [] []))) = Examples.files
  /\ forall req,
       ~ In (EvSts req)
            (log (snd (main Examples.VERSION
                         (Examples.service Examples.standard_user [] (Ok Examples.temporary))
                         (Examples.arguments None None (py "default"))
                         (initial Examples.files [] [])))).
Proof.
  apply (@no_mfa_device Examples.VERSION
           (Examples.service Examples.standard_user [] (Ok Examples.temporary))
           (Examples.arguments None None (py "default")) Examples.files [] []).
  right. exists (py "alice"), {| MFADevices := []; other_keys := [py "IsTruncated"; py "ResponseMetadata"] |}.
  split; [vm_compute; auto|]. split; reflexivity.
Defined.

(** Claim C8 at a standard user and at the root user, each with two
    MFA devices.  The warning is built from [len(devices)], not from
    the number of serials: for the standard user it reports 3, the
    number of keys of the response, and for the root user [len] raises
    [TypeError] and no serial is returned. *)
Theorem warning_reports_len_of_devices :
  find_mfa_for_user
    (Examples.service Examples.standard_user Examples.two_devices (Ok Examples.temporary))
    None (initial Examples.files [] [])
  = (Ok (Some (py "arn:aws:iam::123456789012:mfa/first")),
     {| fs := Examples.files; stdin := []; faults := [];
        log := [EvGetUser; EvListMfaDevices (py "alice");
                EvPrint stderr (py "Warning: user has 3 MFA devices. Using the first.")] |})
  /\ find_mfa_for_user
       (Examples.service Examples.root_user Examples.two_devices (Ok Examples.temporary))
       None (initial Examples.files [] [])
     = (Raised TypeError,
        {| fs := Examples.files; stdin := []; faults := [];
           log := [EvGetUser; EvCurrentUserMfaDevices] |}).
Proof. split; reflexivity. Qed.

(** Claim C9.  Without an explicit serial number, when the user record
    is obtained, the IAM calls of [find_mfa_for_user] are [get_user]
    followed by the device listing: through the current-user resource
    when the ARN ends with [:root], and through [list_mfa_devices] with
    the user name of the record otherwise. *)
Theorem device_listing_branch svc serial w user :
  truthy serial = false ->
  get_user svc = Ok user ->
  exists evs,
    log (snd (find_mfa_for_user svc serial w)) = log w ++ evs
    /\ filter is_iam_call evs
       = [EvGetUser;
          if endswith (py ":root") (Arn user)
          then EvCurrentUserMfaDevices
          else EvListMfaDevices (UserName user)].
Proof.
  intros Hs Hu. unfold find_mfa_for_user. rewrite Hs.
  unfold call, bind, emit, lift, ret, print, emit. simpl. rewrite Hu.
  destruct (endswith (py ":root") (Arn user)); simpl.
  - destruct (current_user_mfa_devices svc) as [[|d1 [|d2 ds]]|e]; simpl;
      rewrite <- ?app_assoc; simpl; eexists; split; try reflexivity; reflexivity.
  - destruct (list_mfa_devices svc (UserName user)) as [[[|d1 [|d2 ds]] keys]|e]; simpl;
      rewrite <- ?app_assoc; simpl; eexists; split; try reflexivity; reflexivity.
Qed.

Lemma device_listing_branch_witness :
  exists evs,
    log (snd (find_mfa_for_user
                (Examples.service Examples.root_user Examples.two_devices (Ok Examples.temporary))
                None (initial Examples.files [] [])))
    = [] ++ evs
    /\ filter is_iam_call evs = [EvGetUser; EvCurrentUserMfaDevices].
Proof.
  apply (@device_listing_branch
           (Examples.service Examples.root_user Examples.two_devices (Ok Examples.temporary))
           None (initial Examples.files [] []) Examples.root_user); reflexivity.
Defined.

(** Claim C10.  [persist] works on [path + ".tmp"], which lies in the
    directory of the target path.  It returns exactly when none of the
    file operations it attempts fails: the open, one write per chunk of
    the serialization, the close and the rename; so it returns whenever
    no failure is scheduled.  The file system after the run is the
    replay of the operations logged; after every strict prefix of them
    the target path holds what it held before.  When [persist]
    returns, the operations are: open the temporary file, write every
    chunk of the serialization, close, rename; before the rename the
    temporary file holds the complete serialization, and after it the
    target does.  When [persist] raises, the target path holds what it
    held before. *)
Theorem persist_is_atomic args cfg w :
  let target := aws_credentials args in
  let tmp := target ++ py ".tmp" in
  let run := persist args cfg w in
  dirname tmp = dirname target
  /\ (fst run = Ok tt
      <-> forallb negb (firstn (1 + (length (write cfg) + 2)) (faults w)) = true)
  /\ exists evs,
       log (snd run) = log w ++ evs
       /\ fs (snd run) = replay evs (fs w)
       /\ (forall n, n < length evs ->
             replay (firstn n evs) (fs w) target = fs w target)
       /\ match fst run with
          | Ok _ =>
              evs = EvOpenW tmp :: map (EvWrite tmp) (write cfg)
                    ++ [EvClose tmp; EvRename tmp target]
              /\ replay (removelast evs) (fs w) tmp = Some (serialized cfg)
              /\ fs (snd run) target = Some (serialized cfg)
          | Raised _ => fs (snd run) target = fs w target
          end.
Proof.
  intros target tmp run. split; [apply dirname_tmp|].
  split; [apply persist_returns|].
  destruct (persist_run args cfg w (run_eq _ _)) as (evs & L & F & E).
  fold run in L, F, E. fold target in E. fold tmp in E.
  exists evs. split; [exact L|]. split; [exact F|].
  assert (Hne : target <> tmp) by apply tmp_differs.
  destruct (fst run) as [u|e] eqn:Hr.
  - assert (Hpre : forallb (on_file tmp)
                     (EvOpenW tmp :: map (EvWrite tmp) (write cfg) ++ [EvClose tmp]) = true).
    { simpl. rewrite str_eqb_refl, forallb_app. simpl. rewrite str_eqb_refl.
      rewrite andb_true_r. clear. induction (write cfg); simpl; auto.
      now rewrite str_eqb_refl. }
    split.
    + intros n Hn. subst evs.
      set (script := EvOpenW tmp :: map (EvWrite tmp) (write cfg) ++ [EvClose tmp]) in *.
      replace (EvOpenW tmp :: map (EvWrite tmp) (write cfg)
               ++ [EvClose tmp; EvRename tmp target])
        with (script ++ [EvRename tmp target]) in *
        by (unfold script; simpl; now rewrite <- app_assoc).
      rewrite length_app in Hn. cbn [length] in Hn.
      rewrite firstn_app.
      replace (n - length script) with 0 by lia. cbn [firstn]. rewrite app_nil_r.
      apply replay_on_file with (p := tmp); auto. now apply forallb_firstn.
    + split; [exact E|]. split.
      * subst evs. rewrite removelast_script. apply replay_script_tmp.
      * unfold run. destruct (persist args cfg w) as [r w'] eqn:Hp. simpl in *. subst r.
        now apply persist_ok with (u := u) (w := w).
  - split.
    + intros n Hn. apply replay_on_file with (p := tmp); auto. now apply forallb_firstn.
    + rewrite F. now apply replay_on_file with (p := tmp).
Qed.

Lemma persist_is_atomic_witness :
  (fst (persist Examples.explicit Examples.rotated (initial Examples.files [] [])) = Ok tt
   /\ log (snd (persist Examples.explicit Examples.rotated (initial Examples.files [] [])))
      = EvOpenW (Examples.path ++ py ".tmp")
        :: map (EvWrite (Examples.path ++ py ".tmp")) (write Examples.rotated)
        ++ [EvClose (Examples.path ++ py ".tmp");
            EvRename (Examples.path ++ py ".tmp") Examples.path]
   /\ fs (snd (persist Examples.explicit Examples.rotated (initial Examples.files [] [])))
         Examples.path
      = Some (serialized Examples.rotated))
  /\ (fst (persist Examples.explicit Examples.rotated
              (initial Examples.files [] [false; false; true])) <> Ok tt
      /\ fs (snd (persist Examples.explicit Examples.rotated
                     (initial Examples.files [] [false; false; true]))) Examples.path
         = Some Examples.credentials_text).
Proof.
  split.
  - pose proof (persist_is_atomic Examples.explicit Examples.rotated
                  (initial Examples.files [] [])) as T.
    cbv zeta in T. destruct T as (_ & [_ P] & evs & L & _ & _ & M).
    assert (H : fst (persist Examples.explicit Examples.rotated
                       (initial Examples.files [] [])) = Ok tt)
      by (apply P; reflexivity).
    rewrite H in M. destruct M as (E & _ & F).
    split; [exact H|]. split; [|exact F].
    rewrite L, E. reflexivity.
  - pose proof (persist_is_atomic Examples.explicit Examples.rotated
                  (initial Examples.files [] [false; false; true])) as T.
    cbv zeta in T. destruct T as (_ & [P _] & evs & _ & _ & _ & M).
    assert (H : fst (persist Examples.explicit Examples.rotated
                       (initial Examples.files [] [false; false; true])) <> Ok tt).
    { intros H. apply P in H. vm_compute in H. discriminate. }
    split; [exact H|].
    destruct (fst (persist Examples.explicit Examples.rotated
                     (initial Examples.files [] [false; false; true]))) as [[]|e].
    + now contradiction H.
    + exact M.
Defined.

(* ================================================================== *)
(** * Further properties of the program *)
(* ================================================================== *)

(** X1.  A run of [main] that is not a version query and returns [OK]
    has loaded the credentials file, sent an STS request that was
    granted, and applied [updated_credentials] to the loaded store
    with success; at the end the credentials path holds the
    serialization of the resulting store and the temporary file is
    gone. *)
Theorem successful_run_rotates VERSION svc args files typed faulty :
  let run := main VERSION svc args (initial files typed faulty) in
  version args = false ->
  fst run = Ok OK ->
  exists cfg serial token creds cfg',
    read (files (aws_credentials args)) = Ok cfg
    /\ In (EvSts (sts_request args serial token)) (log (snd run))
    /\ sts svc (sts_request args serial token) = Ok creds
    /\ updated_credentials args cfg creds = Ok cfg'
    /\ fs (snd run) (aws_credentials args) = Some (serialized cfg')
    /\ fs (snd run) (aws_credentials args ++ py ".tmp") = None.
Proof.
  intros run Hv Hr.
  destruct (main_trace VERSION svc args files typed faulty)
    as [(_ & _ & _ & N)
       |(_ & cfg & evs1 & evs2 & serial & token & post & Hread & _ & _ & _ & _ & _ & L & Hsts)].
  { exfalso. now apply N. }
  fold run in L, Hsts.
  destruct (sts svc (sts_request args serial token)) as [creds|e] eqn:E.
  2:{ destruct Hsts as (_ & _ & _ & R). rewrite Hr in R. symmetry in R.
      now apply handled_not_ok in R. }
  destruct Hsts as (ops & _ & _ & _ & U).
  destruct (updated_credentials args cfg creds) as [cfg'|e] eqn:Eu.
  2:{ destruct U as (_ & _ & R). rewrite Hr in R. discriminate. }
  destruct U as (wp & ru & Hp & _ & _ & R).
  destruct ru as [u|e]; [|rewrite Hr in R; discriminate].
  exists cfg, serial, token, creds, cfg'.
  split; [exact Hread|]. split.
  { rewrite L, !in_app_iff. right. right. now left. }
  split; [exact E|]. split; [exact Eu|]. split.
  - exact (persist_ok _ _ _ Hp).
  - exact (persist_ok_tmp _ _ _ Hp).
Qed.

Lemma successful_run_rotates_witness :
  exists cfg serial token creds cfg',
    read (Examples.files Examples.path) = Ok cfg
    /\ In (EvSts (sts_request Examples.explicit serial token))
          (log (snd (main Examples.VERSION Examples.granting Examples.explicit
                          (initial Examples.files [] []))))
    /\ sts Examples.granting (sts_request Examples.explicit serial token) = Ok creds
    /\ updated_credentials Examples.explicit cfg creds = Ok cfg'
    /\ fs (snd (main Examples.VERSION Examples.granting Examples.explicit
                     (initial Examples.files [] []))) Examples.path
       = Some (serialized cfg')
    /\ fs (snd (main Examples.VERSION Examples.granting Examples.explicit
                     (initial Examples.files [] []))) (Examples.path ++ py ".tmp")
       = None.
Proof.
  apply (@successful_run_rotates Examples.VERSION Examples.granting Examples.explicit
           Examples.files [] []).
  - reflexivity.
  - vm_compute. reflexivity.
Defined.

(** X2.  With no file operation failing, a credentials file that
    parses, a known identity profile, a non-empty serial number and a
    token code given as arguments, a request that STS grants and parser
    calls that succeed, [main] returns [OK].  It logs exactly the STS
    request, the remaining-time message and the file operations of
    [persist]; the credentials path then holds the serialization of
    the new store, the temporary path is free again and every other
    path is as before. *)
Theorem granted_request_rotates VERSION svc args files typed cfg serial token creds cfg' :
  let target := aws_credentials args in
  let tmp := target ++ py ".tmp" in
  let run := main VERSION svc args (initial files typed []) in
  version args = false ->
  read (files target) = Ok cfg ->
  profile_found svc (identity_profile args) = true ->
  serial_number args = Some serial ->
  serial <> [] ->
  token_code args = Some token ->
  sts svc (sts_request args serial token) = Ok creds ->
  updated_credentials args cfg creds = Ok cfg' ->
  fst run = Ok OK
  /\ log (snd run)
     = EvSts (sts_request args serial token)
       :: EvPrintRemaining (Expiration creds) (now svc)
       :: EvOpenW tmp :: map (EvWrite tmp) (write cfg')
       ++ [EvClose tmp; EvRename tmp target]
  /\ fs (snd run) target = Some (serialized cfg')
  /\ fs (snd run) tmp = None
  /\ forall q, q <> target -> q <> tmp -> fs (snd run) q = files q.
Proof.
  intros target tmp run Hv Hread Hp Hser Hne Ht Hsts Hup.
  assert (Hfind : find_mfa_for_user svc (serial_number args) (initial files typed [])
                  = (Ok (Some serial), initial files typed [])).
  { unfold find_mfa_for_user. rewrite Hser. simpl.
    destruct serial; [contradiction|reflexivity]. }
  subst run.
  rewrite (@main_granted VERSION svc args (initial files typed []) cfg serial _ token creds
             Hv Hread Hp Hfind Hne Ht Hsts).
  cbv zeta. unfold update_credentials_file, bind, lift, ret. rewrite Hup.
  match goal with |- context [persist args cfg' ?w3] =>
    pose proof (persist_no_fault args cfg' w3 eq_refl) as Hok;
    destruct (persist args cfg' w3) as [ru wp] eqn:Hrun end.
  simpl in Hok. subst ru.
  destruct (persist_run _ _ _ Hrun) as (evs & L & F & E). simpl in L, F, E.
  simpl. split; [reflexivity|]. split; [rewrite L, E; reflexivity|].
  split; [exact (persist_ok _ _ _ Hrun)|].
  split; [exact (persist_ok_tmp _ _ _ Hrun)|].
  intros q Hq Hq'. exact (persist_frame _ _ _ Hrun Hq Hq').
Qed.

Lemma granted_request_rotates_witness :
  fst (main Examples.VERSION Examples.granting Examples.explicit (initial Examples.files [] []))
  = Ok OK
  /\ log (snd (main Examples.VERSION Examples.granting Examples.explicit
                    (initial Examples.files [] [])))
     = EvSts Examples.explicit_request
       :: EvPrintRemaining Examples.expiration Examples.clock
       :: EvOpenW (Examples.path ++ py ".tmp")
       :: map (EvWrite (Examples.path ++ py ".tmp")) (write Examples.rotated)
       ++ [EvClose (Examples.path ++ py ".tmp");
           EvRename (Examples.path ++ py ".tmp") Examples.path]
  /\ fs (snd (main Examples.VERSION Examples.granting Examples.explicit
                   (initial Examples.files [] []))) Examples.path
     = Some (serialized Examples.rotated)
  /\ fs (snd (main Examples.VERSION Examples.granting Examples.explicit
                   (initial Examples.files [] []))) (Examples.path ++ py ".tmp")
     = None
  /\ forall q, q <> Examples.path -> q <> Examples.path ++ py ".tmp" ->
       fs (snd (main Examples.VERSION Examples.granting Examples.explicit
                     (initial Examples.files [] []))) q
       = Examples.files q.
Proof.
  apply (@granted_request_rotates Examples.VERSION Examples.granting Examples.explicit
           Examples.files [] Examples.store Examples.serial (py "123456")
           Examples.temporary Examples.rotated).
  - reflexivity.
  - vm_compute. reflexivity.
  - reflexivity.
  - reflexivity.
  - discriminate.
  - reflexivity.
  - reflexivity.
  - vm_compute. reflexivity.
Defined.

(** X3.  In every run of [main] the file system at the end is the
    replay of the logged events over the initial files, and every file
    operation in the log comes after an STS request that was granted:
    without temporary credentials the program opens, writes and renames
    nothing. *)
Theorem file_operations_follow_credentials VERSION svc args files typed faulty :
  let run := main VERSION svc args (initial files typed faulty) in
  fs (snd run) = replay (log (snd run)) files
  /\ forall pre op post,
       log (snd run) = pre ++ op :: post ->
       is_file_op op = true ->
       exists req creds,
         In (EvSts req) pre /\ sts svc req = Ok creds.
Proof.
  intros run.
  destruct (main_trace VERSION svc args files typed faulty)
    as [(P & F & _ & _)
       |(_ & cfg & evs1 & evs2 & serial & token & post & _ & _ & _ & P1 & P2 & _ & L & Hsts)].
  - fold run in P, F. split.
    + rewrite replay_not_file_op; [exact F|]. now apply harmless_not_file_op.
    + intros pre op post' E Hop. exfalso.
      assert (Hin : In op (log (snd run))) by (rewrite E; apply in_elt).
      rewrite forallb_forall in P. apply P in Hin.
      unfold harmless in Hin. rewrite Hop in Hin. rewrite andb_false_r in Hin. discriminate.
  - fold run in L, Hsts.
    assert (Q1 : forallb (fun ev => negb (is_file_op ev)) evs1 = true).
    { rewrite forallb_forall in *. intros ev Hin. apply P1 in Hin. now destruct ev. }
    assert (Q2 : forallb (fun ev => negb (is_file_op ev)) evs2 = true).
    { rewrite forallb_forall in *. intros ev Hin. apply P2 in Hin. now destruct ev. }
    destruct (sts svc (sts_request args serial token)) as [creds|e] eqn:E.
    + destruct Hsts as (ops & Epost & Po & Fo & _). subst post. split.
      * rewrite L, !replay_app, (replay_not_file_op evs1), (replay_not_file_op evs2); auto.
      * intros pre op post' E' Hop.
        exists (sts_request args serial token), creds. split; [|exact E].
        rewrite L in E'.
        change (evs1 ++ evs2 ++ EvSts (sts_request args serial token)
                  :: EvPrintRemaining (Expiration creds) (now svc) :: ops)
          with (evs1 ++ evs2 ++ [EvSts (sts_request args serial token);
                                 EvPrintRemaining (Expiration creds) (now svc)] ++ ops) in E'.
        rewrite !app_assoc in E'.
        destruct (@prefix_without is_file_op _ _ _ _ _ E') as [mid Hmid]; auto.
        { rewrite !forallb_app, Q1, Q2. reflexivity. }
        rewrite Hmid, !in_app_iff. left. right. now left.
    + destruct Hsts as (Hpost & F & _ & _). split.
      * assert (Q3 : forallb (fun ev => negb (is_file_op ev)) post = true)
          by (destruct Hpost; subst post; reflexivity).
        rewrite L, !replay_app, (replay_not_file_op evs1), (replay_not_file_op evs2); auto.
        change (EvSts (sts_request args serial token) :: post)
          with ([EvSts (sts_request args serial token)] ++ post).
        rewrite replay_app, (replay_not_file_op post); auto.
      * intros pre op post' E' Hop. exfalso.
        assert (Hin : In op (log (snd run))) by (rewrite E'; apply in_elt).
        rewrite L in Hin. rewrite !in_app_iff in Hin.
        rewrite forallb_forall in Q1, Q2.
        destruct Hin as [Hin|[Hin|Hin]].
        -- apply Q1 in Hin. rewrite Hop in Hin. discriminate.
        -- apply Q2 in Hin. rewrite Hop in Hin. discriminate.
        -- destruct Hin as [Hin|Hin]; [subst op; discriminate|].
           destruct Hpost; subst post; simpl in Hin; [contradiction|].
           destruct Hin as [Hin|[]]. subst op. discriminate.
Qed.

(** X4.  A run of [main] sends at most one STS request.  Whatever is
    logged before it is an IAM call, a printed warning or a prompt;
    whatever is logged after it is neither an STS call, nor an IAM
    call, nor a prompt.  The serial number of the request is not empty
    and is the one [find_mfa_for_user] returned. *)
Theorem at_most_one_sts_request VERSION svc args files typed faulty pre req post :
  let w0 := initial files typed faulty in
  let run := main VERSION svc args w0 in
  log (snd run) = pre ++ EvSts req :: post ->
  forallb (fun ev => resolving ev || is_getpass ev) pre = true
  /\ forallb after_request post = true
  /\ exists serial,
       fst (find_mfa_for_user svc (serial_number args) w0) = Ok (Some serial)
       /\ serial <> []
       /\ request_serial req = serial.
Proof.
  intros w0 run E.
  destruct (main_request VERSION svc args files typed faulty _ _ _ E)
    as (evs1 & evs2 & serial & token & -> & -> & Hfind & Hne & P1 & P2 & _ & Hpost).
  split; [|split; [exact Hpost|]].
  - rewrite forallb_app. apply andb_true_iff. split.
    + rewrite forallb_forall in *. intros ev Hin. apply P1 in Hin. now rewrite Hin.
    + rewrite forallb_forall in *. intros ev Hin. apply P2 in Hin. rewrite Hin.
      apply orb_true_r.
  - exists serial. split; [exact Hfind|]. split; [exact Hne|].
    apply request_serial_sts_request.
Qed.

Lemma at_most_one_sts_request_witness :
  forallb (fun ev => resolving ev || is_getpass ev) [] = true
  /\ forallb after_request [EvPrintExn stderr (ClientError (py "AccessDenied"))] = true
  /\ exists serial,
       fst (find_mfa_for_user Examples.denying (serial_number Examples.explicit)
              (initial Examples.files [] [])) = Ok (Some serial)
       /\ serial <> []
       /\ request_serial Examples.explicit_request = serial.
Proof.
  apply (@at_most_one_sts_request Examples.VERSION Examples.denying Examples.explicit
           Examples.files [] [] [] Examples.explicit_request
           [EvPrintExn stderr (ClientError (py "AccessDenied"))]).
  vm_compute. reflexivity.
Defined.

(** X5.  The token code of an STS request sent by [main]: a code given
    in the arguments is sent as it is, whatever its length, and the run
    never prompts; without one, the code sent has exactly six
    characters and is the first typed line that has. *)
Theorem token_code_sent VERSION svc args files typed faulty req :
  let run := main VERSION svc args (initial files typed faulty) in
  In (EvSts req) (log (snd run)) ->
  match token_code args with
  | Some code =>
      request_token req = code
      /\ forallb (fun ev => negb (is_getpass ev)) (log (snd run)) = true
  | None =>
      length (request_token req) = 6
      /\ find (fun l => length l =? 6) typed = Some (request_token req)
  end.
Proof.
  intros run Hin. destruct (in_split _ _ Hin) as (pre & post & E).
  destruct (main_request VERSION svc args files typed faulty _ _ _ E)
    as (evs1 & evs2 & serial & token & -> & -> & _ & _ & P1 & _ & T & Hpost).
  rewrite request_token_sts_request.
  destruct (token_code args) as [code|]; [|exact T].
  destruct T as [-> ->]. split; [reflexivity|].
  fold run in E. rewrite E, app_nil_r, forallb_app. apply andb_true_iff. split.
  - rewrite forallb_forall in *. intros ev Hev. apply P1 in Hev. now destruct ev.
  - simpl. rewrite forallb_forall in *. intros ev Hev. apply Hpost in Hev.
    unfold after_request in Hev. now destruct (is_getpass ev); rewrite ?andb_false_r in Hev.
Qed.

Lemma token_code_sent_witness :
  request_token Examples.explicit_request = py "123456"
  /\ forallb (fun ev => negb (is_getpass ev))
       (log (snd (main Examples.VERSION Examples.granting Examples.explicit
                       (initial Examples.files [] [])))) = true.
Proof.
  apply (@token_code_sent Examples.VERSION Examples.granting Examples.explicit
           Examples.files [] [] Examples.explicit_request).
  vm_compute. left. reflexivity.
Defined.

(** X6.  The [try] of [main] covers the STS call only.  In a run that
    is not a version query, with a credentials file that parses, a
    known identity profile and no serial number given: when [get_user],
    or the device listing it leads to, raises [e] (the client error
    [AccessDenied] included), the run raises [e]; it logs IAM calls
    only, so it neither prompts nor calls STS, and files and terminal
    input are as they were. *)
Theorem iam_errors_are_not_handled VERSION svc args files typed faulty cfg e :
  let run := main VERSION svc args (initial files typed faulty) in
  version args = false ->
  read (files (aws_credentials args)) = Ok cfg ->
  profile_found svc (identity_profile args) = true ->
  truthy (serial_number args) = false ->
  get_user svc = Raised e
  \/ (exists user,
        get_user svc = Ok user
        /\ if endswith (py ":root") (Arn user)
           then current_user_mfa_devices svc = Raised e
           else list_mfa_devices svc (UserName user) = Raised e) ->
  fst run = Raised e
  /\ fs (snd run) = files
  /\ stdin (snd run) = typed
  /\ forallb is_iam_call (log (snd run)) = true.
Proof.
  intros run Hv Hread Hp Hs H.
  destruct (find_mfa_iam_error svc (serial_number args) (initial files typed faulty) Hs H)
    as (evs & Hfind & P).
  subst run.
  rewrite (@main_find_raises VERSION svc args (initial files typed faulty) cfg e _
             Hv Hread Hp Hfind).
  simpl. auto.
Qed.

Lemma iam_errors_are_not_handled_witness :
  fst (main Examples.VERSION Examples.iam_denying
            (Examples.arguments None None (py "default"))
            (initial Examples.files Examples.typed_lines []))
  = Raised (ClientError (py "AccessDenied"))
  /\ fs (snd (main Examples.VERSION Examples.iam_denying
                   (Examples.arguments None None (py "default"))
                   (initial Examples.files Examples.typed_lines []))) = Examples.files
  /\ stdin (snd (main Examples.VERSION Examples.iam_denying
                      (Examples.arguments None None (py "default"))
                      (initial Examples.files Examples.typed_lines []))) = Examples.typed_lines
  /\ forallb is_iam_call
       (log (snd (main Examples.VERSION Examples.iam_denying
                       (Examples.arguments None None (py "default"))
                       (initial Examples.files Examples.typed_lines [])))) = true.
Proof.
  apply (@iam_errors_are_not_handled Examples.VERSION Examples.iam_denying
           (Examples.arguments None None (py "default"))
           Examples.files Examples.typed_lines [] Examples.store).
  - reflexivity.
  - vm_compute. reflexivity.
  - reflexivity.
  - reflexivity.
  - left. reflexivity.
Defined.

(** X7.  The prompt loop skips every typed line that does not have
    six characters and returns the first one that has: it prompts once
    per line read and leaves the lines after the code unread. *)
Theorem prompt_returns_first_six_characters w skipped code rest :
  stdin w = skipped ++ code :: rest ->
  forallb (fun l => negb (length l =? 6)) skipped = true ->
  length code = 6 ->
  prompt_token_code w
  = (Ok code,
     {| fs := fs w; stdin := rest; faults := faults w;
        log := log w ++ repeat (EvGetpass (py "MFA Token Code: ")) (S (length skipped)) |}).
Proof.
  intros Hin Hsk Hc. unfold prompt_token_code.
  apply ask_token_code_skips; auto. rewrite Hin, length_app. lia.
Qed.

Lemma prompt_returns_first_six_characters_witness :
  prompt_token_code (initial Examples.files Examples.typed_lines [])
  = (Ok (py "123456"),
     {| fs := Examples.files; stdin := [py "654321"]; faults := [];
        log := [] ++ repeat (EvGetpass (py "MFA Token Code: ")) 3 |}).
Proof.
  apply (@prompt_returns_first_six_characters (initial Examples.files Examples.typed_lines [])
           [py "12345"; py "1234567"] (py "123456") [py "654321"]).
  - reflexivity.
  - reflexivity.
  - reflexivity.
Defined.

(** X8.  When no typed line has six characters the prompt loop ends
    with [EOFError], after one prompt per line and a last one at the
    end of input. *)
Theorem prompt_without_code_raises_eof w :
  forallb (fun l => negb (length l =? 6)) (stdin w) = true ->
  prompt_token_code w
  = (Raised EOFError,
     {| fs := fs w; stdin := []; faults := faults w;
        log := log w ++ repeat (EvGetpass (py "MFA Token Code: "))
                               (S (length (stdin w))) |}).
Proof.
  intros H. unfold prompt_token_code. now apply ask_token_code_eof.
Qed.

Lemma prompt_without_code_raises_eof_witness :
  prompt_token_code (initial Examples.files [py "12345"; py "1234567"] [])
  = (Raised EOFError,
     {| fs := Examples.files; stdin := []; faults := [];
        log := [] ++ repeat (EvGetpass (py "MFA Token Code: ")) 3 |}).
Proof.
  apply (@prompt_without_code_raises_eof
           (initial Examples.files [py "12345"; py "1234567"] [])).
  reflexivity.
Defined.

(** X9.  When the store has no section for the identity profile, and
    the target profile is another one, [update_credentials_file] raises
    [NoSectionError] for the identity profile and leaves the world as
    it was: no file is opened. *)
Theorem missing_identity_profile args cfg creds w :
  dict_mem (identity_profile args) (_sections cfg) = false ->
  identity_profile args <> target_profile args ->
  update_credentials_file args cfg creds w
  = (Raised (NoSectionError (identity_profile args)), w).
Proof.
  intros Hm Hne. unfold update_credentials_file, bind, lift.
  now rewrite updated_credentials_no_identity.
Qed.

Lemma missing_identity_profile_witness :
  update_credentials_file
    (Examples.arguments None None (py "default")) empty Examples.temporary
    (initial Examples.files [] [])
  = (Raised (NoSectionError (py "identity")), initial Examples.files [] []).
Proof.
  apply (@missing_identity_profile (Examples.arguments None None (py "default")) empty
           Examples.temporary (initial Examples.files [] [])).
  - reflexivity.
  - discriminate.
Defined.

(** X10.  A credentials file that does not exist is read as an empty
    store.  With distinct identity and target profiles a run on it
    that is not a version query never returns [OK] and leaves the
    files as they were; when STS grants its request, the run raises
    [NoSectionError] for the identity profile. *)
Theorem missing_credentials_file VERSION svc args files typed faulty :
  let run := main VERSION svc args (initial files typed faulty) in
  version args = false ->
  files (aws_credentials args) = None ->
  identity_profile args <> target_profile args ->
  fs (snd run) = files
  /\ fst run <> Ok OK
  /\ forall req creds,
       In (EvSts req) (log (snd run)) -> sts svc req = Ok creds ->
       fst run = Raised (NoSectionError (identity_profile args)).
Proof.
  intros run Hv Hfile Hne.
  destruct (main_trace VERSION svc args files typed faulty)
    as [(P & F & _ & N)
       |(_ & cfg & evs1 & evs2 & serial & token & post & Hread & _ & _ & P1 & P2 & _ & L
         & Hsts)].
  - fold run in P, F, N. split; [exact F|]. split; [auto|].
    intros req creds Hin _. exfalso. rewrite forallb_forall in P. apply P in Hin.
    discriminate.
  - fold run in L, Hsts. rewrite Hfile in Hread. simpl in Hread. inversion Hread. subst cfg.
    destruct (sts svc (sts_request args serial token)) as [creds|e] eqn:E.
    + destruct Hsts as (ops & -> & Po & Fo & U).
      rewrite updated_credentials_no_identity in U by (auto; reflexivity).
      destruct U as (-> & _ & R). split; [exact Fo|]. split; [now rewrite R|].
      intros. exact R.
    + destruct Hsts as (Hpost & F & _ & R). split; [exact F|]. split.
      * rewrite R. apply handled_not_ok.
      * intros req creds Hin Hgrant. exfalso.
        destruct (in_split _ _ Hin) as (pre & post' & E').
        destruct (main_request VERSION svc args files typed faulty _ _ _ E')
          as (a1 & a2 & s' & t' & -> & -> & _ & _ & Q1 & Q2 & _ & Q3).
        fold run in E'. rewrite L in E'.
        rewrite !app_assoc in E'.
        destruct (@split_at_marked is_sts_call _ _ _ _ _ _ E') as (_ & B & _); auto.
        -- rewrite forallb_app. apply andb_true_iff. split.
           ++ rewrite forallb_forall in *. intros ev Hev. apply P1 in Hev. now destruct ev.
           ++ rewrite forallb_forall in *. intros ev Hev. apply P2 in Hev. now destruct ev.
        -- destruct Hpost as [-> | ->]; reflexivity.
        -- inversion B as [B']. rewrite B' in Hgrant. congruence.
Qed.

Lemma missing_credentials_file_witness :
  fs (snd (main Examples.VERSION Examples.granting Examples.explicit
                (initial (fun _ => None) [] []))) = (fun _ => None)
  /\ fst (main Examples.VERSION Examples.granting Examples.explicit
               (initial (fun _ => None) [] [])) <> Ok OK
  /\ forall req creds,
       In (EvSts req)
          (log (snd (main Examples.VERSION Examples.granting Examples.explicit
                          (initial (fun _ => None) [] [])))) ->
       sts Examples.granting req = Ok creds ->
       fst (main Examples.VERSION Examples.granting Examples.explicit
                 (initial (fun _ => None) [] []))
       = Raised (NoSectionError (py "identity")).
Proof.
  apply (@missing_credentials_file Examples.VERSION Examples.granting Examples.explicit
           (fun _ => None) [] []).
  - reflexivity.
  - reflexivity.
  - discriminate.
Defined.

(** X11.  Rotating again: on the store a successful rotation leaves,
    [updated_credentials] does what it does on the store before that
    rotation.  Nothing of the previous target profile survives, so
    repeated runs do not accumulate. *)
Theorem rotation_forgets_previous_target args cfg c1 c2 cfg1 :
  target_profile args <> [] ->
  updated_credentials args cfg c1 = Ok cfg1 ->
  updated_credentials args cfg1 c2 = updated_credentials args cfg c2.
Proof.
  intros Hne H. destruct (updated_credentials_shape _ _ _ Hne H) as (kvs & _ & ->).
  apply updated_credentials_ext; [reflexivity|]. simpl.
  rewrite dict_del_app, dict_del_twice. simpl. rewrite str_eqb_refl. apply app_nil_r.
Qed.

Lemma rotation_forgets_previous_target_witness :
  updated_credentials Examples.explicit Examples.rotated Examples.temporary
  = updated_credentials Examples.explicit Examples.store Examples.temporary.
Proof.
  apply (@rotation_forgets_previous_target Examples.explicit Examples.store
           Examples.temporary Examples.temporary Examples.rotated).
  - discriminate.
  - vm_compute. reflexivity.
Defined.

(** X12.  After a successful rotation the target profile is the last
    section, wherever it stood before: the sections are the other
    sections in their order followed by the target, and the file text
    is the text of the store without the target followed by the text
    of the target section. *)
Theorem target_profile_is_written_last args cfg creds cfg' :
  target_profile args <> [] ->
  updated_credentials args cfg creds = Ok cfg' ->
  exists d,
    _sections cfg' = other_sections (target_profile args) cfg ++ [(target_profile args, d)]
    /\ serialized cfg'
       = serialized (remove_section (target_profile args) cfg)
         ++ concat (_write_section (target_profile args) d).
Proof.
  intros Hne H. destruct (updated_credentials_shape _ _ _ Hne H) as (kvs & _ & ->).
  eexists. split.
  - simpl. unfold other_sections. rewrite dict_del_filter. reflexivity.
  - unfold serialized, write, remove_section. simpl _defaults. simpl _sections.
    rewrite flat_map_app, !concat_app. simpl flat_map. rewrite app_nil_r, app_assoc.
    reflexivity.
Qed.

Lemma target_profile_is_written_last_witness :
  exists d,
    _sections Examples.rotated
    = other_sections (py "default") Examples.store ++ [(py "default", d)]
    /\ serialized Examples.rotated
       = serialized (remove_section (py "default") Examples.store)
         ++ concat (_write_section (py "default") d).
Proof.
  apply (@target_profile_is_written_last Examples.explicit Examples.store
           Examples.temporary Examples.rotated).
  - discriminate.
  - vm_compute. reflexivity.
Defined.

(** X13.  With the empty string as target profile name the four
    temporary fields do not reach the target section: [set] stores
    them in the defaults, the section named by the empty string stays
    empty, and the file starts with a section printed as [None]. *)
Theorem empty_target_profile_fills_defaults args cfg creds cfg' :
  target_profile args = [] ->
  updated_credentials args cfg creds = Ok cfg' ->
  dict_get (target_profile args) (_sections cfg') = Some []
  /\ (forall k v, temporary_field creds k = Some v -> dict_get k (_defaults cfg') = Some v)
  /\ startswith (py "[None]") (serialized cfg') = true.
Proof.
  intros Ht H. destruct (updated_credentials_empty_target _ _ _ Ht H) as (kvs & ->).
  rewrite Ht. split; [|split].
  - simpl. apply dict_get_last. unfold dict_mem. now rewrite dict_get_del_same.
  - intros k v Hk. simpl. rewrite with_temporary_credentials_get. now rewrite Hk.
  - unfold serialized, write. simpl _defaults.
    destruct (with_temporary_credentials creds _) as [|kv d] eqn:E.
    + exfalso. unfold with_temporary_credentials in E.
      now apply dict_set_not_empty in E.
    + reflexivity.
Qed.

Lemma empty_target_profile_fills_defaults_witness :
  dict_get [] (_sections Examples.rotated_into_defaults) = Some []
  /\ (forall k v, temporary_field Examples.temporary k = Some v ->
                  dict_get k (_defaults Examples.rotated_into_defaults) = Some v)
  /\ startswith (py "[None]") (serialized Examples.rotated_into_defaults) = true.
Proof.
  apply (@empty_target_profile_fills_defaults (Examples.arguments None None [])
           Examples.store Examples.temporary Examples.rotated_into_defaults).
  - reflexivity.
  - vm_compute. reflexivity.
Defined.

(** X14.  [persist] changes no path other than the credentials path
    and the temporary path beside it, whether it returns or raises;
    when it returns, the temporary file is gone. *)
Theorem persist_touches_two_paths args cfg w :
  let target := aws_credentials args in
  let tmp := target ++ py ".tmp" in
  let run := persist args cfg w in
  (forall q, q <> target -> q <> tmp -> fs (snd run) q = fs w q)
  /\ (forall u, fst run = Ok u -> fs (snd run) tmp = None).
Proof.
  intros target tmp run. split.
  - intros q Hq Ht. exact (persist_frame _ _ _ (run_eq _ _) Hq Ht).
  - intros u Hu. apply persist_ok_tmp with (cfg := cfg) (w := w) (u := u).
    rewrite <- Hu. apply run_eq.
Qed.

(** X15.  [updated_credentials] keeps the shape [read] establishes:
    for a target profile with a non-empty name, a store without
    defaults, with distinct section names and distinct lower-case
    option names in every section is turned into such a store. *)
Theorem update_keeps_well_formed args cfg creds cfg' :
  well_formed cfg = true ->
  target_profile args <> [] ->
  updated_credentials args cfg creds = Ok cfg' ->
  well_formed cfg' = true.
Proof.
  intros Hwf Hne H. destruct (updated_credentials_shape _ _ _ Hne H) as (kvs & _ & ->).
  unfold well_formed in *. simpl.
  apply andb_true_iff in Hwf as [Hwf Hs]. apply andb_true_iff in Hwf as [Hd Hu].
  rewrite Hd. simpl.
  rewrite unique_keys_app_fresh; [|now apply unique_keys_del|].
  2:{ unfold dict_mem. now rewrite dict_get_del_same. }
  simpl. rewrite forallb_app, forallb_del by assumption. simpl.
  destruct (fold_dict_set_keys kvs [] eq_refl eq_refl) as [A B].
  destruct (with_temporary_credentials_keys creds _ A B) as [C D].
  now rewrite C, D.
Qed.

Lemma update_keeps_well_formed_witness : well_formed Examples.rotated = true.
Proof.
  apply (@update_keeps_well_formed Examples.explicit Examples.store Examples.temporary
           Examples.rotated).
  - reflexivity.
  - discriminate.
  - vm_compute. reflexivity.
Defined.

(** X16.  Whatever the credentials file holds (or when it is
    missing), a store [read] returns has no defaults, no section name
    twice, and in every section no option name twice and only
    lower-case option names. *)
Theorem read_gives_well_formed_store file cfg :
  read file = Ok cfg -> well_formed cfg = true.
Proof. apply read_well_formed. Qed.

Lemma read_gives_well_formed_store_witness : well_formed Examples.store = true.
Proof.
  apply (@read_gives_well_formed_store (Some Examples.credentials_text) Examples.store).
  vm_compute. reflexivity.
Defined.

(** X17.  With no serial number given and exactly one MFA device,
    [find_mfa_for_user] returns the serial of that device, for the root
    user and for any other user alike; it logs [get_user] and the
    listing and prints no warning. *)
Theorem single_device_no_warning svc serial w user d :
  truthy serial = false ->
  get_user svc = Ok user ->
  (if endswith (py ":root") (Arn user)
   then current_user_mfa_devices svc = Ok [d]
   else exists keys,
          list_mfa_devices svc (UserName user)
          = Ok {| MFADevices := [d]; other_keys := keys |}) ->
  find_mfa_for_user svc serial w
  = (Ok (Some (SerialNumber d)),
     {| fs := fs w; stdin := stdin w; faults := faults w;
        log := log w ++ [EvGetUser;
                         if endswith (py ":root") (Arn user)
                         then EvCurrentUserMfaDevices
                         else EvListMfaDevices (UserName user)] |}).
Proof.
  intros Hs Hu H. unfold find_mfa_for_user. rewrite Hs.
  unfold call, bind, emit, lift, ret. simpl. rewrite Hu.
  destruct (endswith (py ":root") (Arn user)); simpl.
  - rewrite H. simpl. now rewrite <- app_assoc.
  - destruct H as [keys H]. rewrite H. simpl. now rewrite <- app_assoc.
Qed.

Lemma single_device_no_warning_witness :
  find_mfa_for_user Examples.granting None (initial Examples.files [] [])
  = (Ok (Some (py "arn:aws:iam::123456789012:mfa/alice")),
     {| fs := Examples.files; stdin := []; faults := [];
        log := [] ++ [EvGetUser; EvListMfaDevices (py "alice")] |}).
Proof.
  apply (@single_device_no_warning Examples.granting None (initial Examples.files [] [])
           Examples.standard_user
           (Examples.device "arn:aws:iam::123456789012:mfa/alice")).
  - reflexivity.
  - reflexivity.
  - exists [py "IsTruncated"; py "ResponseMetadata"]. reflexivity.
Defined.

(** X18.  The rotation succeeds on plain input.  For a store as
    [read] builds it, a non-empty target profile name other than the
    identity profile, an identity profile whose values hold no percent
    sign and temporary credentials whose key, secret and token hold
    none, [updated_credentials] returns the store made of the other
    sections followed by the target section, which holds the options
    of the identity profile with the four temporary fields set over
    them.  Nothing is asked of the expiration: what [isoformat]
    produces is always accepted. *)
Theorem rotation_succeeds args cfg creds src :
  well_formed cfg = true ->
  target_profile args <> [] ->
  target_profile args <> identity_profile args ->
  dict_get (identity_profile args) (_sections cfg) = Some src ->
  forallb (fun kv => plain (snd kv)) src = true ->
  plain_credentials creds = true ->
  updated_credentials args cfg creds
  = Ok {| _defaults := [];
          _sections := other_sections (target_profile args) cfg
                       ++ [(target_profile args, with_temporary_credentials creds src)] |}.
Proof.
  intros Hwf Hne Hid Hsrc Hplain Hc.
  assert (Hdef : _defaults cfg = []).
  { unfold well_formed in Hwf. destruct (_defaults cfg); [reflexivity|discriminate]. }
  destruct (well_formed_section _ _ Hwf Hsrc) as [Hu Hl].
  unfold plain_credentials in Hc.
  apply andb_true_iff in Hc as [Hc H3]. apply andb_true_iff in Hc as [H1 H2].
  assert (Hfresh : dict_mem (target_profile args)
                     (dict_del (target_profile args) (_sections cfg)) = false).
  { unfold dict_mem. now rewrite dict_get_del_same. }
  unfold updated_credentials. rewrite add_after_remove, Hdef.
  unfold rbind at 1. unfold items. simpl _sections. simpl _defaults.
  rewrite dict_get_app, dict_get_del_other, Hsrc by congruence.
  rewrite dict_update_empty, get_all_all_plain by assumption.
  unfold rbind at 1.
  rewrite fold_set_last_section_plain by assumption. unfold rbind at 1.
  rewrite set_last_section_plain by assumption. unfold rbind at 1.
  rewrite set_last_section_plain by assumption. unfold rbind at 1.
  rewrite set_last_section_plain by assumption. unfold rbind at 1.
  rewrite set_last_section_plain by (auto using isoformat_plain).
  unfold other_sections. rewrite <- dict_del_filter.
  rewrite (fold_dict_set_fresh optionxform src []); [reflexivity|exact Hu|].
  intros kv Hin. now apply lowercase_keys_In with (d := src).
Qed.

Lemma rotation_succeeds_witness :
  updated_credentials Examples.explicit Examples.store Examples.temporary
  = Ok {| _defaults := [];
          _sections :=
            other_sections (py "default") Examples.store
            ++ [(py "default",
                 with_temporary_credentials Examples.temporary
                   [(py "aws_access_key_id", py "AKIAIDENTITY");
                    (py "aws_secret_access_key", py "longlived");
                    (py "region", py "us-east-1")])] |}.
Proof.
  apply (@rotation_succeeds Examples.explicit Examples.store Examples.temporary).
  - reflexivity.
  - discriminate.
  - discriminate.
  - reflexivity.
  - reflexivity.
  - reflexivity.
Defined.

(** X19.  Unless a run of [main] returns [OK], the credentials path
    holds at the end what it held at the start, whatever failed: the
    parser, IAM, the prompt, STS, the rotation or a file operation. *)
Theorem failed_run_keeps_credentials_file VERSION svc args files typed faulty :
  let run := main VERSION svc args (initial files typed faulty) in
  fst run <> Ok OK ->
  fs (snd run) (aws_credentials args) = files (aws_credentials args).
Proof.
  intros run Hr.
  destruct (main_trace VERSION svc args files typed faulty)
    as [(_ & F & _)
       |(_ & cfg & evs1 & evs2 & serial & token & post & _ & _ & _ & _ & _ & _ & _ & Hsts)].
  - fold run in F. now rewrite F.
  - fold run in Hsts.
    destruct (sts svc (sts_request args serial token)) as [creds|e].
    + destruct Hsts as (ops & _ & _ & Fo & U).
      destruct (updated_credentials args cfg creds) as [cfg'|e].
      * destruct U as (wp & ru & Hp & Fp & _ & R).
        destruct ru as [u|e]; [contradiction|].
        destruct (persist_run _ _ _ Hp) as (evs & _ & F & E). simpl in E.
        rewrite F, Fp. apply replay_on_file with (p := aws_credentials args ++ py ".tmp");
          [exact E|apply tmp_differs].
      * destruct U as (-> & _). now rewrite Fo.
    + destruct Hsts as (_ & F & _). now rewrite F.
Qed.

Lemma failed_run_keeps_credentials_file_witness :
  fs (snd (main Examples.VERSION Examples.granting Examples.explicit
                (initial Examples.files [] [false; false; true]))) Examples.path
  = Examples.files Examples.path.
Proof.
  apply (@failed_run_keeps_credentials_file Examples.VERSION Examples.granting Examples.explicit
           Examples.files [] [false; false; true]).
  vm_compute. discriminate.
Defined.

(** X20.  When the identity profile is its own target, a successful
    rotation leaves in it the four temporary fields and nothing else:
    the section is removed before its items are copied, so the
    long-lived credentials and every other option it held are gone. *)
Theorem identity_as_target_is_overwritten args cfg creds cfg' :
  well_formed cfg = true ->
  target_profile args <> [] ->
  identity_profile args = target_profile args ->
  updated_credentials args cfg creds = Ok cfg' ->
  dict_get (identity_profile args) (_sections cfg')
  = Some (with_temporary_credentials creds []).
Proof.
  intros Hwf Hne Hid H.
  destruct (updated_credentials_shape _ _ _ Hne H) as (kvs & Hitems & ->).
  assert (Hdef : _defaults cfg = []).
  { unfold well_formed in Hwf. destruct (_defaults cfg); [reflexivity|discriminate]. }
  assert (Hfresh : dict_mem (target_profile args)
                     (dict_del (target_profile args) (_sections cfg)) = false).
  { unfold dict_mem. now rewrite dict_get_del_same. }
  unfold items in Hitems. simpl in Hitems.
  rewrite Hid, dict_get_last, Hdef in Hitems by assumption.
  simpl in Hitems. inversion Hitems. subst kvs.
  simpl. rewrite Hid. now apply dict_get_last.
Qed.

Lemma identity_as_target_is_overwritten_witness :
  dict_get (py "identity")
    (_sections
       {| _defaults := [];
          _sections :=
            [(py "default", [(py "stale", py "yes")]);
             (py "identity", [(py "aws_access_key_id", py "ASIATEMP");
                              (py "aws_secret_access_key", py "shortlived");
                              (py "aws_session_token", py "token");
                              (py "awsmfa_expiration", py "2026-11-04T18:30:00+00:00")])] |})
  = Some (with_temporary_credentials Examples.temporary []).
Proof.
  apply (@identity_as_target_is_overwritten
           (Examples.arguments None None (py "identity")) Examples.store
           Examples.temporary).
  - reflexivity.
  - discriminate.
  - reflexivity.
  - vm_compute. reflexivity.
Defined.

(** X21.  For a store as [read] builds it, a target profile name that
    is not empty and differs from the identity profile name, and a
    successful update: the target section is exactly the items of the
    identity profile (its option names, each value after
    interpolation, unchanged when it holds no percent sign) with the
    four fields [aws_access_key_id], [aws_secret_access_key],
    [aws_session_token] and [awsmfa_expiration] set over them,
    whatever the target held before; a lookup in it gives the
    temporary field for these four names and the identity profile's
    item for every other name. *)
Theorem target_profile_fields args cfg creds cfg' :
  well_formed cfg = true ->
  target_profile args <> [] ->
  target_profile args <> identity_profile args ->
  updated_credentials args cfg creds = Ok cfg' ->
  exists src kvs,
    dict_get (identity_profile args) (_sections cfg) = Some src
    /\ items (identity_profile args) cfg = Ok kvs
    /\ map fst kvs = map fst src
    /\ (forall k v, dict_get k src = Some v -> contains "%"%char v = false ->
                    dict_get k kvs = Some v)
    /\ dict_get (target_profile args) (_sections cfg')
       = Some (with_temporary_credentials creds kvs)
    /\ forall k, dict_get k (with_temporary_credentials creds kvs)
                 = match temporary_field creds k with
                   | Some v => Some v
                   | None => dict_get k kvs
                   end.
Proof.
  intros Hwf Hne Hdiff H.
  destruct (updated_credentials_shape _ _ _ Hne H) as (kvs & Hitems & ->).
  assert (Hdef : _defaults cfg = []).
  { unfold well_formed in Hwf. destruct (_defaults cfg); [reflexivity|discriminate]. }
  unfold items in Hitems. simpl in Hitems.
  rewrite dict_get_app in Hitems.
  rewrite dict_get_del_other in Hitems by congruence.
  destruct (dict_get (identity_profile args) (_sections cfg)) as [src|] eqn:Hsrc.
  2:{ simpl in Hitems. assert (E : str_eqb (identity_profile args) (target_profile args) = false)
        by (apply str_eqb_neq; congruence). rewrite E in Hitems. discriminate. }
  destruct (well_formed_section _ _ Hwf Hsrc) as [Hu Hl].
  rewrite Hdef, dict_update_empty in Hitems by assumption.
  pose proof (get_all_keys _ _ Hitems) as Hkeys.
  exists src, kvs. split; [reflexivity|]. split.
  { unfold items. rewrite Hsrc, Hdef, dict_update_empty by assumption. exact Hitems. }
  split; [exact Hkeys|]. split.
  { intros k v Hk Hv. eapply get_all_plain; eauto. }
  split.
  - simpl. rewrite dict_get_last by (unfold dict_mem; now rewrite dict_get_del_same).
    f_equal. f_equal.
    apply (fold_dict_set_fresh optionxform kvs []).
    + simpl. now rewrite (unique_keys_same_keys kvs src).
    + intros kv Hin. apply lowercase_keys_In with (d := kvs); auto.
      now rewrite (lowercase_keys_same_keys kvs src).
  - intros k. apply with_temporary_credentials_get.
Qed.

Lemma target_profile_fields_witness :
  exists src kvs,
    dict_get (py "identity") (_sections Examples.store) = Some src
    /\ items (py "identity") Examples.store = Ok kvs
    /\ map fst kvs = map fst src
    /\ (forall k v, dict_get k src = Some v -> contains "%"%char v = false ->
                    dict_get k kvs = Some v)
    /\ dict_get (py "default")
         (_sections
            {| _defaults := [];
               _sections :=
                 [(py "identity", [(py "aws_access_key_id", py "AKIAIDENTITY");
                                   (py "aws_secret_access_key", py "longlived");
                                   (py "region", py "us-east-1")]);
                  (py "default", [(py "aws_access_key_id", py "ASIATEMP");
                                  (py "aws_secret_access_key", py "shortlived");
                                  (py "region", py "us-east-1");
                                  (py "aws_session_token", py "token");
                                  (py "awsmfa_expiration", py "2026-11-04T18:30:00+00:00")])] |})
       = Some (with_temporary_credentials Examples.temporary kvs)
    /\ forall k, dict_get k (with_temporary_credentials Examples.temporary kvs)
                 = match temporary_field Examples.temporary k with
                   | Some v => Some v
                   | None => dict_get k kvs
                   end.
Proof.
  apply (@target_profile_fields (Examples.arguments None None (py "default"))
           Examples.store Examples.temporary).
  - reflexivity.
  - discriminate.
  - discriminate.
  - vm_compute. reflexivity.
Defined.

(** X22.  For a target profile with a non-empty name, a successful
    update leaves the parser's defaults as they were and every section
    with another name as it was, in the same order: for every other
    profile the stored options and the items the parser returns are
    unchanged.  When [update_credentials_file] returns, the file at the
    credentials path is the serialization of that store. *)
Theorem other_profiles_keep_their_items args cfg creds cfg' :
  target_profile args <> [] ->
  updated_credentials args cfg creds = Ok cfg' ->
  _defaults cfg' = _defaults cfg
  /\ other_sections (target_profile args) cfg' = other_sections (target_profile args) cfg
  /\ (forall q, q <> target_profile args ->
        dict_get q (_sections cfg') = dict_get q (_sections cfg)
        /\ items q cfg' = items q cfg)
  /\ (forall w c w',
        update_credentials_file args cfg creds w = (Ok c, w') ->
        c = cfg' /\ fs w' (aws_credentials args) = Some (serialized cfg')).
Proof.
  intros Hne H. destruct (updated_credentials_frame _ _ _ H) as [A B].
  assert (D : _defaults cfg' = _defaults cfg).
  { destruct (updated_credentials_shape _ _ _ Hne H) as (kvs & _ & ->). reflexivity. }
  split; [exact D|]. split; [exact A|]. split.
  - intros q Hq. split; [now apply B|].
    unfold items. now rewrite D, (B q Hq).
  - intros w c w'. unfold update_credentials_file, bind, lift, ret. rewrite H.
    destruct (persist args cfg' w) as [[u|e] w1] eqn:Hp; [|discriminate].
    intros E. inversion E; subst. split; [reflexivity|].
    now apply persist_ok with (u := u) (w := w).
Qed.

Lemma other_profiles_keep_their_items_witness :
  _defaults Examples.rotated = _defaults Examples.store
  /\ other_sections (py "default") Examples.rotated
     = other_sections (py "default") Examples.store
  /\ (forall q, q <> py "default" ->
        dict_get q (_sections Examples.rotated) = dict_get q (_sections Examples.store)
        /\ items q Examples.rotated = items q Examples.store)
  /\ (forall w c w',
        update_credentials_file Examples.explicit Examples.store Examples.temporary w
        = (Ok c, w') ->
        c = Examples.rotated /\ fs w' Examples.path = Some (serialized Examples.rotated)).
Proof.
  apply (@other_profiles_keep_their_items Examples.explicit Examples.store
           Examples.temporary Examples.rotated).
  - discriminate.
  - vm_compute. reflexivity.
Defined.
